(** * The TMDB data-access layer of the rental storefront

    A shallow embedding of the optimized TMDB service module (cache store,
    request scheduler, catalog client, enrichment pipeline, batch fetch
    utility) and the properties its design document states about it.

    Conventions of the embedding:
    - a JavaScript [Map<string, _>] and the browser's [localStorage] are
      finite maps ([gmap string _]);
    - integral JavaScript numbers (ids, pages, timestamps, runtimes) are [Z];
      a number that can be [NaN] is a [JSNumber]; fractional numbers
      (scores, random draws) are [Q];
    - a call that can throw (or an [async] function that can reject) returns a
      [Completion];
    - the module-level singletons together with the browser clock form the
      [World] that every operation threads through;
    - an awaited call of an [async] function is one operation on the world;
      a call whose promise is not awaited is given in two parts, up to its
      first [await] and from the answer to its request on. *)

From Stdlib Require Import ZArith QArith Ascii String List.
From stdpp Require Import gmap strings list fin_maps pretty sorting.

Local Open Scope string_scope.
Local Open Scope list_scope.
Local Open Scope Z_scope.

(** ** JavaScript values the module observes *)

(** A number that may be [NaN] (what [getFullYear] returns). *)
Inductive JSNumber :=
| NaN
| Num (n : Z).

(** Outcome of a call: a value, or a thrown exception / rejected promise. *)
Inductive Completion (A : Type) :=
| Return (a : A)
| Throw (e : string).
Arguments Return {A} a.
Arguments Throw {A} e.

(** String truthiness: the empty string is the only falsy string. *)
Definition truthy (s : string) : bool :=
  match s with
  | EmptyString => false
  | String _ _ => true
  end.

(** ** Release dates as they arrive on the wire

    The declared TypeScript type of the release-dates sub-resource is
    [{ results: Array<{ iso_3166_1: string;
                        release_dates: Array<{ certification: string }> }> }],
    but the value is whatever [response.json()] produced. The wire types
    below keep the declared shape and let every property be missing or [null]
    ([None]) and every array element be [null] ([None]), which is what an
    unchecked JSON document can do to it. *)

Module Wire.
Record ReleaseDate := {
  certification : option string;
}.

Record Country := {
  iso_3166_1 : option string;
  release_dates : option (list (option ReleaseDate));
}.

Record ReleaseDates := {
  results : option (list (option Country));
}.
End Wire.

(** [Array.prototype.find] with a callback that can throw: the callback runs
    on the elements in order and the first element it accepts is returned;
    an exception of the callback ends the search. *)
Fixpoint array_find {A : Type} (cb : A -> Completion bool) (l : list A)
  : Completion (option A) :=
  match l with
  | [] => Return None
  | x :: rest =>
      match cb x with
      | Throw e => Throw e
      | Return true => Return (Some x)
      | Return false => array_find cb rest
      end
  end.

Definition TypeError : string := "TypeError".

(** [r => r.iso_3166_1 === 'US']; reading a property of [null] throws. *)
Definition is_US (r : option Wire.Country) : Completion bool :=
  match r with
  | None => Throw TypeError
  | Some c =>
      match Wire.iso_3166_1 c with
      | Some code => Return (bool_decide (code = "US"))
      | None => Return false
      end
  end.

(** [rd => rd.certification], as a truthiness test. *)
Definition has_certification (rd : option Wire.ReleaseDate) : Completion bool :=
  match rd with
  | None => Throw TypeError
  | Some d =>
      match Wire.certification d with
      | Some c => Return (truthy c)
      | None => Return false
      end
  end.

(** [extractUSCertification(releaseDates?)]. *)
Definition extractUSCertification (releaseDates : option Wire.ReleaseDates)
  : Completion string :=
  match releaseDates with
  | None => Return "NR"                         (* !releaseDates?.results *)
  | Some rds =>
      match Wire.results rds with
      | None => Return "NR"                     (* !releaseDates?.results *)
      | Some rs =>
          match array_find is_US rs with
          | Throw e => Throw e
          | Return None => Return "NR"
          | Return (Some None) => Return "NR"   (* a null never passes is_US *)
          | Return (Some (Some usRelease)) =>
              match Wire.release_dates usRelease with
              | None => Throw TypeError         (* usRelease.release_dates.length *)
              | Some rdl =>
                  if (0 <? Z.of_nat (length rdl))%Z then
                    match array_find has_certification rdl with
                    | Throw e => Throw e
                    | Return (Some (Some rd)) =>
                        match Wire.certification rd with
                        | Some c => if truthy c then Return c else Return "NR"
                        | None => Return "NR"
                        end
                    | Return _ => Return "NR"
                    end
                  else Return "NR"
              end
          end
      end
  end.

(** *** Values of the declared type

    A value of the declared type is a list of country entries, each a country
    code with the certification strings of its release dates; the builders
    below embed such a value into the wire representation. *)

Definition rd_of (c : string) : option Wire.ReleaseDate :=
  Some {| Wire.certification := Some c |}.
Definition country_of (code : string) (certs : list string) : option Wire.Country :=
  Some {| Wire.iso_3166_1 := Some code; Wire.release_dates := Some (map rd_of certs) |}.
Definition release_dates_of (cs : list (string * list string))
  : option Wire.ReleaseDates :=
  Some {| Wire.results := Some (map (fun c => country_of (fst c) (snd c)) cs) |}.

(** The first non-empty certification of a list of certifications. *)
Definition first_certification (certs : list string) : option string :=
  List.find truthy certs.

(** The release-date certifications of the first US entry. *)
Definition first_US (cs : list (string * list string)) : option (list string) :=
  snd <$> List.find (fun c => bool_decide (fst c = "US")) cs.

(** ** Records of the data model ([src/types/movie.ts]) *)

(** The application's [Movie]. *)
Module Movie.
Record t := {
  id : Z;
  title : string;
  year : JSNumber;
  genre : list string;
  tagline : string;
  rating : string;        (* US certification: PG, R, PG-13, G, NR, NC-17 *)
  runtime : string;
  available : bool;
  poster : string;
  backdrop : option string;
  tmdbRating : option Q;
  overview : option string;
}.
End Movie.

(** The raw catalog record, [TMDBMovie]. *)
Module TMDBMovie.
Record t := {
  id : Z;
  title : string;
  original_title : string;
  overview : string;
  poster_path : option string;
  backdrop_path : option string;
  release_date : string;
  genre_ids : list Z;
  vote_average : Q;
  vote_count : Z;
  popularity : Q;
  adult : bool;
  original_language : string;
  video : bool;
}.
End TMDBMovie.

Module TMDBGenre.
Record t := {
  id : Z;
  name : string;
}.
End TMDBGenre.

(** [TMDBMovieDetails extends TMDBMovie]. [genres] is read through [?.] by the
    enrichment step, so it may be missing. *)
Module TMDBMovieDetails.
Record t := {
  base : TMDBMovie.t;
  tagline : string;
  runtime : option Z;
  genres : option (list TMDBGenre.t);
  status : string;
  budget : Z;
  revenue : Z;
  imdb_id : option string;
}.
End TMDBMovieDetails.

Module TMDBMovieResponse.
Record t := {
  page : Z;
  results : list TMDBMovie.t;
  total_pages : Z;
  total_results : Z;
}.
End TMDBMovieResponse.

(** [TMDBMovieDetailsWithReleaseDates]: the details together with the
    appended [release_dates] sub-resource. *)
Module TMDBMovieDetailsWithReleaseDates.
Record t := {
  details : TMDBMovieDetails.t;
  release_dates : option Wire.ReleaseDates;
}.
End TMDBMovieDetailsWithReleaseDates.

Module CachedMovieDetails.
Record t := {
  details : TMDBMovieDetails.t;
  certification : string;
}.
End CachedMovieDetails.

(** The page object [{ movies, totalPages, totalResults }]. *)
Module Page.
Record t := {
  movies : list Movie.t;
  totalPages : Z;
  totalResults : Z;
}.
End Page.

(** What a cache entry can hold. The cache is a [Map<string, CacheEntry<unknown>>]
    read through an unchecked cast, so a reader gets whatever value is stored
    under its key: one of the two shapes this module writes, or (from a
    foreign [localStorage] entry) some other JSON value, of which the readers
    observe only the truthiness. *)
Inductive Payload :=
| PDetails (d : CachedMovieDetails.t)
| PPage (p : Page.t)
| PForeign (is_truthy : bool).

Definition payload_truthy (p : Payload) : bool :=
  match p with
  | PDetails _ | PPage _ => true
  | PForeign b => b
  end.

Record CacheEntry := {
  data : Payload;
  timestamp : Z;
}.

(** ** The JavaScript runtime

    Built-ins the module calls and that are not part of its source. *)

(** What [JSON.parse(cached)] followed by the read of [entry.timestamp]
    amounts to. *)
Inductive ParseOutcome :=
| ParseThrows                  (* SyntaxError on a corrupt payload, or the
                                  TypeError of reading [timestamp] of [null] *)
| ParsedEntry (e : CacheEntry) (* an object with a numeric timestamp *)
| ParsedNoTimestamp.           (* any other value: its age is NaN *)

Class Runtime := {
  JSON_parse : string -> ParseOutcome;
  JSON_stringify : CacheEntry -> string;
  (** [new Date(s).getFullYear()] *)
  Date_getFullYear : string -> JSNumber;
}.

(** ** The browser's [localStorage]

    Either every access throws (storage disabled), or it is a string-to-string
    map; a full storage refuses [setItem]. *)
Inductive Storage :=
| Unavailable
| Available (items : gmap string string) (full : bool).

Definition stored (ls : Storage) : gmap string string :=
  match ls with
  | Unavailable => ∅
  | Available items _ => items
  end.

Definition getItem (key : string) (ls : Storage) : Completion (option string) :=
  match ls with
  | Unavailable => Throw "SecurityError"
  | Available items _ => Return (items !! key)
  end.

Definition setItem (key value : string) (ls : Storage) : Completion unit * Storage :=
  match ls with
  | Unavailable => (Throw "SecurityError", ls)
  | Available items full =>
      if full then (Throw "QuotaExceededError", ls)
      else (Return tt, Available (<[key:=value]> items) full)
  end.

Definition removeItem (key : string) (ls : Storage) : Completion unit * Storage :=
  match ls with
  | Unavailable => (Throw "SecurityError", ls)
  | Available items full => (Return tt, Available (delete key items) full)
  end.

(** [Object.keys(localStorage)] *)
Definition Object_keys (ls : Storage) : Completion (list string) :=
  match ls with
  | Unavailable => Throw "SecurityError"
  | Available items _ => Return (map fst (map_to_list items))
  end.

(** ** The world the module runs in *)

(** What the outside can observe of a run: requests handed to [fetch], and
    units admitted to the request queue. *)
Inductive Event :=
| EvFetch (endpoint : string) (params : list (string * string))
| EvQueue.

Record World := {
  memoryCache : gmap string CacheEntry;   (* const memoryCache = new Map() *)
  localStorage : Storage;
  now : Z;                                (* Date.now() *)
  log : list Event;
}.

Definition set_memoryCache (f : gmap string CacheEntry -> gmap string CacheEntry)
  (w : World) : World :=
  {| memoryCache := f (memoryCache w); localStorage := localStorage w;
     now := now w; log := log w |}.

Definition set_localStorage (ls : Storage) (w : World) : World :=
  {| memoryCache := memoryCache w; localStorage := ls;
     now := now w; log := log w |}.

(** The clock moves on by [dt] milliseconds. *)
Definition advance (dt : Z) (w : World) : World :=
  {| memoryCache := memoryCache w; localStorage := localStorage w;
     now := now w + dt; log := log w |}.

Definition emit (e : Event) (w : World) : World :=
  {| memoryCache := memoryCache w; localStorage := localStorage w;
     now := now w; log := log w ++ [e] |}.

(** Computations over the world that can throw. *)
Definition M (A : Type) : Type := World -> Completion A * World.

Definition ret {A} (a : A) : M A := fun w => (Return a, w).

Definition bind {A B} (c : M A) (k : A -> M B) : M B :=
  fun w =>
    match c w with
    | (Return a, w') => k a w'
    | (Throw e, w') => (Throw e, w')
    end.

Notation "x <- c ;; k" := (bind c (fun x => k))
  (at level 100, c at next level, right associativity).

(** ** Caching layer: localStorage with 24h TTL *)

Definition CACHE_TTL : Z := 24 * 60 * 60 * 1000.
Definition CACHE_PREFIX : string := "tmdb_cache_".

(** [getCacheKey(type, id)], with [id] already converted to a string. *)
Definition getCacheKey (type id : string) : string :=
  CACHE_PREFIX +:+ type +:+ "_" +:+ id.

(** [Date.now() - entry.timestamp < CACHE_TTL] *)
Definition fresh (w : World) (e : CacheEntry) : bool :=
  now w - timestamp e <? CACHE_TTL.

Section WithRuntime.
Context `{Runtime}.

(** The [localStorage] fallback of [getFromCache] (the [try] block and the
    final [return null]). *)
Definition getFromStorage (key : string) (w : World) : option Payload * World :=
  match getItem key (localStorage w) with
  | Throw _ => (None, w)
  | Return None => (None, w)
  | Return (Some cached) =>
      if truthy cached then
        match JSON_parse cached with
        | ParseThrows => (None, w)
        | ParsedEntry entry =>
            if fresh w entry then
              (Some (data entry), set_memoryCache (insert key entry) w)
            else
              (None, set_localStorage (snd (removeItem key (localStorage w))) w)
        | ParsedNoTimestamp =>
            (None, set_localStorage (snd (removeItem key (localStorage w))) w)
        end
      else (None, w)
  end.

(** [getFromCache<T>(key)]: [None] is [null]. *)
Definition getFromCache (key : string) (w : World) : option Payload * World :=
  match memoryCache w !! key with
  | Some memCached =>
      if fresh w memCached then (Some (data memCached), w)
      else getFromStorage key w
  | None => getFromStorage key w
  end.

(** [saveToCache<T>(key, data)] *)
Definition saveToCache (key : string) (d : Payload) (w : World) : World :=
  let entry := {| data := d; timestamp := now w |} in
  let w1 := set_memoryCache (insert key entry) w in
  set_localStorage (snd (setItem key (JSON_stringify entry) (localStorage w1))) w1.

(** [clearCache()] *)
Definition clearCache (w : World) : World :=
  let w1 := set_memoryCache (fun _ => ∅) w in
  match Object_keys (localStorage w1) with
  | Throw _ => w1
  | Return all_keys =>
      let keys := List.filter (fun k => String.prefix CACHE_PREFIX k) all_keys in
      set_localStorage
        (foldl (fun ls k => snd (removeItem k ls)) (localStorage w1) keys) w1
  end.

(** An [if (cached)] test on the result of [getFromCache]. *)
Definition cache_hit (cached : option Payload) : bool :=
  match cached with
  | Some p => payload_truthy p
  | None => false
  end.

End WithRuntime.

(** ** Core API functions *)

(** How the provider answers one request: the body of a 2xx response, a
    non-success status, or no response at all ([fetch] itself rejects);
    [elapsed] is the time the exchange takes. *)
Inductive HttpOutcome (T : Type) :=
| Ok (body : T)
| HttpError (status : Z) (statusText : string)
| NetworkFailure.
Arguments Ok {T} body.
Arguments HttpError {T} status statusText.
Arguments NetworkFailure {T}.

Record Reply (T : Type) := {
  elapsed : Z;
  outcome : HttpOutcome T;
}.
Arguments elapsed {T} r.
Arguments outcome {T} r.

(** [fetchTMDB<T>(endpoint, params)]: one call of [fetch]. *)
Definition fetchTMDB {T} (endpoint : string) (params : list (string * string))
  (reply : Reply T) : M T :=
  fun w =>
    let w' := advance (elapsed reply) (emit (EvFetch endpoint params) w) in
    match outcome reply with
    | Ok body => (Return body, w')
    | HttpError status statusText =>
        (Throw ("TMDB API error: " +:+ pretty status +:+ " " +:+ statusText), w')
    | NetworkFailure => (Throw "TypeError: Failed to fetch", w')
    end.

(** [fetchTMDBQueued<T>(endpoint, params)]: the same call handed to
    [queueRequest]. For a single caller the scheduler admits the unit, runs it
    and settles the caller's promise with the unit's own outcome (module
    [Scheduler] below has the queue itself). *)
Definition fetchTMDBQueued {T} (endpoint : string) (params : list (string * string))
  (reply : Reply T) : M T :=
  fun w => fetchTMDB endpoint params reply (emit EvQueue w).

(** For a nullable number [n], [n ? yes(n) : no]: [null] and [0] are falsy. *)
Definition if_number {A} (n : option Z) (yes : Z -> A) (no : A) : A :=
  match n with
  | Some z => if z =? 0 then no else yes z
  | None => no
  end.

(** The request parameters [discoverMovies] builds. *)
Definition discover_params (page : Z) (genreId : option Z) (sortBy : string)
  : list (string * string) :=
  [("page", pretty page);
   ("sort_by", sortBy);
   ("primary_release_date.gte", "1980-01-01");
   ("primary_release_date.lte", "1989-12-31");
   ("include_adult", "false");
   ("include_video", "false");
   ("language", "en-US")]
  ++ if_number genreId (fun g => [("with_genres", pretty g)]) [].

(** [discoverMovies(page, genreId, sortBy = 'popularity.desc')] *)
Definition discoverMovies (page : Z) (genreId : option Z)
  (reply : Reply TMDBMovieResponse.t) : M TMDBMovieResponse.t :=
  fetchTMDB "/discover/movie" (discover_params page genreId "popularity.desc") reply.

(** [mapGenreIds(genreIds, genreMap)] *)
Definition mapGenreIds (genreIds : list Z) (genreMap : gmap Z string) : list string :=
  omap (fun id => genreMap !! id) genreIds.

(** [Math.random() > 0.1] *)
Definition above_tenth (random : Q) : bool :=
  negb (Qle_bool random (1 # 10)).

(** [`${n} min`] *)
Definition minutes (n : Z) : string := pretty n +:+ " min".

(** [a || b] on strings *)
Definition or_else (a b : string) : string :=
  if truthy a then a else b.

(** [s || ''] on a nullable string *)
Definition or_empty (s : option string) : string :=
  match s with
  | Some p => p
  | None => ""
  end.

Section Pipeline.
Context `{Runtime}.

(** [transformTMDBMovie(tmdbMovie, genreMap, certification = 'NR', details?)];
    [random] is the value [Math.random()] returns during the call. *)
Definition transformTMDBMovie (tmdbMovie : TMDBMovie.t) (genreMap : gmap Z string)
  (certification : string) (details : option TMDBMovieDetails.t) (random : Q)
  : Movie.t :=
  let year :=
    if truthy (TMDBMovie.release_date tmdbMovie)
    then Date_getFullYear (TMDBMovie.release_date tmdbMovie)
    else Num 0 in
  let runtime :=
    match details with
    | Some d => if_number (TMDBMovieDetails.runtime d) minutes ""
    | None => ""
    end in
  let tagline :=
    match details with
    | Some d => or_else (TMDBMovieDetails.tagline d) ""
    | None => ""
    end in
  {| Movie.id := TMDBMovie.id tmdbMovie;
     Movie.title := TMDBMovie.title tmdbMovie;
     Movie.year := year;
     Movie.genre := mapGenreIds (TMDBMovie.genre_ids tmdbMovie) genreMap;
     Movie.tagline := tagline;
     Movie.rating := certification;
     Movie.runtime := runtime;
     Movie.available := above_tenth random;
     Movie.poster := or_empty (TMDBMovie.poster_path tmdbMovie);
     Movie.backdrop := None;
     Movie.tmdbRating := Some (TMDBMovie.vote_average tmdbMovie);
     Movie.overview := Some (TMDBMovie.overview tmdbMovie) |}.

(** The cache key of a discover page:
    [getCacheKey('discover_page', `${page}_${genreId || 'all'}`)]. *)
Definition discover_key (page : Z) (genreId : option Z) : string :=
  getCacheKey "discover_page"
    (pretty page +:+ "_" +:+ if_number genreId pretty "all").

(** The page object [fetchMoviesBasic] builds from a response. *)
Definition basic_page (genreMap : gmap Z string) (random : nat → Q)
  (response : TMDBMovieResponse.t) : Payload :=
  PPage {| Page.movies :=
             imap (fun i tmdbMovie =>
                     transformTMDBMovie tmdbMovie genreMap "NR" None (random i))
                  (TMDBMovieResponse.results response);
           Page.totalPages := TMDBMovieResponse.total_pages response;
           Page.totalResults := TMDBMovieResponse.total_results response |}.

(** [fetchMoviesBasic] past its cache check: the call of [discoverMovies],
    the early return on an empty page, the transformation and the caching of
    the result. [random i] is the value of the [i]-th call of [Math.random()]. *)
Definition fetchMoviesBasic_miss (page : Z) (genreId : option Z)
  (genreMap : gmap Z string) (reply : Reply TMDBMovieResponse.t) (random : nat -> Q)
  : M Payload :=
  response <- discoverMovies page genreId reply ;;
  fun w =>
    match TMDBMovieResponse.results response with
    | [] =>
        (Return (PPage {| Page.movies := []; Page.totalPages := 0;
                          Page.totalResults := 0 |}), w)
    | _ :: _ =>
        let result := basic_page genreMap random response in
        (Return result, saveToCache (discover_key page genreId) result w)
    end.

(** [fetchMoviesBasic(page, genreId, genreMap)]. [reply] is the provider's
    answer should the call reach [discoverMovies]. A cache hit returns the
    stored value as it is. *)
Definition fetchMoviesBasic (page : Z) (genreId : option Z) (genreMap : gmap Z string)
  (reply : Reply TMDBMovieResponse.t) (random : nat -> Q) : M Payload :=
  fun w =>
    match getFromCache (discover_key page genreId) w with
    | (Some cached, w1) =>
        if payload_truthy cached then (Return cached, w1)
        else fetchMoviesBasic_miss page genreId genreMap reply random w1
    | (None, w1) => fetchMoviesBasic_miss page genreId genreMap reply random w1
    end.

(** [getMovieDetailsWithCertification] past its cache check. *)
Definition getMovieDetailsWithCertification_miss (movieId : Z)
  (reply : Reply TMDBMovieDetailsWithReleaseDates.t) : M Payload :=
  response <- fetchTMDBQueued ("/movie/" +:+ pretty movieId)
                [("append_to_response", "release_dates"); ("language", "en-US")]
                reply ;;
  fun w =>
    match extractUSCertification
            (TMDBMovieDetailsWithReleaseDates.release_dates response) with
    | Throw e => (Throw e, w)
    | Return certification =>
        let result :=
          PDetails {| CachedMovieDetails.details :=
                        TMDBMovieDetailsWithReleaseDates.details response;
                      CachedMovieDetails.certification := certification |} in
        (Return result,
         saveToCache (getCacheKey "movie_details" (pretty movieId)) result w)
    end.

(** [getMovieDetailsWithCertification(movieId)] *)
Definition getMovieDetailsWithCertification (movieId : Z)
  (reply : Reply TMDBMovieDetailsWithReleaseDates.t) : M Payload :=
  fun w =>
    match getFromCache (getCacheKey "movie_details" (pretty movieId)) w with
    | (Some cached, w1) =>
        if payload_truthy cached then (Return cached, w1)
        else getMovieDetailsWithCertification_miss movieId reply w1
    | (None, w1) => getMovieDetailsWithCertification_miss movieId reply w1
    end.

(** The object literal [enrichMovieWithDetails] returns on success. *)
Definition enriched (movie : Movie.t) (d : CachedMovieDetails.t) : Movie.t :=
  let details := CachedMovieDetails.details d in
  {| Movie.id := Movie.id movie;
     Movie.title := Movie.title movie;
     Movie.year := Movie.year movie;
     Movie.genre :=
       match TMDBMovieDetails.genres details with
       | Some gs =>
           if 0 <? Z.of_nat (length gs) then map TMDBGenre.name gs
           else Movie.genre movie
       | None => Movie.genre movie
       end;
     Movie.tagline := or_else (TMDBMovieDetails.tagline details) (Movie.tagline movie);
     Movie.rating := CachedMovieDetails.certification d;
     Movie.runtime :=
       if_number (TMDBMovieDetails.runtime details) minutes (Movie.runtime movie);
     Movie.available := Movie.available movie;
     Movie.poster := Movie.poster movie;
     Movie.backdrop := Movie.backdrop movie;
     Movie.tmdbRating := Movie.tmdbRating movie;
     Movie.overview := Movie.overview movie |}.

(** [enrichMovieWithDetails(movie, genreMap)]. The whole body is inside
    [try]/[catch]: a rejected fetch returns the original movie, and so does a
    cached value that is not a details record (destructuring it leaves
    [details] undefined and reading [details.tagline] throws). *)
Definition enrichMovieWithDetails (movie : Movie.t) (genreMap : gmap Z string)
  (reply : Reply TMDBMovieDetailsWithReleaseDates.t) (w : World) : Movie.t * World :=
  match getMovieDetailsWithCertification (Movie.id movie) reply w with
  | (Return (PDetails d), w') => (enriched movie d, w')
  | (Return _, w') => (movie, w')
  | (Throw _, w') => (movie, w')
  end.

End Pipeline.

(** ** Rate limiting *)

Definition REQUEST_DELAY : Z := 100.
Definition BATCH_SIZE : nat := 5.
Definition BATCH_DELAY : Z := 300.

(** *** The request queue

    [processQueue] is an [async] function: between two of its [await]s it
    runs without interruption, and while it is suspended other code (further
    calls of [queueRequest]) runs. The state below is the module's two
    variables together with the point at which the one worker, if any, is
    suspended, and what the outside has seen so far. *)

Section RequestQueue.
Context {V : Type}.

(** A queued unit: the closure [queueRequest] pushes. [ticket] names the
    promise [queueRequest] returned for it, [requestFn] is what the call of
    the caller's [requestFn] settles to. *)
Record QueuedUnit := {
  ticket : nat;
  requestFn : Completion V;
}.

Inductive Worker :=
| NoWorker                          (* no call of processQueue is in its loop *)
| AwaitingRequest (u : QueuedUnit)  (* suspended at [await request()] *)
| AwaitingDelay.                    (* suspended at the REQUEST_DELAY timeout *)

Inductive QueueEvent :=
| Started (t : nat)                      (* the unit's requestFn was called *)
| Settled (t : nat) (r : Completion V)   (* promise [t] resolved or rejected *)
| Delayed (ms : Z).                      (* a timeout of [ms] was started *)

Record Scheduler := {
  REQUEST_QUEUE : list QueuedUnit;
  isProcessingQueue : bool;
  worker : Worker;
  trace : list QueueEvent;
}.

Definition idle : Scheduler :=
  {| REQUEST_QUEUE := []; isProcessingQueue := false; worker := NoWorker;
     trace := [] |}.

(** The [while] loop of [processQueue] from its condition up to the next
    [await]: either the next unit is shifted off the queue and started, or
    the loop ends and the flag is reset. *)
Definition loop_head (s : Scheduler) : Scheduler :=
  match REQUEST_QUEUE s with
  | request :: rest =>
      {| REQUEST_QUEUE := rest; isProcessingQueue := isProcessingQueue s;
         worker := AwaitingRequest request;
         trace := trace s ++ [Started (ticket request)] |}
  | [] =>
      {| REQUEST_QUEUE := []; isProcessingQueue := false; worker := NoWorker;
         trace := trace s |}
  end.

(** [processQueue()] up to its first [await]. *)
Definition processQueue (s : Scheduler) : Scheduler :=
  if isProcessingQueue s || bool_decide (REQUEST_QUEUE s = []) then s
  else
    loop_head {| REQUEST_QUEUE := REQUEST_QUEUE s; isProcessingQueue := true;
                 worker := worker s; trace := trace s |}.

(** [queueRequest(requestFn)]: push the unit, call [processQueue]. *)
Definition queueRequest (u : QueuedUnit) (s : Scheduler) : Scheduler :=
  processQueue
    {| REQUEST_QUEUE := REQUEST_QUEUE s ++ [u];
       isProcessingQueue := isProcessingQueue s;
       worker := worker s; trace := trace s |}.

(** The [await] the worker is suspended at completes. At [await request()]
    the unit's [try]/[catch] has passed the outcome of [requestFn] to the
    caller's [resolve] or [reject], the unit itself has completed normally,
    and the worker starts the timeout; when the timeout fires the worker is
    back at the loop condition. *)
Definition resume (s : Scheduler) : Scheduler :=
  match worker s with
  | NoWorker => s
  | AwaitingRequest u =>
      {| REQUEST_QUEUE := REQUEST_QUEUE s; isProcessingQueue := isProcessingQueue s;
         worker := AwaitingDelay;
         trace := trace s ++ [Settled (ticket u) (requestFn u); Delayed REQUEST_DELAY] |}
  | AwaitingDelay => loop_head s
  end.

(** What happens next: a caller enqueues a unit, or the worker resumes. *)
Inductive Input :=
| Enqueue (u : QueuedUnit)
| Resume.

Definition step (s : Scheduler) (i : Input) : Scheduler :=
  match i with
  | Enqueue u => queueRequest u s
  | Resume => resume s
  end.

Definition run (inputs : list Input) (s : Scheduler) : Scheduler :=
  foldl step s inputs.

(** The units a run enqueues, in order. *)
Definition enqueued (inputs : list Input) : list QueuedUnit :=
  omap (fun i => match i with Enqueue u => Some u | Resume => None end) inputs.

(** What the worker does for one unit: start it, deliver its outcome to its
    own promise, wait. *)
Definition service (u : QueuedUnit) : list QueueEvent :=
  [Started (ticket u); Settled (ticket u) (requestFn u); Delayed REQUEST_DELAY].

(** The promises settled so far, with the outcome each was settled with. *)
Definition settlements (tr : list QueueEvent) : list (nat * Completion V) :=
  omap (fun e => match e with Settled t r => Some (t, r) | _ => None end) tr.


(** How many more resumptions the worker needs to drain the queue. *)
Definition remaining (s : Scheduler) : nat :=
  match worker s with
  | NoWorker => 0
  | AwaitingRequest _ => 2 + 2 * length (REQUEST_QUEUE s)
  | AwaitingDelay => 1 + 2 * length (REQUEST_QUEUE s)
  end.

(** The state of the scheduler after the units [all] were enqueued, of which
    [served] have been served completely. *)
Definition consistent (all served : list QueuedUnit) (s : Scheduler) : Prop :=
  match worker s with
  | NoWorker =>
      all = served ∧ REQUEST_QUEUE s = [] ∧ isProcessingQueue s = false
      ∧ trace s = flat_map service served
  | AwaitingRequest u =>
      all = served ++ u :: REQUEST_QUEUE s ∧ isProcessingQueue s = true
      ∧ trace s = flat_map service served ++ [Started (ticket u)]
  | AwaitingDelay =>
      served ≠ [] ∧ all = served ++ REQUEST_QUEUE s ∧ isProcessingQueue s = true
      ∧ trace s = flat_map service served
  end.

End RequestQueue.
Arguments QueuedUnit V : clear implicits.
Arguments Scheduler V : clear implicits.
Arguments Input V : clear implicits.
Arguments QueueEvent V : clear implicits.
Arguments Worker V : clear implicits.

(** *** Batch fetch helper *)

Section BatchFetch.
Context {TItem TResult : Type} `{Countable TItem}.

(** What the outside sees of a run of [batchFetch]: a batch handed to
    [Promise.all] (its calls of [fetchFn] are all started before any of them
    is awaited), and a timeout between batches. *)
Inductive BatchEvent :=
| BatchStarted (batch : list TItem)
| BatchDelayed (ms : Z).

(** [items.slice(i, j)] for [0 <= i <= j] *)
Definition slice (i j : nat) (items : list TItem) : list TItem :=
  take (j - i) (drop i items).

(** The [try]/[catch] around one item: the pair [[item, result]], or [null]. *)
Definition fetch_item (fetchFn : TItem -> Completion TResult) (item : TItem)
  : option (TItem * TResult) :=
  match fetchFn item with
  | Return result => Some (item, result)
  | Throw _ => None
  end.

(** [batchResults.forEach(result => { if (result) results.set(...) })] *)
Definition collect (results : gmap TItem TResult)
  (batchResults : list (option (TItem * TResult))) : gmap TItem TResult :=
  foldl (fun acc result =>
           match result with
           | Some (item, r) => <[item:=r]> acc
           | None => acc
           end) results batchResults.

(** The [for] loop of [batchFetch] from index [i]; [fuel] bounds the number
    of iterations ([None]: the bound was reached). *)
Fixpoint batchFetch_loop (fuel : nat) (items : list TItem)
  (fetchFn : TItem -> Completion TResult) (batchSize : nat) (i : nat)
  (results : gmap TItem TResult) (events : list BatchEvent)
  : option (gmap TItem TResult * list BatchEvent) :=
  match fuel with
  | O => None
  | S fuel' =>
      if bool_decide (i < length items)%nat then
        let batch := slice i (i + batchSize) items in
        let batchResults := map (fetch_item fetchFn) batch in
        let results' := collect results batchResults in
        let events' := events ++ [BatchStarted batch] in
        let events'' :=
          if bool_decide (i + batchSize < length items)%nat
          then events' ++ [BatchDelayed BATCH_DELAY] else events' in
        batchFetch_loop fuel' items fetchFn batchSize (i + batchSize)
          results' events''
      else Some (results, events)
  end.

(** [batchFetch(items, fetchFn, batchSize)]: the result map and what was
    observed. A positive [batchSize] needs at most [length items] iterations;
    with [batchSize = 0] and a non-empty list the loop of the source never
    ends, and the bound is reached. *)
Definition batchFetch (items : list TItem) (fetchFn : TItem -> Completion TResult)
  (batchSize : nat) : option (gmap TItem TResult * list BatchEvent) :=
  batchFetch_loop (S (length items)) items fetchFn batchSize 0 ∅ [].

(** The batches of a run, in order. *)
Definition batches (events : list BatchEvent) : list (list TItem) :=
  omap (fun e => match e with BatchStarted b => Some b | BatchDelayed _ => None end)
       events.

(** Batches with the inter-batch delay between them and none after the last. *)
Fixpoint delay_between (groups : list (list TItem)) : list BatchEvent :=
  match groups with
  | [] => []
  | [g] => [BatchStarted g]
  | g :: rest => BatchStarted g :: BatchDelayed BATCH_DELAY :: delay_between rest
  end.

(** Consecutive groups of [batchSize]: every group but the last has exactly
    [batchSize] items, the last has between one and [batchSize]. *)
Fixpoint well_grouped (batchSize : nat) (groups : list (list TItem)) : Prop :=
  match groups with
  | [] => True
  | [g] => (0 < length g ≤ batchSize)%nat
  | g :: rest => length g = batchSize ∧ well_grouped batchSize rest
  end.

End BatchFetch.
Arguments BatchEvent TItem : clear implicits.

(** Twelve items of which the seventh fails. *)
Definition twelve : list nat := seq 1 12.

Definition seventh_fails (item : nat) : Completion nat :=
  if bool_decide (item = 7%nat) then Throw "Error" else Return (10 * item)%nat.

(** ** A reference runtime

    A concrete [Runtime] to run the model on. Stored texts are looked up in a
    table of known documents ([JSON.parse] throws on any other text), an
    entry is written as a text naming its timestamp, and dates are
    read in the ISO date-only form [YYYY-MM-DD] in a UTC time zone; any other
    string is an Invalid Date, whose [getFullYear()] is [NaN]. *)

Definition digit (c : ascii) : option Z :=
  let n := Z.of_nat (nat_of_ascii c) in
  if (48 <=? n) && (n <=? 57) then Some (n - 48) else None.

Definition two_digits (a b : ascii) : option Z :=
  x ← digit a; y ← digit b; Some (10 * x + y).

Definition iso_getFullYear (s : string) : JSNumber :=
  match list_ascii_of_string s with
  | [y1; y2; y3; y4; dash1; m1; m2; dash2; d1; d2] =>
      match two_digits y1 y2, two_digits y3 y4, two_digits m1 m2, two_digits d1 d2 with
      | Some hi, Some lo, Some m, Some d =>
          if bool_decide (dash1 = "-"%char) && bool_decide (dash2 = "-"%char)
             && (1 <=? m) && (m <=? 12) && (1 <=? d) && (d <=? 31)
          then Num (100 * hi + lo) else NaN
      | _, _, _, _ => NaN
      end
  | _ => NaN
  end.

Definition table_parse (table : list (string * ParseOutcome)) (text : string)
  : ParseOutcome :=
  match List.find (fun row => bool_decide (fst row = text)) table with
  | Some row => snd row
  | None => ParseThrows
  end.

Definition reference_runtime (table : list (string * ParseOutcome)) : Runtime :=
  {| JSON_parse := table_parse table;
     JSON_stringify := fun e => "entry@" +:+ pretty (timestamp e);
     Date_getFullYear := iso_getFullYear |}.

(** *** Sample data *)

Definition sample_movie (id : Z) (title release_date : string) : TMDBMovie.t :=
  {| TMDBMovie.id := id; TMDBMovie.title := title;
     TMDBMovie.original_title := title; TMDBMovie.overview := "";
     TMDBMovie.poster_path := None; TMDBMovie.backdrop_path := None;
     TMDBMovie.release_date := release_date; TMDBMovie.genre_ids := [28; 878];
     TMDBMovie.vote_average := 7 # 1; TMDBMovie.vote_count := 100;
     TMDBMovie.popularity := 1 # 1; TMDBMovie.adult := false;
     TMDBMovie.original_language := "en"; TMDBMovie.video := false |}.

Definition sample_genres : gmap Z string :=
  {[ 28 := "Action"; 878 := "Sci-Fi" ]}.

Definition sample_page (movies : list TMDBMovie.t) : Reply TMDBMovieResponse.t :=
  {| elapsed := 40;
     outcome := Ok {| TMDBMovieResponse.page := 1;
                      TMDBMovieResponse.results := movies;
                      TMDBMovieResponse.total_pages := 3;
                      TMDBMovieResponse.total_results := 55 |} |}.

Definition sample_details (tagline : string) (runtime : option Z)
  (genres : option (list TMDBGenre.t)) : TMDBMovieDetails.t :=
  {| TMDBMovieDetails.base := sample_movie 1 "Aliens" "1986-07-18";
     TMDBMovieDetails.tagline := tagline;
     TMDBMovieDetails.runtime := runtime;
     TMDBMovieDetails.genres := genres;
     TMDBMovieDetails.status := "Released";
     TMDBMovieDetails.budget := 0; TMDBMovieDetails.revenue := 0;
     TMDBMovieDetails.imdb_id := None |}.

Definition sample_details_reply (d : TMDBMovieDetails.t)
  (rd : option Wire.ReleaseDates) : Reply TMDBMovieDetailsWithReleaseDates.t :=
  {| elapsed := 40;
     outcome := Ok {| TMDBMovieDetailsWithReleaseDates.details := d;
                      TMDBMovieDetailsWithReleaseDates.release_dates := rd |} |}.

(** A world with empty caches at time [t]. *)
Definition cold (ls : Storage) (t : Z) : World :=
  {| memoryCache := ∅; localStorage := ls; now := t; log := [] |}.

(** A US entry whose [release_dates] property is missing. *)
Definition us_without_dates : option Wire.ReleaseDates :=
  Some {| Wire.results :=
            Some [Some {| Wire.iso_3166_1 := Some "US";
                          Wire.release_dates := None |}] |}.

(** An application movie as [fetchMoviesBasic] produces it, with the given
    tagline, rating and runtime. *)
Definition sample_view (tagline rating runtime : string) : Movie.t :=
  {| Movie.id := 1; Movie.title := "Aliens"; Movie.year := Num 1986;
     Movie.genre := ["Action"; "Sci-Fi"]; Movie.tagline := tagline;
     Movie.rating := rating; Movie.runtime := runtime;
     Movie.available := true; Movie.poster := "/aliens.jpg";
     Movie.backdrop := None; Movie.tmdbRating := Some (79 # 10);
     Movie.overview := Some "" |}.

(** A details entry written at time 0, the text it is stored as, and a
    world one millisecond past its expiry that holds it in both tiers next to
    an unrelated key. *)
Definition details_key : string := getCacheKey "movie_details" (pretty 1).

Definition old_entry : CacheEntry :=
  {| data := PDetails {| CachedMovieDetails.details :=
                           sample_details "This time it's war." (Some 137) None;
                         CachedMovieDetails.certification := "R" |};
     timestamp := 0 |}.

Definition old_runtime : Runtime :=
  reference_runtime [("entry@0", ParsedEntry old_entry)].

Definition stale_world : World :=
  {| memoryCache := {[ details_key := old_entry ]};
     localStorage := Available {[ details_key := "entry@0"; "theme" := "dark" ]} false;
     now := CACHE_TTL + 1;
     log := [] |}.

(** A world whose persistent tier holds a text that is not JSON. *)
Definition corrupt_world : World :=
  cold (Available {[ details_key := "{oops" ]} false) 5.

(** The details of one movie as the provider sends them, with the given
    release-dates sub-resource. *)
Definition aliens_details : TMDBMovieDetails.t :=
  sample_details "This time it's war." (Some 137) None.

Definition aliens_reply (rd : option Wire.ReleaseDates)
  : Reply TMDBMovieDetailsWithReleaseDates.t :=
  sample_details_reply aliens_details rd.

Definition aliens_cached (certification : string) : CachedMovieDetails.t :=
  {| CachedMovieDetails.details := aliens_details;
     CachedMovieDetails.certification := certification |}.

(** One page of the catalog. *)
Definition one_movie_page : Reply TMDBMovieResponse.t :=
  sample_page [sample_movie 1 "Aliens" "1986-07-18"].

(** A world that holds an unexpired page under the key of page 1 in both
    tiers, next to an unrelated key. *)
Definition page_entry : CacheEntry :=
  {| data := basic_page (H := reference_runtime []) sample_genres (fun _ => 1 # 2)
               {| TMDBMovieResponse.page := 1;
                  TMDBMovieResponse.results := [sample_movie 1 "Aliens" "1986-07-18"];
                  TMDBMovieResponse.total_pages := 3;
                  TMDBMovieResponse.total_results := 55 |};
     timestamp := 0 |}.

Definition page_runtime : Runtime :=
  reference_runtime [("entry@0", ParsedEntry page_entry)].

Definition warm_world : World :=
  {| memoryCache := {[ discover_key 1 None := page_entry ]};
     localStorage :=
       Available {[ discover_key 1 None := "entry@0"; "theme" := "dark" ]} false;
     now := 1000;
     log := [] |}.

(** Three units, the second of which rejects; the third is enqueued after
    the worker has resumed once. *)
Definition three_units : list (Input string) :=
  [Enqueue {| ticket := 1; requestFn := Return "one" |};
   Enqueue {| ticket := 2; requestFn := Throw "TMDB API error: 500 " |};
   Resume;
   Enqueue {| ticket := 3; requestFn := Return "three" |}].

(** The movies of a cached page. *)
Definition page_movies (p : Payload) : list Movie.t :=
  match p with
  | PPage page => Page.movies page
  | _ => []
  end.

(** ** Search, prefetching and the legacy getters *)

(** [year >= 1980 && year <= 1989]; both comparisons are false on [NaN]. *)
Definition in_eighties (year : JSNumber) : bool :=
  match year with
  | Num y => (1980 <=? y) && (y <=? 1989)
  | NaN => false
  end.

(** The request parameters [searchMovies] builds. *)
Definition search_params (query : string) (page : Z) : list (string * string) :=
  [("query", query);
   ("page", pretty page);
   ("include_adult", "false");
   ("language", "en-US");
   ("primary_release_year", "")].

(** ** Calls that are not awaited

    [prefetchMovieDetails] and [prefetchNextPage] call an [async] function
    and return without awaiting its promise. Such a call runs the function
    up to its first [await], at which its request has been sent; what
    follows the [await] runs when the request is answered, in the world as
    it is then. *)

(** An [async] function at the moment its caller holds the promise: it has
    returned or thrown without waiting, or it waits for the answer to the
    request it sent. *)
Inductive CallState (A : Type) :=
| Done (c : Completion A)
| Waiting.
Arguments Done {A} c.
Arguments Waiting {A}.

(** [fetchTMDB] from the answer on: the test of [response.ok] and the body. *)
Definition answered {T} (reply : Reply T) : M T :=
  fun w =>
    match outcome reply with
    | Ok body => (Return body, w)
    | HttpError status statusText =>
        (Throw ("TMDB API error: " +:+ pretty status +:+ " " +:+ statusText), w)
    | NetworkFailure => (Throw "TypeError: Failed to fetch", w)
    end.

(** The page request that [prefetchNextPage] has left in flight, with the
    arguments of the call that waits for it. *)
Inductive PendingPage :=
| PendingSearch (query : string) (page : Z) (genreMap : gmap Z string)
| PendingDiscover (page : Z) (genreId : option Z) (genreMap : gmap Z string).

Section Search.
Context `{Runtime}.

(** [searchMovies(query, page)]: the provider's page with its results
    filtered down to the 1980s; the page numbers and totals of the response
    are left as received. *)
Definition searchMovies (query : string) (page : Z)
  (reply : Reply TMDBMovieResponse.t) : M TMDBMovieResponse.t :=
  response <- fetchTMDB "/search/movie" (search_params query page) reply ;;
  ret {| TMDBMovieResponse.page := TMDBMovieResponse.page response;
         TMDBMovieResponse.results :=
           List.filter
             (fun movie =>
                in_eighties (Date_getFullYear (TMDBMovie.release_date movie)))
             (TMDBMovieResponse.results response);
         TMDBMovieResponse.total_pages := TMDBMovieResponse.total_pages response;
         TMDBMovieResponse.total_results :=
           TMDBMovieResponse.total_results response |}.

(** [getCacheKey('search_page', `${query}_${page}`)] *)
Definition search_key (query : string) (page : Z) : string :=
  getCacheKey "search_page" (query +:+ "_" +:+ pretty page).

(** [searchMoviesBasic] past its cache check. *)
Definition searchMoviesBasic_miss (query : string) (page : Z)
  (genreMap : gmap Z string) (reply : Reply TMDBMovieResponse.t) (random : nat -> Q)
  : M Payload :=
  response <- searchMovies query page reply ;;
  fun w =>
    match TMDBMovieResponse.results response with
    | [] =>
        (Return (PPage {| Page.movies := []; Page.totalPages := 0;
                          Page.totalResults := 0 |}), w)
    | _ :: _ =>
        let result := basic_page genreMap random response in
        (Return result, saveToCache (search_key query page) result w)
    end.

(** [searchMoviesBasic(query, page, genreMap)] *)
Definition searchMoviesBasic (query : string) (page : Z) (genreMap : gmap Z string)
  (reply : Reply TMDBMovieResponse.t) (random : nat -> Q) : M Payload :=
  fun w =>
    match getFromCache (search_key query page) w with
    | (Some cached, w1) =>
        if payload_truthy cached then (Return cached, w1)
        else searchMoviesBasic_miss query page genreMap reply random w1
    | (None, w1) => searchMoviesBasic_miss query page genreMap reply random w1
    end.

(** [getMovieDetailsWithCertification] up to its [await]: the cache check
    and, on a miss, the call of [fetchTMDBQueued], by which the unit is
    admitted to the queue and (the queue being at rest, as in
    [fetchTMDBQueued]) its request is sent. *)
Definition getMovieDetailsWithCertification_start (movieId : Z) (w : World)
  : CallState Payload * World :=
  let request w1 :=
    emit (EvFetch ("/movie/" +:+ pretty movieId)
            [("append_to_response", "release_dates"); ("language", "en-US")])
      (emit EvQueue w1) in
  match getFromCache (getCacheKey "movie_details" (pretty movieId)) w with
  | (Some cached, w1) =>
      if payload_truthy cached then (Done (Return cached), w1)
      else (Waiting, request w1)
  | (None, w1) => (Waiting, request w1)
  end.

(** [getMovieDetailsWithCertification] from the answer on, in the world of
    that moment: the extraction of the certification and the caching of the
    result. *)
Definition getMovieDetailsWithCertification_resume (movieId : Z)
  (reply : Reply TMDBMovieDetailsWithReleaseDates.t) : M Payload :=
  response <- answered reply ;;
  fun w =>
    match extractUSCertification
            (TMDBMovieDetailsWithReleaseDates.release_dates response) with
    | Throw e => (Throw e, w)
    | Return certification =>
        let result :=
          PDetails {| CachedMovieDetails.details :=
                        TMDBMovieDetailsWithReleaseDates.details response;
                      CachedMovieDetails.certification := certification |} in
        (Return result,
         saveToCache (getCacheKey "movie_details" (pretty movieId)) result w)
    end.

(** [fetchMoviesBasic] up to its [await]: the cache check and, on a miss,
    the call of [discoverMovies], which sends its request. *)
Definition fetchMoviesBasic_start (page : Z) (genreId : option Z) (w : World)
  : CallState Payload * World :=
  let request w1 :=
    emit (EvFetch "/discover/movie" (discover_params page genreId "popularity.desc"))
      w1 in
  match getFromCache (discover_key page genreId) w with
  | (Some cached, w1) =>
      if payload_truthy cached then (Done (Return cached), w1)
      else (Waiting, request w1)
  | (None, w1) => (Waiting, request w1)
  end.

(** [fetchMoviesBasic] from the answer on. *)
Definition fetchMoviesBasic_resume (page : Z) (genreId : option Z)
  (genreMap : gmap Z string) (reply : Reply TMDBMovieResponse.t) (random : nat -> Q)
  : M Payload :=
  response <- answered reply ;;
  fun w =>
    match TMDBMovieResponse.results response with
    | [] =>
        (Return (PPage {| Page.movies := []; Page.totalPages := 0;
                          Page.totalResults := 0 |}), w)
    | _ :: _ =>
        let result := basic_page genreMap random response in
        (Return result, saveToCache (discover_key page genreId) result w)
    end.

(** [searchMoviesBasic] up to its [await]: the cache check and, on a miss,
    the call of [searchMovies], which sends its request. *)
Definition searchMoviesBasic_start (query : string) (page : Z) (w : World)
  : CallState Payload * World :=
  let request w1 := emit (EvFetch "/search/movie" (search_params query page)) w1 in
  match getFromCache (search_key query page) w with
  | (Some cached, w1) =>
      if payload_truthy cached then (Done (Return cached), w1)
      else (Waiting, request w1)
  | (None, w1) => (Waiting, request w1)
  end.

(** [searchMoviesBasic] from the answer on: the rest of [searchMovies] (its
    filter) and of [searchMoviesBasic]. *)
Definition searchMoviesBasic_resume (query : string) (page : Z)
  (genreMap : gmap Z string) (reply : Reply TMDBMovieResponse.t) (random : nat -> Q)
  : M Payload :=
  body <- answered reply ;;
  let response :=
    {| TMDBMovieResponse.page := TMDBMovieResponse.page body;
       TMDBMovieResponse.results :=
         List.filter
           (fun movie =>
              in_eighties (Date_getFullYear (TMDBMovie.release_date movie)))
           (TMDBMovieResponse.results body);
       TMDBMovieResponse.total_pages := TMDBMovieResponse.total_pages body;
       TMDBMovieResponse.total_results := TMDBMovieResponse.total_results body |} in
  fun w =>
    match TMDBMovieResponse.results response with
    | [] =>
        (Return (PPage {| Page.movies := []; Page.totalPages := 0;
                          Page.totalResults := 0 |}), w)
    | _ :: _ =>
        let result := basic_page genreMap random response in
        (Return result, saveToCache (search_key query page) result w)
    end.

(** [prefetchMovieDetails(movieId)] up to its return; it returns nothing and
    cannot throw. After its own cache check it calls
    [getMovieDetailsWithCertification] and gives the promise an empty
    rejection handler, without awaiting it. The boolean says whether a
    details request is left in flight. *)
Definition prefetchMovieDetails (movieId : Z) (w : World) : bool * World :=
  match getFromCache (getCacheKey "movie_details" (pretty movieId)) w with
  | (cached, w1) =>
      if cache_hit cached then (false, w1)
      else
        match getMovieDetailsWithCertification_start movieId w1 with
        | (Done _, w2) => (false, w2)
        | (Waiting, w2) => (true, w2)
        end
  end.

(** What the request left in flight by [prefetchMovieDetails] leads to when
    it is answered, in the world [w] of that moment: the rest of
    [getMovieDetailsWithCertification], a rejection being swallowed. *)
Definition prefetchMovieDetails_answered (movieId : Z)
  (reply : Reply TMDBMovieDetailsWithReleaseDates.t) (w : World) : World :=
  snd (getMovieDetailsWithCertification_resume movieId reply w).

(** [getMovieDetails(movieId)] (legacy): the [details] property of what
    [getMovieDetailsWithCertification] resolved to; [None] is [undefined],
    which is what destructuring a value of another shape gives. *)
Definition getMovieDetails (movieId : Z)
  (reply : Reply TMDBMovieDetailsWithReleaseDates.t)
  : M (option TMDBMovieDetails.t) :=
  p <- getMovieDetailsWithCertification movieId reply ;;
  ret match p with
      | PDetails d => Some (CachedMovieDetails.details d)
      | _ => None
      end.

(** [getMovieCertification(movieId)] (legacy): the [certification] property
    of the resolved value, and 'NR' when the fetch rejects. *)
Definition getMovieCertification (movieId : Z)
  (reply : Reply TMDBMovieDetailsWithReleaseDates.t) (w : World)
  : option string * World :=
  match getMovieDetailsWithCertification movieId reply w with
  | (Return (PDetails d), w') => (Some (CachedMovieDetails.certification d), w')
  | (Return _, w') => (None, w')
  | (Throw _, w') => (Some "NR", w')
  end.

(** [prefetchNextPage(currentPage, totalPages, genreId, searchQuery, genreMap)]
    up to its return: nothing on the last page, otherwise the call of the
    basic fetch of the next page, whose promise is given an empty rejection
    handler and not awaited. Returned is the request left in flight, if
    any. *)
Definition prefetchNextPage (currentPage totalPages : Z) (genreId : option Z)
  (searchQuery : option string) (genreMap : gmap Z string) (w : World)
  : option PendingPage * World :=
  if totalPages <=? currentPage then (None, w)
  else
    let nextPage := currentPage + 1 in
    let search q :=
      match searchMoviesBasic_start q nextPage w with
      | (Done _, w1) => (None, w1)
      | (Waiting, w1) => (Some (PendingSearch q nextPage genreMap), w1)
      end in
    let discover :=
      match fetchMoviesBasic_start nextPage genreId w with
      | (Done _, w1) => (None, w1)
      | (Waiting, w1) => (Some (PendingDiscover nextPage genreId genreMap), w1)
      end in
    match searchQuery with
    | Some q => if truthy q then search q else discover
    | None => discover
    end.

(** What the request left in flight by [prefetchNextPage] leads to when it
    is answered, in the world [w] of that moment: the rest of the basic
    fetch, a rejection being swallowed. *)
Definition prefetchNextPage_answered (pending : PendingPage)
  (reply : Reply TMDBMovieResponse.t) (random : nat -> Q) (w : World) : World :=
  match pending with
  | PendingSearch query page genreMap =>
      snd (searchMoviesBasic_resume query page genreMap reply random w)
  | PendingDiscover page genreId genreMap =>
      snd (fetchMoviesBasic_resume page genreId genreMap reply random w)
  end.

End Search.

(** ** Auxiliary notions for the properties of the cache *)

(** A page reload: the in-memory map of the module starts empty again, the
    browser's [localStorage] is what the last session left. *)
Definition new_session (w : World) : World :=
  {| memoryCache := ∅; localStorage := localStorage w; now := now w; log := [] |}.

(** Every character of the string satisfies [P]. *)
Fixpoint all_chars (P : ascii -> bool) (s : string) : bool :=
  match s with
  | EmptyString => true
  | String c rest => P c && all_chars P rest
  end.

(** The characters a printed integer is made of. *)
Definition numeric_char (c : ascii) : bool :=
  bool_decide (c = "-"%char) || bool_decide (is_Some (digit c)).

(** A search answer with one result from the 1980s, one from 1979 and one
    with a release date that is not a date; and one without any result from
    the 1980s although the provider reports three pages. *)
Definition aliens_1986 : TMDBMovie.t := sample_movie 1 "Aliens" "1986-07-18".
Definition alien_1979 : TMDBMovie.t := sample_movie 2 "Alien" "1979-05-25".
Definition undated : TMDBMovie.t := sample_movie 3 "Untitled" "TBA".

Definition mixed_search : Reply TMDBMovieResponse.t :=
  sample_page [alien_1979; aliens_1986; undated].

Definition seventies_search : Reply TMDBMovieResponse.t :=
  sample_page [alien_1979].

(** The response carried by [sample_page]. *)
Definition sample_response (movies : list TMDBMovie.t) : TMDBMovieResponse.t :=
  {| TMDBMovieResponse.page := 1; TMDBMovieResponse.results := movies;
     TMDBMovieResponse.total_pages := 3; TMDBMovieResponse.total_results := 55 |}.

(** ** Failing exchanges *)

(** The provider did not answer a request with a 2xx response. *)
Definition request_failed {T} (reply : Reply T) : bool :=
  match outcome reply with
  | Ok _ => false
  | HttpError _ _ | NetworkFailure => true
  end.

(** The details fetch of [getMovieDetailsWithCertification] rejects: the
    request failed, or the certification could not be extracted from the
    release dates of the response. *)
Definition details_fetch_fails (reply : Reply TMDBMovieDetailsWithReleaseDates.t)
  : bool :=
  match outcome reply with
  | Ok response =>
      match extractUSCertification
              (TMDBMovieDetailsWithReleaseDates.release_dates response) with
      | Return _ => false
      | Throw _ => true
      end
  | HttpError _ _ | NetworkFailure => true
  end.

(** The two tiers of the cache hold the same in both worlds. *)
Definition same_caches (w w' : World) : Prop :=
  memoryCache w = memoryCache w' ∧ localStorage w = localStorage w'.

(** The record [getMovieDetailsWithCertification] builds from a response and
    the certification extracted from it. *)
Definition details_of (response : TMDBMovieDetailsWithReleaseDates.t)
  (certification : string) : CachedMovieDetails.t :=
  {| CachedMovieDetails.details := TMDBMovieDetailsWithReleaseDates.details response;
     CachedMovieDetails.certification := certification |}.

(** A details answer whose release dates are malformed. *)
Definition malformed_reply : Reply TMDBMovieDetailsWithReleaseDates.t :=
  aliens_reply us_without_dates.

(** A page answer with a non-success status. *)
Definition server_error : Reply TMDBMovieResponse.t :=
  {| elapsed := 40; outcome := HttpError 500 "Internal Server Error" |}.

(** ** Auxiliary notions for the scheduler and the batch helper *)

(** The tickets of the units started so far, in the order of their start. *)
Definition started {V} (tr : list (QueueEvent V)) : list nat :=
  omap (fun e => match e with Started t => Some t | _ => None end) tr.

(** The number of units between their start and their settlement. *)
Definition in_flight {V} (s : Scheduler V) : nat :=
  match worker s with
  | AwaitingRequest _ => 1
  | _ => 0
  end.

(** The timeouts of a run of [batchFetch], in order. *)
Definition delays {TItem} (events : list (BatchEvent TItem)) : list Z :=
  omap (fun e => match e with BatchDelayed ms => Some ms | BatchStarted _ => None end)
       events.

(** ** Genre tables ([src/types/movie.ts]) *)

(** [TMDB_GENRE_MAP] *)
Definition TMDB_GENRE_MAP : gmap Z string :=
  list_to_map
    [(28, "Action"); (12, "Adventure"); (16, "Animation"); (35, "Comedy");
     (80, "Crime"); (99, "Documentary"); (18, "Drama"); (10751, "Family");
     (14, "Fantasy"); (36, "History"); (27, "Horror"); (10402, "Music");
     (9648, "Mystery"); (10749, "Romance"); (878, "Sci-Fi"); (10770, "TV Movie");
     (53, "Thriller"); (10752, "War"); (37, "Western")].

(** [Object.entries(m)] of an object with non-negative integer keys: the
    entries in ascending order of the keys. *)
Definition key_le (a b : Z * string) : Prop := fst a ≤ fst b.

Definition key_le_dec (a b : Z * string) : Decision (key_le a b) :=
  decide (fst a ≤ fst b).

Definition Object_entries (m : gmap Z string) : list (Z * string) :=
  @merge_sort _ key_le key_le_dec (map_to_list m).

(** [Object.fromEntries(entries)]: a later entry replaces an earlier one
    with the same key. *)
Definition Object_fromEntries (entries : list (string * Z)) : gmap string Z :=
  foldl (fun m e => <[fst e:=snd e]> m) ∅ entries.

(** [Object.fromEntries(Object.entries(m).map(([id, name]) => [name, parseInt(id)]))];
    the key of an entry is the decimal text of the id, which [parseInt] reads
    back. *)
Definition reverse_genre_map (m : gmap Z string) : gmap string Z :=
  Object_fromEntries (map (fun e => (snd e, fst e)) (Object_entries m)).

(** [GENRE_TO_TMDB_ID] *)
Definition GENRE_TO_TMDB_ID : gmap string Z := reverse_genre_map TMDB_GENRE_MAP.

(** ** Image URLs *)

(** The named sizes of [IMAGE_SIZES]. *)
Inductive ImageSize := small | medium | large | original.

Module IMAGE_SIZES.
Definition poster (size : ImageSize) : string :=
  match size with
  | small => "w185"
  | medium => "w342"
  | large => "w500"
  | original => "original"
  end.
Definition backdrop (size : ImageSize) : string :=
  match size with
  | small => "w300"
  | medium => "w780"
  | large => "w1280"
  | original => "original"
  end.
End IMAGE_SIZES.

(** [getPosterUrl(posterPath, size)] of the service; [IMAGE_BASE] is the
    configured [config.tmdb.imageBase]. *)
Definition getPosterUrl (IMAGE_BASE : string) (posterPath : option string)
  (size : ImageSize) : string :=
  match posterPath with
  | Some path =>
      if truthy path then IMAGE_BASE +:+ "/" +:+ IMAGE_SIZES.poster size +:+ path
      else ""
  | None => ""
  end.

(** [getBackdropUrl(backdropPath, size)] of the service. *)
Definition getBackdropUrl (IMAGE_BASE : string) (backdropPath : option string)
  (size : ImageSize) : string :=
  match backdropPath with
  | Some path =>
      if truthy path then IMAGE_BASE +:+ "/" +:+ IMAGE_SIZES.backdrop size +:+ path
      else ""
  | None => ""
  end.

(** The helpers of [src/data/movies.ts], which take the application's
    [Movie] and a size token. *)
Module MovieData.

Definition TMDB_IMAGE_BASE : string := "https://image.tmdb.org/t/p".

(** Available genres for filtering. *)
Definition genres : list string :=
  ["All"; "Action"; "Adventure"; "Animation"; "Comedy"; "Drama"; "Family";
   "Fantasy"; "Horror"; "Mystery"; "Romance"; "Sci-Fi"].

(** [getPosterUrl(movie, size = 'w342')] *)
Definition getPosterUrl (movie : Movie.t) (size : string) : string :=
  if truthy (Movie.poster movie)
  then TMDB_IMAGE_BASE +:+ "/" +:+ size +:+ Movie.poster movie
  else "".

(** [getBackdropUrl(movie, size = 'w780')]; a missing [backdrop] is falsy. *)
Definition getBackdropUrl (movie : Movie.t) (size : string) : string :=
  match Movie.backdrop movie with
  | Some path =>
      if truthy path then TMDB_IMAGE_BASE +:+ "/" +:+ size +:+ path else ""
  | None => ""
  end.

(** [getPosterSrcSet(movie)] *)
Definition getPosterSrcSet (movie : Movie.t) : string :=
  if truthy (Movie.poster movie)
  then TMDB_IMAGE_BASE +:+ "/w185" +:+ Movie.poster movie +:+ " 185w, "
       +:+ TMDB_IMAGE_BASE +:+ "/w342" +:+ Movie.poster movie +:+ " 342w, "
       +:+ TMDB_IMAGE_BASE +:+ "/w500" +:+ Movie.poster movie +:+ " 500w"
  else "".

(** [getBackdropSrcSet(movie)] *)
Definition getBackdropSrcSet (movie : Movie.t) : string :=
  match Movie.backdrop movie with
  | Some path =>
      if truthy path
      then TMDB_IMAGE_BASE +:+ "/w300" +:+ path +:+ " 300w, "
           +:+ TMDB_IMAGE_BASE +:+ "/w780" +:+ path +:+ " 780w, "
           +:+ TMDB_IMAGE_BASE +:+ "/w1280" +:+ path +:+ " 1280w"
      else ""
  | None => ""
  end.

End MovieData.

(** ** The movies composable ([useMovies]) *)

Module UseMovies.

(** The reactive state of the composable. *)
Record State := {
  movies : list Movie.t;
  loading : bool;
  loadingMore : bool;
  loadingDetails : bool;
  error : option string;
  currentPage : Z;
  totalPages : Z;
  totalResults : Z;
  currentGenre : string;
  searchQuery : string;
}.

Definition initial : State :=
  {| movies := []; loading := false; loadingMore := false; loadingDetails := false;
     error := None; currentPage := 1; totalPages := 0; totalResults := 0;
     currentGenre := "All"; searchQuery := "" |}.

(** [hasMore] *)
Definition hasMore (s : State) : bool := currentPage s <? totalPages s.

(** [filteredMovies] *)
Definition filteredMovies (s : State) : list Movie.t :=
  if truthy (searchQuery s) && negb (bool_decide (currentGenre s = "All"))
  then List.filter (fun movie => bool_decide (currentGenre s ∈ Movie.genre movie))
         (movies s)
  else movies s.

(** [getCurrentGenreId()] *)
Definition getCurrentGenreId (s : State) : option Z :=
  if bool_decide (currentGenre s = "All") then None
  else GENRE_TO_TMDB_ID !! currentGenre s.

(** The service function [fetchMovies] awaits, with its arguments (the genre
    map passed is always [TMDB_GENRE_MAP]). *)
Inductive ServiceCall :=
| CallSearchMoviesBasic (query : string) (page : Z)
| CallFetchMoviesBasic (page : Z) (genreId : option Z).

(** The arguments of a call of [prefetchNextPage]. *)
Record PrefetchCall := {
  prefetch_currentPage : Z;
  prefetch_totalPages : Z;
  prefetch_genreId : option Z;
  prefetch_searchQuery : option string;
}.

Section WithTrim.
(** [String.prototype.trim] of the runtime. *)
Variable trim : string -> string.

(** [searchQuery.value.trim().length > 0] *)
Definition isSearch (s : State) : bool :=
  (0 <? String.length (trim (searchQuery s)))%nat.

Definition service_call (page : Z) (s : State) : ServiceCall :=
  if isSearch s then CallSearchMoviesBasic (searchQuery s) page
  else CallFetchMoviesBasic page (getCurrentGenreId s).

(** [fetchMovies(page, append)]. [outcome] is what the awaited service call
    settles to, a page object of its declared type or a rejection with an
    [Error] of the given message. Returned are the state after the call and
    the [prefetchNextPage] call it made, if any. *)
Definition fetchMovies (page : Z) (append : bool) (outcome : Completion Page.t)
  (s : State) : State * option PrefetchCall :=
  let search := isSearch s in
  let genreId := getCurrentGenreId s in
  (* set loading state *)
  let s1 :=
    if append then
      {| movies := movies s; loading := loading s; loadingMore := true;
         loadingDetails := loadingDetails s; error := error s;
         currentPage := currentPage s; totalPages := totalPages s;
         totalResults := totalResults s; currentGenre := currentGenre s;
         searchQuery := searchQuery s |}
    else
      {| movies := movies s; loading := true; loadingMore := loadingMore s;
         loadingDetails := loadingDetails s; error := None;
         currentPage := currentPage s; totalPages := totalPages s;
         totalResults := totalResults s; currentGenre := currentGenre s;
         searchQuery := searchQuery s |} in
  match outcome with
  | Return result =>
      (* try: update state; finally: reset the loading flags *)
      ({| movies := if append then movies s1 ++ Page.movies result
                    else Page.movies result;
          loading := false; loadingMore := false;
          loadingDetails := loadingDetails s1; error := error s1;
          currentPage := page; totalPages := Page.totalPages result;
          totalResults := Page.totalResults result;
          currentGenre := currentGenre s1; searchQuery := searchQuery s1 |},
       if page <? Page.totalPages result then
         Some {| prefetch_currentPage := page;
                 prefetch_totalPages := Page.totalPages result;
                 prefetch_genreId := genreId;
                 prefetch_searchQuery :=
                   if search then Some (searchQuery s) else None |}
       else None)
  | Throw message =>
      (* catch: record the message; finally: reset the loading flags *)
      ({| movies := movies s1; loading := false; loadingMore := false;
          loadingDetails := loadingDetails s1; error := Some message;
          currentPage := currentPage s1; totalPages := totalPages s1;
          totalResults := totalResults s1; currentGenre := currentGenre s1;
          searchQuery := searchQuery s1 |},
       None)
  end.

(** [loadMore()]: the service call it leads to (none when the guard
    returns), the state after it and the prefetch made. *)
Definition loadMore (outcome : Completion Page.t) (s : State)
  : option ServiceCall * State * option PrefetchCall :=
  if loadingMore s || negb (hasMore s) then (None, s, None)
  else
    let '(s', prefetch) := fetchMovies (currentPage s + 1) true outcome s in
    (Some (service_call (currentPage s + 1) s), s', prefetch).

(** [resetAndFetch()] *)
Definition resetAndFetch (outcome : Completion Page.t) (s : State)
  : State * option PrefetchCall :=
  fetchMovies 1 false outcome
    {| movies := []; loading := loading s; loadingMore := loadingMore s;
       loadingDetails := loadingDetails s; error := error s;
       currentPage := 1; totalPages := totalPages s;
       totalResults := totalResults s; currentGenre := currentGenre s;
       searchQuery := searchQuery s |}.

End WithTrim.

(** [movies.value[index] = enrichedMovie] at the first index whose movie has
    the id. *)
Fixpoint replace_first (movieId : Z) (enrichedMovie : Movie.t) (l : list Movie.t)
  : list Movie.t :=
  match l with
  | [] => []
  | m :: rest =>
      if Movie.id m =? movieId then enrichedMovie :: rest
      else m :: replace_first movieId enrichedMovie rest
  end.

Section WithService.
Context `{Runtime}.

(** [getMovieWithDetails(movieId)]: [None] is [null]. [reply] is the
    provider's answer should the enrichment reach it. The enrichment is
    called with its default (empty) genre map. *)
Definition getMovieWithDetails (movieId : Z)
  (reply : Reply TMDBMovieDetailsWithReleaseDates.t) (s : State) (w : World)
  : option Movie.t * State * World :=
  match List.find (fun m => Movie.id m =? movieId) (movies s) with
  | None => (None, s, w)
  | Some movie =>
      if truthy (Movie.runtime movie) then (Some movie, s, w)
      else
        let '(enrichedMovie, w') := enrichMovieWithDetails movie ∅ reply w in
        (Some enrichedMovie,
         {| movies := replace_first movieId enrichedMovie (movies s);
            loading := loading s; loadingMore := loadingMore s;
            loadingDetails := false; error := error s;
            currentPage := currentPage s; totalPages := totalPages s;
            totalResults := totalResults s; currentGenre := currentGenre s;
            searchQuery := searchQuery s |},
         w')
  end.

End WithService.

End UseMovies.

(** The composable's calls carried out on the service. *)
Section ComposableOnService.
Context `{Runtime}.

(** The service call [fetchMovies] awaits. *)
Definition perform (call : UseMovies.ServiceCall)
  (reply : Reply TMDBMovieResponse.t) (random : nat -> Q) : M Payload :=
  match call with
  | UseMovies.CallSearchMoviesBasic query page =>
      searchMoviesBasic query page TMDB_GENRE_MAP reply random
  | UseMovies.CallFetchMoviesBasic page genreId =>
      fetchMoviesBasic page genreId TMDB_GENRE_MAP reply random
  end.

(** The same call up to its [await], and from the answer on. *)
Definition perform_start (call : UseMovies.ServiceCall) (w : World)
  : CallState Payload * World :=
  match call with
  | UseMovies.CallSearchMoviesBasic query page => searchMoviesBasic_start query page w
  | UseMovies.CallFetchMoviesBasic page genreId => fetchMoviesBasic_start page genreId w
  end.

Definition perform_resume (call : UseMovies.ServiceCall)
  (reply : Reply TMDBMovieResponse.t) (random : nat -> Q) : M Payload :=
  match call with
  | UseMovies.CallSearchMoviesBasic query page =>
      searchMoviesBasic_resume query page TMDB_GENRE_MAP reply random
  | UseMovies.CallFetchMoviesBasic page genreId =>
      fetchMoviesBasic_resume page genreId TMDB_GENRE_MAP reply random
  end.

(** The call of [prefetchNextPage] that [fetchMovies] makes, up to its
    return. *)
Definition perform_prefetch (call : UseMovies.PrefetchCall) (w : World)
  : option PendingPage * World :=
  prefetchNextPage (UseMovies.prefetch_currentPage call)
    (UseMovies.prefetch_totalPages call) (UseMovies.prefetch_genreId call)
    (UseMovies.prefetch_searchQuery call) TMDB_GENRE_MAP w.

End ComposableOnService.

(** A trim that removes the spaces around a text. *)
Fixpoint trim_start (s : string) : string :=
  match s with
  | String " " rest => trim_start rest
  | _ => s
  end.

Definition space_trim (s : string) : string :=
  String.rev (trim_start (String.rev (trim_start s))).

(** A state of the composable with one page of a search loaded. *)
Definition searching : UseMovies.State :=
  {| UseMovies.movies := [sample_view "" "NR" ""];
     UseMovies.loading := false; UseMovies.loadingMore := false;
     UseMovies.loadingDetails := false; UseMovies.error := None;
     UseMovies.currentPage := 1; UseMovies.totalPages := 3;
     UseMovies.totalResults := 55; UseMovies.currentGenre := "Sci-Fi";
     UseMovies.searchQuery := "alien" |}.

Definition next_page : Page.t :=
  {| Page.movies := [sample_view "" "PG" ""]; Page.totalPages := 3;
     Page.totalResults := 55 |}.

(** ** The cart composable ([useCart]) *)

(** [CartReview] and [CartItem] of [types/member]. An absent [review]
    property is [None]. *)
Module CartReview.
Record t := {
  rating : JSNumber;
  text : string;
}.
End CartReview.

Module CartItem.
Record t := {
  movie : Movie.t;
  review : option CartReview.t;
}.
End CartItem.

Module UseCart.

(** The shared [items] array. *)
Definition Items := list CartItem.t.

(** [item => item.movie.id === movieId] *)
Definition has_id (movieId : Z) (item : CartItem.t) : bool :=
  Movie.id (CartItem.movie item) =? movieId.

(** [item.review && item.review.rating > 0]: a comparison with [NaN] is
    false. *)
Definition rated (review : option CartReview.t) : bool :=
  match review with
  | Some r =>
      match CartReview.rating r with
      | Num n => 0 <? n
      | NaN => false
      end
  | None => false
  end.

(** [add(movie, review?)]: the returned boolean and the array afterwards. *)
Definition add (movie : Movie.t) (review : option CartReview.t) (items : Items)
  : bool * Items :=
  match List.find (has_id (Movie.id movie)) items with
  | Some _ => (false, items)
  | None => (true, items ++ [{| CartItem.movie := movie; CartItem.review := review |}])
  end.

(** [remove(movieId)] *)
Definition remove (movieId : Z) (items : Items) : Items :=
  List.filter (fun item => negb (has_id movieId item)) items.

(** [updateReview(movieId, review)]: the first item found with the id gets
    the review. *)
Fixpoint updateReview (movieId : Z) (review : CartReview.t) (items : Items)
  : Items :=
  match items with
  | [] => []
  | item :: rest =>
      if has_id movieId item
      then {| CartItem.movie := CartItem.movie item;
              CartItem.review := Some review |} :: rest
      else item :: updateReview movieId review rest
  end.

(** [getReview(movieId)]: [None] is [undefined]. *)
Definition getReview (movieId : Z) (items : Items) : option CartReview.t :=
  match List.find (has_id movieId) items with
  | Some item => CartItem.review item
  | None => None
  end.

(** [hasReview(movieId)] *)
Definition hasReview (movieId : Z) (items : Items) : bool :=
  rated (getReview movieId items).

(** [clear()] *)
Definition clear (items : Items) : Items := [].

(** [isInCart(movieId)] *)
Definition isInCart (movieId : Z) (items : Items) : bool :=
  existsb (has_id movieId) items.

(** [count] *)
Definition count (items : Items) : nat := length items.

(** [reviewCount] *)
Definition reviewCount (items : Items) : nat :=
  length (List.filter (fun item => rated (CartItem.review item)) items).

(** [movies] *)
Definition movies (items : Items) : list Movie.t := map CartItem.movie items.

(** The calls that change the cart. *)
Inductive Call :=
| Add (movie : Movie.t) (review : option CartReview.t)
| Remove (movieId : Z)
| UpdateReview (movieId : Z) (review : CartReview.t)
| Clear.

Definition call (items : Items) (c : Call) : Items :=
  match c with
  | Add movie review => snd (add movie review items)
  | Remove movieId => remove movieId items
  | UpdateReview movieId review => updateReview movieId review items
  | Clear => clear items
  end.

(** A sequence of calls, in order. *)
Definition calls (cs : list Call) (items : Items) : Items := foldl call items cs.

(** The ids of the movies in the cart, in order. *)
Definition ids (items : Items) : list Z := map Movie.id (movies items).

End UseCart.

Definition five_stars : CartReview.t :=
  {| CartReview.rating := Num 5; CartReview.text := "A classic" |}.

Definition unrated : CartReview.t :=
  {| CartReview.rating := Num 0; CartReview.text := "" |}.

Definition tape (id : Z) (title : string) : Movie.t :=
  {| Movie.id := id; Movie.title := title; Movie.year := Num 1986;
     Movie.genre := ["Sci-Fi"]; Movie.tagline := ""; Movie.rating := "R";
     Movie.runtime := ""; Movie.available := true; Movie.poster := "";
     Movie.backdrop := None; Movie.tmdbRating := None; Movie.overview := None |}.

Definition evening : list UseCart.Call :=
  [UseCart.Add (tape 1 "Aliens") None;
   UseCart.Add (tape 2 "Alien") (Some unrated);
   UseCart.Add (tape 1 "Aliens (director's cut)") (Some five_stars);
   UseCart.UpdateReview 2 five_stars;
   UseCart.Remove 1].

(** * Properties *)

(** ** Certification extraction *)

Lemma truthy_true (s : string) : truthy s = true ↔ s ≠ "".
Proof. destruct s; simpl; split; congruence. Qed.

Lemma truthy_false (s : string) : truthy s = false ↔ s = "".
Proof. destruct s; simpl; split; congruence. Qed.

Lemma find_US_typed (cs : list (string * list string)) :
  array_find is_US (map (fun c => country_of (fst c) (snd c)) cs)
  = Return ((fun c => country_of (fst c) (snd c))
              <$> List.find (fun c => bool_decide (fst c = "US")) cs).
Proof.
  induction cs as [|[code certs] cs IH]; simpl; [reflexivity|].
  destruct (bool_decide (code = "US")); [reflexivity | exact IH].
Qed.

Lemma find_certification_typed (certs : list string) :
  array_find has_certification (map rd_of certs)
  = Return (rd_of <$> List.find truthy certs).
Proof.
  induction certs as [|c certs IH]; simpl; [reflexivity|].
  destruct (truthy c); [reflexivity | exact IH].
Qed.

(** On a value of the declared type the function returns the first non-empty
    certification of the first US entry, and "NR" when there is none. *)
Lemma extractUSCertification_typed (cs : list (string * list string)) :
  extractUSCertification (release_dates_of cs)
  = Return (match first_US cs with
            | Some certs => default "NR" (first_certification certs)
            | None => "NR"
            end).
Proof.
  unfold extractUSCertification, release_dates_of, first_US, first_certification.
  simpl. rewrite find_US_typed.
  destruct (List.find _ cs) as [[code certs]|]; simpl; [|reflexivity].
  rewrite length_map.
  destruct certs as [|c certs]; [reflexivity|].
  change (0 <? Z.of_nat (length (c :: certs))) with true; cbv iota.
  rewrite find_certification_typed.
  destruct (List.find truthy (c :: certs)) as [c'|] eqn:Hf; simpl; [|reflexivity].
  apply find_some in Hf as [_ ->]. reflexivity.
Qed.

Lemma first_US_split (before after : list (string * list string)) (certs : list string) :
  Forall (fun c => fst c ≠ "US") before →
  first_US (before ++ ("US", certs) :: after) = Some certs.
Proof.
  unfold first_US. induction 1 as [|[code x] before Hne _ IH]; simpl.
  - reflexivity.
  - simpl in Hne. rewrite bool_decide_eq_false_2 by exact Hne. exact IH.
Qed.

Lemma first_US_none (cs : list (string * list string)) :
  Forall (fun c => fst c ≠ "US") cs → first_US cs = None.
Proof.
  unfold first_US. induction 1 as [|[code x] cs Hne _ IH]; simpl.
  - reflexivity.
  - simpl in Hne. rewrite bool_decide_eq_false_2 by exact Hne. exact IH.
Qed.

Lemma first_certification_split (pre post : list string) (c : string) :
  Forall (fun x => x = "") pre → c ≠ "" →
  first_certification (pre ++ c :: post) = Some c.
Proof.
  unfold first_certification. intros Hpre Hc.
  induction Hpre as [|x pre -> _ IH]; simpl.
  - apply truthy_true in Hc. rewrite Hc. reflexivity.
  - exact IH.
Qed.

Lemma first_certification_none (certs : list string) :
  Forall (fun x => x = "") certs → first_certification certs = None.
Proof.
  unfold first_certification. induction 1 as [|x certs -> _ IH]; simpl; auto.
Qed.

(** C3, as the code has it. On an absent structure, on a structure without a
    results list, and on every structure of the declared type the function
    returns a string and never throws: "NR" when there is no US entry, when
    the first US entry has no release dates or only empty certification
    strings, and otherwise the first non-empty certification string of the
    first US entry (so "PG-13" when that is "PG-13"). *)
Theorem extractUSCertification_declared_type :
  extractUSCertification None = Return "NR"
  ∧ extractUSCertification (Some {| Wire.results := None |}) = Return "NR"
  ∧ (∀ cs, ∃ s, extractUSCertification (release_dates_of cs) = Return s)
  ∧ (∀ cs, Forall (fun c => fst c ≠ "US") cs →
       extractUSCertification (release_dates_of cs) = Return "NR")
  ∧ (∀ before certs after,
       Forall (fun c => fst c ≠ "US") before →
       Forall (fun x => x = "") certs →
       extractUSCertification (release_dates_of (before ++ ("US", certs) :: after))
       = Return "NR")
  ∧ (∀ before pre c post after,
       Forall (fun c => fst c ≠ "US") before →
       Forall (fun x => x = "") pre → c ≠ "" →
       extractUSCertification
         (release_dates_of (before ++ ("US", pre ++ c :: post) :: after))
       = Return c).
Proof.
  repeat split.
  - intros cs. rewrite extractUSCertification_typed. eauto.
  - intros cs Hcs. rewrite extractUSCertification_typed, first_US_none; auto.
  - intros before certs after Hb Hc.
    rewrite extractUSCertification_typed, first_US_split by exact Hb.
    rewrite first_certification_none by exact Hc. reflexivity.
  - intros before pre c post after Hb Hpre Hc.
    rewrite extractUSCertification_typed, first_US_split by exact Hb.
    rewrite first_certification_split by assumption. reflexivity.
Qed.

Lemma extractUSCertification_declared_type_witness :
  extractUSCertification (release_dates_of [("GB", ["15"])]) = Return "NR"
  ∧ extractUSCertification (release_dates_of [("GB", ["15"]); ("US", [])]) = Return "NR"
  ∧ extractUSCertification (release_dates_of [("GB", ["15"]); ("US", [""; ""])])
    = Return "NR"
  ∧ extractUSCertification
      (release_dates_of [("GB", ["15"]); ("US", [""; "PG-13"; "R"]); ("US", ["G"])])
    = Return "PG-13".
Proof.
  destruct extractUSCertification_declared_type as (_ & _ & _ & HnoUS & Hempty & Hfirst).
  split; [|split; [|split]].
  - apply (HnoUS [("GB", ["15"])]).
    repeat constructor; simpl; discriminate.
  - apply (Hempty [("GB", ["15"])] [] []).
    + repeat constructor; simpl; discriminate.
    + constructor.
  - apply (Hempty [("GB", ["15"])] [""; ""] []).
    + repeat constructor; simpl; discriminate.
    + repeat constructor.
  - apply (Hfirst [("GB", ["15"])] [""] "PG-13" ["R"] [("US", ["G"])]).
    + repeat constructor; simpl; discriminate.
    + repeat constructor.
    + discriminate.
Defined.

(** C3 as stated fails: a US entry without a [release_dates] list is a
    malformed structure on which the function throws instead of returning
    "NR". *)
Lemma extractUSCertification_throws_on_malformed :
  extractUSCertification us_without_dates = Throw TypeError
  ∧ extractUSCertification us_without_dates ≠ Return "NR".
Proof. split; [reflexivity | discriminate]. Qed.

(** ** Transformation of a catalog record *)

Lemma above_tenth_spec (random : Q) :
  above_tenth random = true ↔ (1 # 10 < random)%Q.
Proof.
  unfold above_tenth. rewrite negb_true_iff, <- not_true_iff_false, Qle_bool_iff.
  split; [apply Qnot_le_lt | apply Qlt_not_le].
Qed.

Section TransformFacts.
Context `{Runtime}.

(** C9, as the code has it. The year is 0 when the release date is the empty
    string; for every non-empty release date it is what
    [new Date(release_date).getFullYear()] gives, hence [NaN] and not 0 when
    that date is invalid. *)
Theorem transformTMDBMovie_year (tmdbMovie : TMDBMovie.t) (genreMap : gmap Z string)
  (certification : string) (details : option TMDBMovieDetails.t) (random : Q) :
  let year :=
    Movie.year (transformTMDBMovie tmdbMovie genreMap certification details random) in
  (TMDBMovie.release_date tmdbMovie = "" → year = Num 0)
  ∧ (TMDBMovie.release_date tmdbMovie ≠ "" →
     year = Date_getFullYear (TMDBMovie.release_date tmdbMovie))
  ∧ (TMDBMovie.release_date tmdbMovie ≠ "" →
     Date_getFullYear (TMDBMovie.release_date tmdbMovie) = NaN → year = NaN).
Proof.
  simpl. repeat split.
  - intros ->. reflexivity.
  - intros Hne. apply truthy_true in Hne. rewrite Hne. reflexivity.
  - intros Hne Hnan. apply truthy_true in Hne. rewrite Hne. exact Hnan.
Qed.

End TransformFacts.

Lemma transformTMDBMovie_year_witness :
  Movie.year (transformTMDBMovie (H := reference_runtime [])
                (sample_movie 1 "Aliens" "1986-07-18") sample_genres "NR" None (1 # 2))
  = Num 1986
  ∧ Movie.year (transformTMDBMovie (H := reference_runtime [])
                (sample_movie 2 "Untitled" "") sample_genres "NR" None (1 # 2))
  = Num 0.
Proof.
  split.
  - apply (transformTMDBMovie_year (H := reference_runtime [])
             (sample_movie 1 "Aliens" "1986-07-18") sample_genres "NR" None (1 # 2)).
    discriminate.
  - apply (transformTMDBMovie_year (H := reference_runtime [])
             (sample_movie 2 "Untitled" "") sample_genres "NR" None (1 # 2)).
    reflexivity.
Defined.

(** C9 as stated fails: "TBA" is a non-empty release date that does not
    parse, and the year of the transformed movie is [NaN], not 0. *)
Lemma transformTMDBMovie_year_malformed :
  let tmdbMovie := sample_movie 3 "Untitled" "TBA" in
  Date_getFullYear (Runtime := reference_runtime [])
    (TMDBMovie.release_date tmdbMovie) = NaN
  ∧ Movie.year (transformTMDBMovie (H := reference_runtime [])
                  tmdbMovie sample_genres "NR" None (1 # 2)) = NaN
  ∧ Movie.year (transformTMDBMovie (H := reference_runtime [])
                  tmdbMovie sample_genres "NR" None (1 # 2)) ≠ Num 0.
Proof.
  cbv zeta. split; [reflexivity|]. split; [reflexivity|].
  intros Heq. vm_compute in Heq. discriminate Heq.
Qed.

(** ** Cache store *)

Section CacheFacts.
Context `{Runtime}.

Lemma getFromStorage_clock_log (key : string) (w : World) :
  now (snd (getFromStorage key w)) = now w
  ∧ log (snd (getFromStorage key w)) = log w.
Proof.
  unfold getFromStorage.
  destruct (getItem key (localStorage w)) as [[cached|]|]; simpl; auto.
  destruct (truthy cached); simpl; auto.
  destruct (JSON_parse cached) as [|entry|]; simpl; auto.
  destruct (fresh w entry); simpl; auto.
Qed.

Lemma getFromCache_clock_log (key : string) (w : World) :
  now (snd (getFromCache key w)) = now w
  ∧ log (snd (getFromCache key w)) = log w.
Proof.
  unfold getFromCache.
  destruct (memoryCache w !! key) as [memCached|];
    [destruct (fresh w memCached); simpl; auto|];
    apply getFromStorage_clock_log.
Qed.

(** A value read from the persistent tier is unexpired and has been promoted
    to the in-memory tier. *)
Lemma getFromStorage_some (key : string) (w w1 : World) (p : Payload) :
  getFromStorage key w = (Some p, w1) →
  ∃ e, data e = p ∧ fresh w e = true ∧ w1 = set_memoryCache (insert key e) w.
Proof.
  unfold getFromStorage.
  destruct (getItem key (localStorage w)) as [[cached|]|]; try discriminate.
  destruct (truthy cached); try discriminate.
  destruct (JSON_parse cached) as [|entry|]; try discriminate.
  destruct (fresh w entry) eqn:Hfresh; try discriminate.
  intros [= <- <-]. eauto.
Qed.

(** After a read that returned a value, the in-memory tier holds an
    unexpired entry with that value under the key. *)
Lemma getFromCache_some (key : string) (w w1 : World) (p : Payload) :
  getFromCache key w = (Some p, w1) →
  ∃ e, memoryCache w1 !! key = Some e ∧ data e = p ∧ fresh w1 e = true.
Proof.
  unfold getFromCache.
  destruct (memoryCache w !! key) as [memCached|] eqn:Hmem.
  - destruct (fresh w memCached) eqn:Hfresh.
    + intros [= <- <-]. eauto.
    + intros (e & <- & Hf & ->)%getFromStorage_some.
      exists e. simpl. rewrite lookup_insert_eq. auto.
  - intros (e & <- & Hf & ->)%getFromStorage_some.
    exists e. simpl. rewrite lookup_insert_eq. auto.
Qed.

(** An unexpired in-memory entry answers the read, and nothing changes. *)
Lemma getFromCache_memory_hit (key : string) (w : World) (e : CacheEntry) :
  memoryCache w !! key = Some e → fresh w e = true →
  getFromCache key w = (Some (data e), w).
Proof. unfold getFromCache. intros -> ->. reflexivity. Qed.

Lemma saveToCache_memory (key : string) (d : Payload) (w : World) :
  memoryCache (saveToCache key d w) !! key
  = Some {| data := d; timestamp := now w |}.
Proof. unfold saveToCache. simpl. apply lookup_insert_eq. Qed.

Lemma saveToCache_clock_log (key : string) (d : Payload) (w : World) :
  now (saveToCache key d w) = now w ∧ log (saveToCache key d w) = log w.
Proof. unfold saveToCache. simpl. auto. Qed.

Lemma fresh_advance (w : World) (dt : Z) (e : CacheEntry) :
  fresh (advance dt w) e = true ↔ now w + dt - timestamp e < CACHE_TTL.
Proof. unfold fresh. simpl. apply Z.ltb_lt. Qed.

End CacheFacts.

Section ExpiryFacts.
Context `{Runtime}.

Lemma fresh_false (w : World) (e : CacheEntry) :
  fresh w e = false ↔ CACHE_TTL ≤ now w - timestamp e.
Proof. unfold fresh. apply Z.ltb_ge. Qed.

(** With no unexpired entry in memory the read is the persistent-tier read. *)
Lemma getFromCache_stale_memory (key : string) (w : World) :
  (∀ e, memoryCache w !! key = Some e → CACHE_TTL ≤ now w - timestamp e) →
  getFromCache key w = getFromStorage key w.
Proof.
  intros Hstale. unfold getFromCache.
  destruct (memoryCache w !! key) as [e|]; [|reflexivity].
  rewrite (proj2 (fresh_false w e)); auto.
Qed.

Lemma getFromStorage_ignores_memory (key : string) (w : World)
  (f : gmap string CacheEntry → gmap string CacheEntry) :
  fst (getFromStorage key (set_memoryCache f w)) = fst (getFromStorage key w).
Proof.
  unfold getFromStorage. simpl.
  destruct (getItem key (localStorage w)) as [[cached|]|]; simpl; auto.
  destruct (truthy cached); simpl; auto.
  destruct (JSON_parse cached) as [|entry|]; simpl; auto.
  unfold fresh. simpl. destruct (_ <? _); reflexivity.
Qed.

(** C5. An entry recorded 24 hours or more before the read (which includes
    every entry recorded more than 24 hours before it) is treated as absent
    in either tier: the read returns null when no tier holds a younger entry
    under the key, an expired in-memory entry changes nothing in what the
    read returns, and an expired persistent entry is removed from the
    persistent store by the read, which leaves every other key in place.
    Persistent-tier failures do not escape: with the storage unavailable, or
    with a stored text that does not parse, the read returns null and leaves
    the world as it was. *)
Theorem getFromCache_expiry (key : string) (w : World) :
  (* no unexpired entry in either tier: the read returns null *)
  ((∀ e, memoryCache w !! key = Some e → CACHE_TTL ≤ now w - timestamp e) →
   (∀ text e, stored (localStorage w) !! key = Some text →
              JSON_parse text = ParsedEntry e → CACHE_TTL ≤ now w - timestamp e) →
   fst (getFromCache key w) = None)
  (* an expired in-memory entry is as good as none *)
  ∧ (∀ e, memoryCache w !! key = Some e → CACHE_TTL ≤ now w - timestamp e →
     fst (getFromCache key w)
     = fst (getFromCache key (set_memoryCache (delete key) w)))
  (* an expired persistent entry is removed by the read *)
  ∧ (∀ text e,
     (∀ e', memoryCache w !! key = Some e' → CACHE_TTL ≤ now w - timestamp e') →
     stored (localStorage w) !! key = Some text → text ≠ "" →
     JSON_parse text = ParsedEntry e → CACHE_TTL ≤ now w - timestamp e →
     fst (getFromCache key w) = None
     ∧ stored (localStorage (snd (getFromCache key w))) !! key = None
     ∧ (∀ k, k ≠ key →
          stored (localStorage (snd (getFromCache key w))) !! k
          = stored (localStorage w) !! k)
     ∧ memoryCache (snd (getFromCache key w)) = memoryCache w)
  (* storage unavailable: a miss *)
  ∧ ((∀ e, memoryCache w !! key = Some e → CACHE_TTL ≤ now w - timestamp e) →
     localStorage w = Unavailable →
     getFromCache key w = (None, w))
  (* corrupt stored text: a miss *)
  ∧ (∀ text,
     (∀ e, memoryCache w !! key = Some e → CACHE_TTL ≤ now w - timestamp e) →
     stored (localStorage w) !! key = Some text →
     JSON_parse text = ParseThrows →
     getFromCache key w = (None, w)).
Proof.
  split; [|split; [|split; [|split]]].
  - intros Hmem Hsto. rewrite getFromCache_stale_memory by exact Hmem.
    unfold getFromStorage.
    destruct (localStorage w) as [|items full] eqn:Hls; simpl; [reflexivity|].
    destruct (items !! key) as [cached|] eqn:Hk; [|reflexivity].
    destruct (truthy cached); [|reflexivity].
    destruct (JSON_parse cached) as [|entry|] eqn:Hparse; try reflexivity.
    rewrite (proj2 (fresh_false w entry)); [reflexivity|].
    apply (Hsto cached); simpl; assumption.
  - intros e He Hexp.
    rewrite getFromCache_stale_memory.
    + unfold getFromCache at 1. simpl. rewrite lookup_delete_eq.
      symmetry. apply getFromStorage_ignores_memory.
    + intros e' He'. congruence.
  - intros text e Hmem Hk Htext Hparse Hexp.
    rewrite getFromCache_stale_memory by exact Hmem.
    unfold getFromStorage.
    destruct (localStorage w) as [|items full] eqn:Hls; simpl in *;
      [rewrite lookup_empty in Hk; discriminate|].
    rewrite Hk. apply truthy_true in Htext. rewrite Htext, Hparse.
    rewrite (proj2 (fresh_false w e)) by exact Hexp. simpl.
    repeat split.
    + apply lookup_delete_eq.
    + intros k Hne. apply lookup_delete_ne. congruence.
  - intros Hmem Hls. rewrite getFromCache_stale_memory by exact Hmem.
    unfold getFromStorage. rewrite Hls. reflexivity.
  - intros text Hmem Hk Hparse.
    rewrite getFromCache_stale_memory by exact Hmem.
    unfold getFromStorage.
    destruct (localStorage w) as [|items full] eqn:Hls; simpl in *; [reflexivity|].
    rewrite Hk. destruct (truthy text); [|reflexivity].
    rewrite Hparse. reflexivity.
Qed.

End ExpiryFacts.

Lemma getFromCache_expiry_witness :
  fst (getFromCache (H := old_runtime) details_key stale_world) = None
  ∧ stored (localStorage (snd (getFromCache (H := old_runtime) details_key stale_world)))
      !! details_key = None
  ∧ stored (localStorage (snd (getFromCache (H := old_runtime) details_key stale_world)))
      !! "theme" = Some "dark"
  ∧ getFromCache (H := old_runtime) details_key (cold Unavailable 5)
    = (None, cold Unavailable 5)
  ∧ getFromCache (H := old_runtime) details_key corrupt_world = (None, corrupt_world).
Proof.
  assert (Hstale : ∀ e, memoryCache stale_world !! details_key = Some e →
                        CACHE_TTL ≤ now stale_world - timestamp e).
  { intros e He. vm_compute in He. injection He as <-. vm_compute. discriminate. }
  destruct (getFromCache_expiry (H := old_runtime) details_key stale_world)
    as (_ & _ & Hremoved & _).
  destruct (Hremoved "entry@0" old_entry Hstale) as (Hnull & Hgone & Hothers & _).
  { vm_compute. reflexivity. }
  { discriminate. }
  { reflexivity. }
  { vm_compute. discriminate. }
  split; [exact Hnull|]. split; [exact Hgone|]. split.
  { rewrite Hothers by discriminate. vm_compute. reflexivity. }
  split.
  - apply (getFromCache_expiry (H := old_runtime) details_key (cold Unavailable 5)).
    + intros e He. vm_compute in He. discriminate He.
    + reflexivity.
  - apply (getFromCache_expiry (H := old_runtime) details_key corrupt_world)
      with (text := "{oops").
    + intros e He. vm_compute in He. discriminate He.
    + vm_compute. reflexivity.
    + reflexivity.
Defined.

(** ** Clearing the cache *)

Lemma prefix_append (a b : string) : String.prefix a (a +:+ b) = true.
Proof.
  induction a as [|c a IH]; simpl.
  - destruct b; reflexivity.
  - destruct (ascii_dec c c); [exact IH | congruence].
Qed.

Lemma getCacheKey_prefix (type id : string) :
  String.prefix CACHE_PREFIX (getCacheKey type id) = true.
Proof. unfold getCacheKey. apply prefix_append. Qed.

Lemma removeItem_fold (items : gmap string string) (full : bool) (keys : list string) :
  foldl (fun ls k => snd (removeItem k ls)) (Available items full) keys
  = Available (foldl (fun m k => delete k m) items keys) full.
Proof.
  revert items. induction keys as [|k keys IH]; intros items; simpl; auto.
Qed.

Lemma lookup_delete_fold (items : gmap string string) (keys : list string) (k : string) :
  foldl (fun m k' => delete k' m) items keys !! k
  = if bool_decide (k ∈ keys) then None else items !! k.
Proof.
  revert items. induction keys as [|k' keys IH]; intros items; simpl.
  - reflexivity.
  - rewrite IH. destruct (decide (k ∈ keys)) as [Hin|Hnin].
    + rewrite (bool_decide_eq_true_2 _ Hin).
      rewrite bool_decide_eq_true_2 by (right; exact Hin). reflexivity.
    + rewrite (bool_decide_eq_false_2 _ Hnin).
      destruct (decide (k = k')) as [->|Hne].
      * rewrite lookup_delete_eq, bool_decide_eq_true_2 by left. reflexivity.
      * rewrite lookup_delete_ne by congruence.
        rewrite bool_decide_eq_false_2; [reflexivity|].
        intros [?|?]%elem_of_cons; contradiction.
Qed.

Section ClearFacts.
Context `{Runtime}.

(** What [clearCache] leaves in the persistent store. *)
Lemma clearCache_stored (w : World) (k : string) :
  stored (localStorage (clearCache w)) !! k
  = if String.prefix CACHE_PREFIX k then None else stored (localStorage w) !! k.
Proof.
  unfold clearCache. simpl.
  destruct (localStorage w) as [|items full] eqn:Hls; simpl; rewrite ?Hls; simpl.
  - rewrite lookup_empty. destruct (String.prefix _ _); reflexivity.
  - rewrite removeItem_fold. simpl. rewrite lookup_delete_fold.
    destruct (String.prefix CACHE_PREFIX k) eqn:Hp.
    + destruct (items !! k) as [v|] eqn:Hk.
      * rewrite bool_decide_eq_true_2; [reflexivity|].
        apply list_elem_of_In, filter_In. split; [|exact Hp].
        apply list_elem_of_In, (list_elem_of_fmap_2 fst _ (k, v)).
        apply elem_of_map_to_list. exact Hk.
      * destruct (bool_decide _); reflexivity.
    + rewrite bool_decide_eq_false_2; [reflexivity|].
      intros [_ Hp']%list_elem_of_In%filter_In. congruence.
Qed.

Lemma clearCache_misses (w : World) (type id : string) :
  getFromCache (getCacheKey type id) (clearCache w) = (None, clearCache w).
Proof.
  unfold getFromCache.
  replace (memoryCache (clearCache w)) with (∅ : gmap string CacheEntry)
    by (unfold clearCache; destruct (Object_keys _); reflexivity).
  rewrite lookup_empty. unfold getFromStorage.
  pose proof (clearCache_stored w (getCacheKey type id)) as Hk.
  rewrite getCacheKey_prefix in Hk.
  destruct (localStorage (clearCache w)) as [|items full]; simpl in *.
  - reflexivity.
  - rewrite Hk. reflexivity.
Qed.

Lemma fetchMoviesBasic_miss_log (page : Z) (genreId : option Z)
  (genreMap : gmap Z string) (reply : Reply TMDBMovieResponse.t) (random : nat → Q)
  (w : World) :
  log (snd (fetchMoviesBasic_miss page genreId genreMap reply random w))
  = log w ++ [EvFetch "/discover/movie" (discover_params page genreId "popularity.desc")].
Proof.
  unfold fetchMoviesBasic_miss, bind, discoverMovies, fetchTMDB.
  destruct (outcome reply) as [response| |]; simpl; try reflexivity.
  destruct (TMDBMovieResponse.results response); reflexivity.
Qed.

(** C8. [clearCache] empties the in-memory map; in the persistent store it
    removes every key that starts with the prefix "tmdb_cache_" and leaves
    every other key with its value; and a call of [fetchMoviesBasic] right
    after it sends a request to the provider, whatever the caches held
    before. *)
Theorem clearCache_frame (w : World) :
  memoryCache (clearCache w) = ∅
  ∧ (∀ k, String.prefix CACHE_PREFIX k = true →
       stored (localStorage (clearCache w)) !! k = None)
  ∧ (∀ k, String.prefix CACHE_PREFIX k = false →
       stored (localStorage (clearCache w)) !! k = stored (localStorage w) !! k)
  ∧ (∀ page genreId genreMap reply random,
       log (snd (fetchMoviesBasic page genreId genreMap reply random (clearCache w)))
       = log w ++ [EvFetch "/discover/movie"
                     (discover_params page genreId "popularity.desc")]).
Proof.
  split; [|split; [|split]].
  - unfold clearCache. destruct (Object_keys _); reflexivity.
  - intros k Hp. rewrite clearCache_stored, Hp. reflexivity.
  - intros k Hp. rewrite clearCache_stored, Hp. reflexivity.
  - intros page genreId genreMap reply random.
    unfold fetchMoviesBasic, discover_key. rewrite clearCache_misses.
    rewrite fetchMoviesBasic_miss_log.
    unfold clearCache. destruct (Object_keys _); reflexivity.
Qed.

End ClearFacts.

(** ** Basic page fetch *)

Section PageFacts.
Context `{Runtime}.

(** A successful request for a non-empty page returns the transformed page
    and caches it at the time the response arrived. *)
Lemma fetchMoviesBasic_miss_ok (page : Z) (genreId : option Z)
  (genreMap : gmap Z string) (reply : Reply TMDBMovieResponse.t) (random : nat → Q)
  (w : World) (response : TMDBMovieResponse.t) :
  outcome reply = Ok response →
  TMDBMovieResponse.results response ≠ [] →
  fetchMoviesBasic_miss page genreId genreMap reply random w
  = (Return (basic_page genreMap random response),
     saveToCache (discover_key page genreId) (basic_page genreMap random response)
       (advance (elapsed reply)
          (emit (EvFetch "/discover/movie"
                   (discover_params page genreId "popularity.desc")) w))).
Proof.
  intros Hok Hne.
  unfold fetchMoviesBasic_miss, bind, discoverMovies, fetchTMDB. rewrite Hok.
  destruct (TMDBMovieResponse.results response); [contradiction | reflexivity].
Qed.

(** A call whose cache check fails continues with the request. *)
Lemma fetchMoviesBasic_on_miss (page : Z) (genreId : option Z)
  (genreMap : gmap Z string) (reply : Reply TMDBMovieResponse.t) (random : nat → Q)
  (w : World) :
  cache_hit (fst (getFromCache (discover_key page genreId) w)) = false →
  fetchMoviesBasic page genreId genreMap reply random w
  = fetchMoviesBasic_miss page genreId genreMap reply random
      (snd (getFromCache (discover_key page genreId) w)).
Proof.
  unfold fetchMoviesBasic.
  destruct (getFromCache (discover_key page genreId) w) as [[cached|] w0]; simpl.
  - intros ->. reflexivity.
  - reflexivity.
Qed.

(** A successful request for an empty page returns the empty page object and
    writes nothing to either tier of the cache. *)
Lemma fetchMoviesBasic_miss_empty (page : Z) (genreId : option Z)
  (genreMap : gmap Z string) (reply : Reply TMDBMovieResponse.t) (random : nat → Q)
  (w : World) (response : TMDBMovieResponse.t) :
  outcome reply = Ok response →
  TMDBMovieResponse.results response = [] →
  let after := fetchMoviesBasic_miss page genreId genreMap reply random w in
  fst after = Return (PPage {| Page.movies := []; Page.totalPages := 0;
                               Page.totalResults := 0 |})
  ∧ memoryCache (snd after) = memoryCache w
  ∧ localStorage (snd after) = localStorage w.
Proof.
  intros Hok Hnil.
  unfold fetchMoviesBasic_miss, bind, discoverMovies, fetchTMDB.
  rewrite Hok, Hnil. simpl. auto.
Qed.

(** C1, as the code has it. Starting from a state in which the page is not
    cached, when the provider answers the first call with a page of at least
    one result, a second call with the same arguments made less than 24 hours
    later is answered from the cache with the page the first call wrote: the
    two calls together send exactly one request. *)
Theorem fetchMoviesBasic_second_call_cached (page : Z) (genreId : option Z)
  (genreMap : gmap Z string) (reply reply' : Reply TMDBMovieResponse.t)
  (random random' : nat → Q) (w : World) (response : TMDBMovieResponse.t) (dt : Z) :
  cache_hit (fst (getFromCache (discover_key page genreId) w)) = false →
  outcome reply = Ok response →
  TMDBMovieResponse.results response ≠ [] →
  dt < CACHE_TTL →
  let first := fetchMoviesBasic page genreId genreMap reply random w in
  let second :=
    fetchMoviesBasic page genreId genreMap reply' random' (advance dt (snd first)) in
  fst first = Return (basic_page genreMap random response)
  ∧ fst second = Return (basic_page genreMap random response)
  ∧ log (snd first)
    = log w ++ [EvFetch "/discover/movie"
                  (discover_params page genreId "popularity.desc")]
  ∧ log (snd second) = log (snd first)
  ∧ snd second = advance dt (snd first).
Proof.
  intros Hmiss Hok Hne Hdt first second.
  assert (Hfirst : first
    = (Return (basic_page genreMap random response),
       saveToCache (discover_key page genreId) (basic_page genreMap random response)
         (advance (elapsed reply)
            (emit (EvFetch "/discover/movie"
                     (discover_params page genreId "popularity.desc"))
               (snd (getFromCache (discover_key page genreId) w)))))).
  { unfold first. rewrite fetchMoviesBasic_on_miss by exact Hmiss.
    apply fetchMoviesBasic_miss_ok; assumption. }
  assert (Hsecond : second = (Return (basic_page genreMap random response),
                              advance dt (snd first))).
  { unfold second, fetchMoviesBasic.
    rewrite (getFromCache_memory_hit _ _
               {| data := basic_page genreMap random response;
                  timestamp := now (snd first) |}).
    - reflexivity.
    - rewrite Hfirst. simpl. apply lookup_insert_eq.
    - apply fresh_advance. simpl. lia. }
  rewrite Hsecond. repeat split.
  - rewrite Hfirst. reflexivity.
  - rewrite Hfirst. simpl.
    rewrite (proj2 (getFromCache_clock_log (discover_key page genreId) w)).
    reflexivity.
Qed.

End PageFacts.

(** ** Availability *)

Section AvailabilityFacts.
Context `{Runtime}.

(** C10. Two calls with the same arguments agree on every field but
    [available]; [available] is true exactly when the call's draw of
    [Math.random()] lies above 0.1, that is on nine tenths of the interval
    the draw is taken from, so two calls can disagree on it. A page fetched
    from the provider transforms each record with a draw of its own, while a
    cached page is returned as stored: the availability of a movie on a
    re-fetched page follows the new draw and can differ from the cached
    one. *)
Theorem transformTMDBMovie_deterministic_except_available
  (tmdbMovie : TMDBMovie.t) (genreMap : gmap Z string) (certification : string)
  (details : option TMDBMovieDetails.t) (random1 random2 : Q) :
  let a := transformTMDBMovie tmdbMovie genreMap certification details random1 in
  let b := transformTMDBMovie tmdbMovie genreMap certification details random2 in
  Movie.id a = Movie.id b
  ∧ Movie.title a = Movie.title b
  ∧ Movie.year a = Movie.year b
  ∧ Movie.genre a = Movie.genre b
  ∧ Movie.tagline a = Movie.tagline b
  ∧ Movie.rating a = Movie.rating b
  ∧ Movie.runtime a = Movie.runtime b
  ∧ Movie.poster a = Movie.poster b
  ∧ Movie.backdrop a = Movie.backdrop b
  ∧ Movie.tmdbRating a = Movie.tmdbRating b
  ∧ Movie.overview a = Movie.overview b
  ∧ (Movie.available a = true ↔ (1 # 10 < random1)%Q)
  ∧ (Movie.available b = true ↔ (1 # 10 < random2)%Q)
  ∧ ((random1 <= 1 # 10)%Q → (1 # 10 < random2)%Q →
     Movie.available a ≠ Movie.available b)
  ∧ (∀ page genreId reply random w response,
       outcome reply = Ok response → TMDBMovieResponse.results response ≠ [] →
       fst (fetchMoviesBasic_miss page genreId genreMap reply random w)
       = Return (basic_page genreMap random response))
  ∧ (∀ random response i m,
       TMDBMovieResponse.results response !! i = Some m →
       page_movies (basic_page genreMap random response) !! i
       = Some (transformTMDBMovie m genreMap "NR" None (random i))).
Proof.
  simpl. repeat split; try apply above_tenth_spec.
  - intros H1 H2 Heq.
    apply above_tenth_spec in H2. rewrite <- Heq in H2.
    apply above_tenth_spec in H2. exact (Qlt_not_le _ _ H2 H1).
  - intros page genreId reply random w response Hok Hne.
    rewrite (fetchMoviesBasic_miss_ok _ _ _ _ _ _ response Hok Hne). reflexivity.
  - intros random response i m Hm. rewrite list_lookup_imap, Hm. reflexivity.
Qed.

End AvailabilityFacts.

(** ** Enrichment *)

Lemma minutes_nonempty (n : Z) : minutes n ≠ "".
Proof. unfold minutes. destruct (pretty n); simpl; discriminate. Qed.

Lemma or_else_idem (a b : string) : or_else a (or_else a b) = or_else a b.
Proof. unfold or_else. destruct (truthy a); reflexivity. Qed.

Lemma if_number_idem {A} (n : option Z) (yes : Z → A) (no : A) :
  if_number n yes (if_number n yes no) = if_number n yes no.
Proof. unfold if_number. destruct n as [z|]; [destruct (z =? 0)|]; reflexivity. Qed.

Section EnrichFacts.
Context `{Runtime}.

(** Enriching with the same details twice changes nothing the second time. *)
Lemma enriched_idem (movie : Movie.t) (d : CachedMovieDetails.t) :
  enriched (enriched movie d) d = enriched movie d.
Proof.
  unfold enriched. simpl. f_equal.
  - destruct (TMDBMovieDetails.genres _) as [gs|]; [|reflexivity].
    destruct (0 <? Z.of_nat (length gs)); reflexivity.
  - apply or_else_idem.
  - apply if_number_idem.
Qed.

Lemma getMovieDetails_miss_inv (movieId : Z)
  (reply : Reply TMDBMovieDetailsWithReleaseDates.t) (w w1 : World) (p : Payload) :
  getMovieDetailsWithCertification_miss movieId reply w = (Return p, w1) →
  payload_truthy p = true
  ∧ memoryCache w1 !! getCacheKey "movie_details" (pretty movieId)
    = Some {| data := p; timestamp := now w1 |}.
Proof.
  unfold getMovieDetailsWithCertification_miss, bind, fetchTMDBQueued, fetchTMDB.
  destruct (outcome reply) as [response| |]; try discriminate.
  destruct (extractUSCertification _) as [certification|]; try discriminate.
  intros [= <- <-]. split; [reflexivity|].
  unfold saveToCache. simpl. apply lookup_insert_eq.
Qed.

(** After a successful call the in-memory tier holds the returned value in
    an unexpired entry. *)
Lemma getMovieDetails_leaves_entry (movieId : Z)
  (reply : Reply TMDBMovieDetailsWithReleaseDates.t) (w w1 : World) (p : Payload) :
  getMovieDetailsWithCertification movieId reply w = (Return p, w1) →
  payload_truthy p = true
  ∧ ∃ e, memoryCache w1 !! getCacheKey "movie_details" (pretty movieId) = Some e
         ∧ data e = p ∧ fresh w1 e = true.
Proof.
  unfold getMovieDetailsWithCertification.
  destruct (getFromCache _ w) as [[cached|] w0] eqn:Hget.
  - destruct (payload_truthy cached) eqn:Htruthy.
    + intros [= <- <-]. split; [exact Htruthy|].
      apply getFromCache_some in Hget. exact Hget.
    + intros [Ht Hmem]%getMovieDetails_miss_inv. split; [exact Ht|].
      eexists. split; [exact Hmem|]. split; [reflexivity|].
      unfold fresh. simpl. apply Z.ltb_lt. unfold CACHE_TTL. lia.
  - intros [Ht Hmem]%getMovieDetails_miss_inv. split; [exact Ht|].
    eexists. split; [exact Hmem|]. split; [reflexivity|].
    unfold fresh. simpl. apply Z.ltb_lt. unfold CACHE_TTL. lia.
Qed.

(** A call that finds an unexpired in-memory entry returns its value and
    touches nothing: no request, no queue admission. *)
Lemma getMovieDetails_hit (movieId : Z)
  (reply : Reply TMDBMovieDetailsWithReleaseDates.t) (w : World) (e : CacheEntry) :
  memoryCache w !! getCacheKey "movie_details" (pretty movieId) = Some e →
  fresh w e = true → payload_truthy (data e) = true →
  getMovieDetailsWithCertification movieId reply w = (Return (data e), w).
Proof.
  intros Hmem Hfresh Htruthy. unfold getMovieDetailsWithCertification.
  rewrite (getFromCache_memory_hit _ _ e Hmem Hfresh), Htruthy. reflexivity.
Qed.

(** C7, as the code has it. When a first enrichment succeeds and the second
    call is made before the cache entry of the details has reached its age
    limit of 24 hours, the second call, made on the result of the first, is a
    cache hit: [getMovieDetailsWithCertification] returns the same details
    and leaves the world as it is (nothing is sent and nothing is queued),
    and the second result equals the first. *)
Theorem enrichMovieWithDetails_idempotent (movie : Movie.t)
  (genreMap : gmap Z string) (reply reply' : Reply TMDBMovieDetailsWithReleaseDates.t)
  (w w1 : World) (d : CachedMovieDetails.t) (dt : Z) :
  getMovieDetailsWithCertification (Movie.id movie) reply w = (Return (PDetails d), w1) →
  (∀ e, memoryCache w1 !! getCacheKey "movie_details" (pretty (Movie.id movie)) = Some e →
        now w1 + dt - timestamp e < CACHE_TTL) →
  let first := enrichMovieWithDetails movie genreMap reply w in
  let second :=
    enrichMovieWithDetails (fst first) genreMap reply' (advance dt (snd first)) in
  first = (enriched movie d, w1)
  ∧ getMovieDetailsWithCertification (Movie.id (fst first)) reply' (advance dt (snd first))
    = (Return (PDetails d), advance dt (snd first))
  ∧ fst second = fst first
  ∧ log (snd second) = log (snd first).
Proof.
  intros Hget Hage first second.
  assert (Hfirst : first = (enriched movie d, w1)).
  { unfold first, enrichMovieWithDetails. rewrite Hget. reflexivity. }
  destruct (getMovieDetails_leaves_entry _ _ _ _ _ Hget) as (_ & e & Hmem & Hdata & _).
  assert (Hhit : getMovieDetailsWithCertification (Movie.id (fst first)) reply'
                   (advance dt (snd first))
                 = (Return (PDetails d), advance dt (snd first))).
  { rewrite Hfirst. simpl. rewrite <- Hdata. apply getMovieDetails_hit.
    - exact Hmem.
    - apply fresh_advance, Hage, Hmem.
    - rewrite Hdata. reflexivity. }
  assert (Hsecond : second = (enriched (fst first) d, advance dt (snd first))).
  { unfold second, enrichMovieWithDetails. rewrite Hhit. reflexivity. }
  split; [exact Hfirst|]. split; [exact Hhit|].
  rewrite Hsecond, Hfirst. simpl. split; [apply enriched_idem | reflexivity].
Qed.

(** C2, as the code has it. When [getMovieDetailsWithCertification] succeeds
    the result is a copy of the movie in which the tagline, the runtime and
    the genre names are replaced by the fetched values where those are
    non-empty (a non-empty tagline, a non-null non-zero runtime, a non-empty
    genre list) and kept otherwise, so that none of these three goes from
    populated to empty; the rating is always replaced by the fetched
    certification; every other field is that of the input. *)
Theorem enrichMovieWithDetails_fields (movie : Movie.t) (genreMap : gmap Z string)
  (reply : Reply TMDBMovieDetailsWithReleaseDates.t) (w w1 : World)
  (d : CachedMovieDetails.t) :
  getMovieDetailsWithCertification (Movie.id movie) reply w = (Return (PDetails d), w1) →
  let details := CachedMovieDetails.details d in
  let result := fst (enrichMovieWithDetails movie genreMap reply w) in
  Movie.tagline result
  = (if truthy (TMDBMovieDetails.tagline details)
     then TMDBMovieDetails.tagline details else Movie.tagline movie)
  ∧ Movie.runtime result
    = match TMDBMovieDetails.runtime details with
      | Some n => if n =? 0 then Movie.runtime movie else minutes n
      | None => Movie.runtime movie
      end
  ∧ Movie.genre result
    = match TMDBMovieDetails.genres details with
      | Some (g :: gs) => map TMDBGenre.name (g :: gs)
      | _ => Movie.genre movie
      end
  ∧ Movie.rating result = CachedMovieDetails.certification d
  ∧ (Movie.tagline movie ≠ "" → Movie.tagline result ≠ "")
  ∧ (Movie.runtime movie ≠ "" → Movie.runtime result ≠ "")
  ∧ (Movie.genre movie ≠ [] → Movie.genre result ≠ [])
  ∧ Movie.id result = Movie.id movie
  ∧ Movie.title result = Movie.title movie
  ∧ Movie.year result = Movie.year movie
  ∧ Movie.available result = Movie.available movie
  ∧ Movie.poster result = Movie.poster movie
  ∧ Movie.backdrop result = Movie.backdrop movie
  ∧ Movie.tmdbRating result = Movie.tmdbRating movie
  ∧ Movie.overview result = Movie.overview movie.
Proof.
  intros Hget details result.
  assert (Hres : result = enriched movie d).
  { unfold result, enrichMovieWithDetails. rewrite Hget. reflexivity. }
  rewrite Hres. unfold enriched. simpl. fold details.
  repeat split.
  - destruct (TMDBMovieDetails.genres details) as [[|g gs]|]; reflexivity.
  - unfold or_else. intros Hne.
    destruct (truthy (TMDBMovieDetails.tagline details)) eqn:Ht; [|exact Hne].
    apply truthy_true. exact Ht.
  - unfold if_number. intros Hne.
    destruct (TMDBMovieDetails.runtime details) as [n|]; [|exact Hne].
    destruct (n =? 0); [exact Hne | apply minutes_nonempty].
  - intros Hne.
    destruct (TMDBMovieDetails.genres details) as [[|g gs]|]; simpl;
      [exact Hne | discriminate | exact Hne].
Qed.

End EnrichFacts.

(** ** The properties on concrete runs *)

Lemma fetchMoviesBasic_second_call_cached_witness :
  let first :=
    fetchMoviesBasic (H := reference_runtime []) 1 None sample_genres one_movie_page
      (fun _ => 1 # 2) (cold (Available ∅ false) 0) in
  let second :=
    fetchMoviesBasic (H := reference_runtime []) 1 None sample_genres one_movie_page
      (fun _ => 1 # 20) (advance 0 (snd first)) in
  fst second = fst first
  ∧ log (snd second)
    = [EvFetch "/discover/movie" (discover_params 1 None "popularity.desc")].
Proof.
  intros first second.
  destruct (fetchMoviesBasic_second_call_cached (H := reference_runtime [])
              1 None sample_genres one_movie_page one_movie_page
              (fun _ => 1 # 2) (fun _ => 1 # 20) (cold (Available ∅ false) 0)
              {| TMDBMovieResponse.page := 1;
                 TMDBMovieResponse.results := [sample_movie 1 "Aliens" "1986-07-18"];
                 TMDBMovieResponse.total_pages := 3;
                 TMDBMovieResponse.total_results := 55 |} 0)
    as (Hfirst & Hsecond & Hlog1 & Hlog2 & _).
  - vm_compute. reflexivity.
  - reflexivity.
  - discriminate.
  - vm_compute. reflexivity.
  - fold first in Hfirst, Hsecond, Hlog1, Hlog2. fold second in Hsecond, Hlog2.
    split.
    + rewrite Hfirst, Hsecond. reflexivity.
    + rewrite Hlog2, Hlog1. reflexivity.
Defined.

(** C1 as stated fails on a page without results: nothing is cached, and the
    second call sends a second request. *)
Lemma fetchMoviesBasic_empty_page_refetched :
  let first :=
    fetchMoviesBasic (H := reference_runtime []) 1 None sample_genres (sample_page [])
      (fun _ => 1 # 2) (cold (Available ∅ false) 0) in
  let second :=
    fetchMoviesBasic (H := reference_runtime []) 1 None sample_genres (sample_page [])
      (fun _ => 1 # 2) (snd first) in
  fst first = Return (PPage {| Page.movies := []; Page.totalPages := 0;
                               Page.totalResults := 0 |})
  ∧ memoryCache (snd first) !! discover_key 1 None = None
  ∧ log (snd second)
    = [EvFetch "/discover/movie" (discover_params 1 None "popularity.desc");
       EvFetch "/discover/movie" (discover_params 1 None "popularity.desc")].
Proof. vm_compute. repeat split. Qed.

Lemma enrichMovieWithDetails_fields_witness :
  let result :=
    fst (enrichMovieWithDetails (H := reference_runtime []) (sample_view "" "NR" "") ∅
           (aliens_reply (release_dates_of [("US", ["R"])])) (cold Unavailable 0)) in
  Movie.tagline result = "This time it's war."
  ∧ Movie.runtime result = "137 min"
  ∧ Movie.genre result = ["Action"; "Sci-Fi"]
  ∧ Movie.rating result = "R".
Proof.
  pose proof (enrichMovieWithDetails_fields (H := reference_runtime [])
                (sample_view "" "NR" "") ∅
                (aliens_reply (release_dates_of [("US", ["R"])])) (cold Unavailable 0)
                (snd (getMovieDetailsWithCertification (H := reference_runtime []) 1
                        (aliens_reply (release_dates_of [("US", ["R"])]))
                        (cold Unavailable 0)))
                (aliens_cached "R")) as Hthm.
  cbv zeta in *.
  destruct Hthm as (Htagline & Hruntime & Hgenre & Hrating & _).
  { vm_compute. reflexivity. }
  rewrite Htagline, Hruntime, Hgenre, Hrating. vm_compute. repeat split.
Defined.

(** C2 as stated fails on the rating: the provider has no US certification
    for the movie, the fetch succeeds with "NR", and the input's "PG" is
    replaced by it. *)
Lemma enrichMovieWithDetails_rating_replaced :
  let movie := sample_view "Aliens" "PG" "137 min" in
  let reply := aliens_reply (release_dates_of [("GB", ["15"])]) in
  fst (getMovieDetailsWithCertification (H := reference_runtime []) (Movie.id movie)
         reply (cold Unavailable 0))
  = Return (PDetails (aliens_cached "NR"))
  ∧ Movie.rating movie = "PG"
  ∧ Movie.rating (fst (enrichMovieWithDetails (H := reference_runtime []) movie ∅
                         reply (cold Unavailable 0))) = "NR".
Proof. vm_compute. repeat split. Qed.

Lemma enrichMovieWithDetails_idempotent_witness :
  let reply := aliens_reply (release_dates_of [("US", ["R"])]) in
  let first :=
    enrichMovieWithDetails (H := reference_runtime []) (sample_view "" "NR" "") ∅
      reply (cold (Available ∅ false) 0) in
  let second :=
    enrichMovieWithDetails (H := reference_runtime []) (fst first) ∅
      reply (advance 1000 (snd first)) in
  fst second = fst first ∧ log (snd second) = log (snd first).
Proof.
  intros reply first second.
  destruct (enrichMovieWithDetails_idempotent (H := reference_runtime [])
              (sample_view "" "NR" "") ∅ reply reply (cold (Available ∅ false) 0)
              (snd (getMovieDetailsWithCertification (H := reference_runtime []) 1
                      reply (cold (Available ∅ false) 0)))
              (aliens_cached "R") 1000)
    as (_ & _ & Hsame & Hlog).
  - vm_compute. reflexivity.
  - intros e He. vm_compute in He. injection He as <-. vm_compute. reflexivity.
  - split; [exact Hsame | exact Hlog].
Defined.

(** C7 as stated fails once the cached details have reached their age limit.
    The first enrichment finds the details in an entry one millisecond
    before its expiry and sends nothing; the second call, made on its result
    one millisecond later, finds the entry expired, queues and sends a
    request, and returns the movie with the certification the provider
    sends then. *)
Lemma enrichMovieWithDetails_refetched_after_expiry :
  let movie := sample_view "" "NR" "" in
  let w := advance (-2) stale_world in
  let first :=
    enrichMovieWithDetails (H := old_runtime) movie ∅
      (aliens_reply (release_dates_of [("US", ["R"])])) w in
  let second :=
    enrichMovieWithDetails (H := old_runtime) (fst first) ∅
      (aliens_reply (release_dates_of [("US", ["PG-13"])])) (advance 1 (snd first)) in
  getMovieDetailsWithCertification (H := old_runtime) (Movie.id movie)
    (aliens_reply (release_dates_of [("US", ["R"])])) w
  = (Return (PDetails (aliens_cached "R")), w)
  ∧ Movie.rating (fst first) = "R"
  ∧ log (snd first) = []
  ∧ log (snd second)
    = [EvQueue;
       EvFetch "/movie/1"
         [("append_to_response", "release_dates"); ("language", "en-US")]]
  ∧ Movie.rating (fst second) = "PG-13"
  ∧ fst second ≠ fst first.
Proof.
  vm_compute. repeat split. discriminate.
Qed.

Lemma transformTMDBMovie_deterministic_except_available_witness :
  let first :=
    fetchMoviesBasic (H := reference_runtime []) 1 None sample_genres one_movie_page
      (fun _ => 1 # 2) (cold (Available ∅ false) 0) in
  let refetched :=
    fetchMoviesBasic (H := reference_runtime []) 1 None sample_genres one_movie_page
      (fun _ => 1 # 20) (clearCache (snd first)) in
  Movie.available (transformTMDBMovie (H := reference_runtime [])
                     (sample_movie 1 "Aliens" "1986-07-18") sample_genres "NR" None
                     (1 # 20))
  ≠ Movie.available (transformTMDBMovie (H := reference_runtime [])
                       (sample_movie 1 "Aliens" "1986-07-18") sample_genres "NR" None
                       (1 # 2))
  ∧ (∃ p, fst first = Return p ∧ Movie.available <$> page_movies p = [true])
  ∧ (∃ p, fst refetched = Return p ∧ Movie.available <$> page_movies p = [false]).
Proof.
  intros first refetched. split.
  - apply (transformTMDBMovie_deterministic_except_available (H := reference_runtime [])
             (sample_movie 1 "Aliens" "1986-07-18") sample_genres "NR" None
             (1 # 20) (1 # 2)).
    + unfold Qle; simpl; lia.
    + unfold Qlt; simpl; lia.
  - split; eexists; (split; [vm_compute; reflexivity | reflexivity]).
Defined.

Lemma clearCache_frame_witness :
  stored (localStorage (clearCache warm_world))
    !! discover_key 1 None = None
  ∧ stored (localStorage (clearCache warm_world)) !! "theme"
    = Some "dark"
  ∧ log (snd (fetchMoviesBasic (H := page_runtime) 1 None sample_genres one_movie_page
                (fun _ => 1 # 2) warm_world)) = []
  ∧ log (snd (fetchMoviesBasic (H := page_runtime) 1 None sample_genres one_movie_page
                (fun _ => 1 # 2) (clearCache warm_world)))
    = [EvFetch "/discover/movie" (discover_params 1 None "popularity.desc")].
Proof.
  destruct (clearCache_frame (H := page_runtime) warm_world)
    as (_ & Hremoved & Hkept & Hrequest).
  split; [|split; [|split]].
  - apply Hremoved. vm_compute. reflexivity.
  - rewrite Hkept by (vm_compute; reflexivity). vm_compute. reflexivity.
  - vm_compute. reflexivity.
  - rewrite Hrequest. reflexivity.
Defined.

(** ** Batch fetch *)

Section BatchFacts.
Context {TItem TResult : Type} `{Countable TItem}.
Implicit Types (items : list TItem) (fetchFn : TItem → Completion TResult).

Lemma collect_app (results : gmap TItem TResult)
  (l1 l2 : list (option (TItem * TResult))) :
  collect (collect results l1) l2 = collect results (l1 ++ l2).
Proof. unfold collect. symmetry. apply foldl_app. Qed.

(** What the result map holds after the items of a list were collected. *)
Lemma collect_lookup fetchFn items (results : gmap TItem TResult) (k : TItem) :
  collect results (map (fetch_item fetchFn) items) !! k
  = if bool_decide (k ∈ items) then
      match fetchFn k with
      | Return r => Some r
      | Throw _ => results !! k
      end
    else results !! k.
Proof.
  revert results. induction items as [|x items IH]; intros results.
  - rewrite bool_decide_eq_false_2 by apply not_elem_of_nil. reflexivity.
  - change (collect results (map (fetch_item fetchFn) (x :: items)))
      with (collect (collect results [fetch_item fetchFn x])
              (map (fetch_item fetchFn) items)).
    rewrite IH. unfold collect at 1 2. simpl. unfold fetch_item.
    destruct (decide (k = x)) as [->|Hne].
    + rewrite (bool_decide_eq_true_2 (x ∈ x :: items)) by left.
      destruct (fetchFn x) as [r|e].
      * rewrite lookup_insert_eq. destruct (bool_decide _); reflexivity.
      * destruct (bool_decide _); reflexivity.
    + assert (Hmem : bool_decide (k ∈ x :: items) = bool_decide (k ∈ items)).
      { apply bool_decide_ext. rewrite elem_of_cons. tauto. }
      rewrite Hmem.
      destruct (fetchFn x) as [r|e]; rewrite ?lookup_insert_ne by congruence;
        reflexivity.
Qed.

Lemma well_grouped_cons (batchSize : nat) (g : list TItem) (rest : list (list TItem)) :
  rest ≠ [] → length g = batchSize → well_grouped batchSize rest →
  well_grouped batchSize (g :: rest).
Proof. destruct rest; [congruence | simpl; auto]. Qed.

Lemma well_grouped_nonempty (batchSize : nat) (groups : list (list TItem)) :
  (0 < batchSize)%nat → well_grouped batchSize groups → concat groups = [] →
  groups = [].
Proof.
  intros Hpos. destruct groups as [|g rest]; [reflexivity|].
  intros Hwg Hconcat. simpl in Hconcat. apply app_eq_nil in Hconcat as [-> _].
  destruct rest; simpl in Hwg; lia.
Qed.

(** The loop from index [i]: it ends, with the remaining items collected
    group by group and the delay between the groups. *)
Lemma batchFetch_loop_spec fetchFn items (batchSize : nat) :
  (0 < batchSize)%nat →
  ∀ fuel i results (events : list (BatchEvent TItem)),
    (length items - i < fuel)%nat →
    ∃ groups,
      batchFetch_loop fuel items fetchFn batchSize i results events
      = Some (collect results (map (fetch_item fetchFn) (drop i items)),
              events ++ delay_between groups)
      ∧ concat groups = drop i items
      ∧ well_grouped batchSize groups.
Proof.
  intros Hpos. induction fuel as [|fuel IH]; intros i results events Hfuel; [lia|].
  simpl. destruct (decide (i < length items)%nat) as [Hlt|Hge].
  - rewrite (bool_decide_eq_true_2 _ Hlt).
    set (batch := slice i (i + batchSize) items).
    assert (Hbatch : batch = take batchSize (drop i items)).
    { unfold batch, slice. f_equal. lia. }
    destruct (IH (i + batchSize)%nat
                (collect results (map (fetch_item fetchFn) batch))
                (if bool_decide (i + batchSize < length items)%nat
                 then (events ++ [BatchStarted batch]) ++ [BatchDelayed BATCH_DELAY]
                 else events ++ [BatchStarted batch]))
      as (groups & Hrun & Hconcat & Hwg); [lia|].
    exists (batch :: groups). rewrite Hrun.
    assert (Hsplit : drop i items = batch ++ drop (i + batchSize) items).
    { rewrite Hbatch, <- drop_drop. symmetry. apply take_drop. }
    split; [|split].
    + f_equal. f_equal.
      * rewrite collect_app, <- map_app, <- Hsplit. reflexivity.
      * destruct (decide (i + batchSize < length items)%nat) as [Hmore|Hlast].
        -- rewrite (bool_decide_eq_true_2 _ Hmore).
           destruct groups as [|g groups].
           { simpl in Hconcat. symmetry in Hconcat.
             apply (f_equal length) in Hconcat. rewrite length_drop in Hconcat.
             simpl in Hconcat. lia. }
           simpl. rewrite <- !app_assoc. reflexivity.
        -- rewrite (bool_decide_eq_false_2 _ Hlast).
           rewrite (well_grouped_nonempty batchSize groups Hpos Hwg).
           ++ rewrite <- app_assoc. reflexivity.
           ++ rewrite Hconcat. apply drop_ge. lia.
    + simpl. rewrite Hconcat. symmetry. exact Hsplit.
    + assert (Hlen : length batch = Nat.min batchSize (length items - i)).
      { rewrite Hbatch, length_take, length_drop. reflexivity. }
      destruct groups as [|g groups].
      * simpl. lia.
      * apply well_grouped_cons; [discriminate| |exact Hwg].
        assert (length (concat (g :: groups)) ≠ 0)%nat as Hne.
        { destruct groups; simpl in Hwg |- *; rewrite length_app; lia. }
        rewrite Hconcat, length_drop in Hne. lia.
  - rewrite (bool_decide_eq_false_2 _ Hge). exists [].
    rewrite drop_ge by lia. simpl. rewrite app_nil_r. auto.
Qed.

Lemma batches_delay_between (groups : list (list TItem)) :
  batches (delay_between groups) = groups.
Proof.
  induction groups as [|g [|g' rest] IH]; simpl in *; try reflexivity.
  f_equal. exact IH.
Qed.

Lemma lengths_5_5_2 (groups : list (list TItem)) :
  well_grouped 5 groups → length (concat groups) = 12%nat →
  map length groups = [5; 5; 2]%nat.
Proof.
  intros Hwg Hlen.
  destruct groups as [|g1 [|g2 [|g3 [|g4 rest]]]]; simpl in *;
    rewrite ?length_app, ?length_nil in Hlen; simpl in Hlen; try lia.
  destruct Hwg as (H1 & H2 & H3). repeat f_equal; lia.
Qed.

(** C4. With a positive batch size [batchFetch] ends. The batches it hands
    to [Promise.all] are the input cut into consecutive groups of
    [batchSize] items (the last group may be shorter), so groups of 5, 5 and
    2 for twelve items and a batch size of 5; each group is started as a
    whole; the inter-batch delay is waited between two groups and not after
    the last. An item is in the result map, with its result, exactly when it
    is in the input and its fetch returned: an item whose fetch throws has no
    entry and takes no other item's entry away, so when only one of the
    items throws every other item is in the map. *)
Theorem batchFetch_groups_and_isolation fetchFn items (batchSize : nat) :
  (0 < batchSize)%nat →
  ∃ results events,
    batchFetch items fetchFn batchSize = Some (results, events)
    ∧ concat (batches events) = items
    ∧ well_grouped batchSize (batches events)
    ∧ events = delay_between (batches events)
    ∧ (batchSize = 5%nat → length items = 12%nat →
       map length (batches events) = [5; 5; 2]%nat)
    ∧ (∀ item r, results !! item = Some r ↔ item ∈ items ∧ fetchFn item = Return r)
    ∧ (∀ bad,
         (∀ item, item ∈ items → item ≠ bad → ∃ r, fetchFn item = Return r) →
         (∀ e, fetchFn bad = Throw e → results !! bad = None)
         ∧ (∀ item, item ∈ items → item ≠ bad → is_Some (results !! item))).
Proof.
  intros Hpos.
  destruct (batchFetch_loop_spec fetchFn items batchSize Hpos
              (S (length items)) 0%nat ∅ []) as (groups & Hrun & Hconcat & Hwg); [lia|].
  rewrite drop_0 in Hrun, Hconcat. simpl in Hrun.
  assert (Hlookup : ∀ item r,
            collect ∅ (map (fetch_item fetchFn) items) !! item = Some r
            ↔ item ∈ items ∧ fetchFn item = Return r).
  { intros item r. rewrite collect_lookup, lookup_empty.
    destruct (decide (item ∈ items)) as [Hin|Hnin].
    - rewrite (bool_decide_eq_true_2 _ Hin).
      destruct (fetchFn item) as [r'|e]; split.
      + intros [= ->]. auto.
      + intros [_ [= ->]]. reflexivity.
      + discriminate.
      + intros [_ [=]].
    - rewrite (bool_decide_eq_false_2 _ Hnin). split; [discriminate | tauto]. }
  eexists _, _. split; [exact Hrun|].
  rewrite batches_delay_between.
  split; [exact Hconcat|]. split; [exact Hwg|]. split; [reflexivity|].
  split; [|split].
  - intros -> Hlen. apply lengths_5_5_2; [exact Hwg | congruence].
  - exact Hlookup.
  - intros bad Hothers. split.
    + intros e Hbad.
      destruct (collect ∅ (map (fetch_item fetchFn) items) !! bad) as [r|] eqn:Hr;
        [|reflexivity].
      apply Hlookup in Hr as [_ Hr]. congruence.
    + intros item Hin Hne. destruct (Hothers item Hin Hne) as [r Hr].
      exists r. apply Hlookup. auto.
Qed.

End BatchFacts.

Lemma batchFetch_groups_and_isolation_witness :
  ∃ results events,
    batchFetch twelve seventh_fails 5 = Some (results, events)
    ∧ map length (batches events) = [5; 5; 2]%nat
    ∧ results !! 7%nat = None
    ∧ (∀ item, item ∈ twelve → item ≠ 7%nat → is_Some (results !! item)).
Proof.
  destruct (batchFetch_groups_and_isolation seventh_fails twelve 5)
    as (results & events & Hrun & _ & _ & _ & Hlengths & _ & Hisolated); [lia|].
  assert (Hothers : ∀ item, item ∈ twelve → item ≠ 7%nat →
                    ∃ r, seventh_fails item = Return r).
  { intros item _ Hne. exists (10 * item)%nat. unfold seventh_fails.
    rewrite bool_decide_eq_false_2 by exact Hne. reflexivity. }
  destruct (Hisolated 7%nat Hothers) as [Hbad Hrest].
  exists results, events. split; [exact Hrun|]. split; [|split].
  - apply Hlengths; reflexivity.
  - apply (Hbad "Error"). reflexivity.
  - exact Hrest.
Defined.

(** ** Request queue *)

Section QueueFacts.
Context {V : Type}.
Implicit Types (s : Scheduler V) (u : QueuedUnit V) (inputs : list (Input V)).

Lemma flat_map_service_snoc (served : list (QueuedUnit V)) u :
  flat_map service (served ++ [u]) = flat_map service served ++ service u.
Proof. rewrite flat_map_app. reflexivity. Qed.

Lemma consistent_idle : consistent (V := V) [] [] idle.
Proof. unfold consistent. simpl. auto. Qed.

(** Enqueueing keeps the state consistent, with the new unit last. *)
Lemma consistent_queueRequest (all served : list (QueuedUnit V)) s u :
  consistent all served s →
  consistent (all ++ [u]) served (queueRequest u s)
  ∧ remaining (queueRequest u s) = (remaining s + 2)%nat.
Proof.
  unfold consistent, queueRequest, processQueue, remaining.
  destruct s as [queue flag w tr]; simpl.
  destruct w as [|u0|]; simpl.
  - intros (-> & -> & -> & ->). simpl. split; [auto | reflexivity].
  - intros (-> & -> & ->). simpl. rewrite length_app. simpl.
    split; [|lia]. rewrite <- app_assoc. auto.
  - intros (Hne & -> & -> & ->). simpl. rewrite length_app. simpl.
    split; [|lia]. rewrite <- app_assoc. auto.
Qed.

(** Resuming the worker keeps the state consistent and brings the drain one
    step closer. *)
Lemma consistent_resume (all served : list (QueuedUnit V)) s :
  consistent all served s →
  ∃ served', consistent all served' (resume s)
             ∧ remaining (resume s) = pred (remaining s).
Proof.
  unfold consistent, resume, loop_head, remaining.
  destruct s as [queue flag w tr]; simpl.
  destruct w as [|u0|]; simpl.
  - intros Hs. exists served. auto.
  - intros (-> & -> & ->). exists (served ++ [u0]). simpl.
    rewrite flat_map_service_snoc, <- !app_assoc. simpl.
    split; [|lia]. split; [|auto]. destruct served; discriminate.
  - intros (Hne & -> & -> & ->). destruct queue as [|u queue]; simpl.
    + exists served. rewrite app_nil_r. auto.
    + exists served. split; [auto | lia].
Qed.

Lemma consistent_step (all served : list (QueuedUnit V)) s (i : Input V) :
  consistent all served s →
  ∃ served', consistent (all ++ enqueued [i]) served' (step s i).
Proof.
  intros Hs. destruct i as [u|]; simpl.
  - exists served. apply consistent_queueRequest, Hs.
  - rewrite app_nil_r.
    destruct (consistent_resume all served s Hs) as (served' & Hs' & _). eauto.
Qed.

Lemma enqueued_app inputs inputs' :
  enqueued (inputs ++ inputs') = enqueued inputs ++ enqueued inputs'.
Proof. unfold enqueued. apply omap_app. Qed.

Lemma consistent_run inputs (all served : list (QueuedUnit V)) s :
  consistent all served s →
  ∃ served', consistent (all ++ enqueued inputs) served' (run inputs s).
Proof.
  revert all served s. induction inputs as [|i inputs IH]; intros all served s Hs.
  - exists served. simpl. rewrite app_nil_r. exact Hs.
  - destruct (consistent_step all served s i Hs) as (served1 & Hs1).
    destruct (IH _ _ _ Hs1) as (served' & Hs').
    exists served'. change (i :: inputs) with ([i] ++ inputs).
    rewrite enqueued_app, app_assoc. exact Hs'.
Qed.





End QueueFacts.


(** ** Round trips and frames of the cache store *)

Section CacheRoundTrips.
Context `{Runtime}.

(** What a read returns depends on the entry under the key in the in-memory
    tier, on the text under the key in the persistent tier, and on the clock. *)
Lemma getFromCache_fst_ext (key : string) (w w' : World) :
  memoryCache w !! key = memoryCache w' !! key →
  getItem key (localStorage w) = getItem key (localStorage w') →
  now w = now w' →
  fst (getFromCache key w) = fst (getFromCache key w').
Proof.
  intros Hmem Hitem Hnow. unfold getFromCache, getFromStorage, fresh.
  rewrite <- Hmem, <- Hitem, <- Hnow.
  destruct (memoryCache w !! key) as [e|].
  - destruct (_ <? _); [reflexivity|].
    destruct (getItem key (localStorage w)) as [[cached|]|]; try reflexivity.
    destruct (truthy cached); [|reflexivity].
    destruct (JSON_parse cached) as [|entry|]; try reflexivity.
    destruct (_ <? _); reflexivity.
  - destruct (getItem key (localStorage w)) as [[cached|]|]; try reflexivity.
    destruct (truthy cached); [|reflexivity].
    destruct (JSON_parse cached) as [|entry|]; try reflexivity.
    destruct (_ <? _); reflexivity.
Qed.

Lemma saveToCache_getItem_other (key key' : string) (d : Payload) (w : World) :
  key' ≠ key →
  getItem key' (localStorage (saveToCache key d w)) = getItem key' (localStorage w).
Proof.
  intros Hne. unfold saveToCache. simpl.
  destruct (localStorage w) as [|items full]; [reflexivity|].
  simpl. destruct full; simpl; [reflexivity|].
  rewrite lookup_insert_ne by congruence. reflexivity.
Qed.

(** X1. What [saveToCache] wrote is what [getFromCache] returns for the same
    key during the next 24 hours, whatever the state of [localStorage]
    (working, full or unavailable), and the read changes nothing. *)
Theorem saveToCache_then_getFromCache (key : string) (d : Payload) (w : World)
  (dt : Z) :
  dt < CACHE_TTL →
  getFromCache key (advance dt (saveToCache key d w))
  = (Some d, advance dt (saveToCache key d w)).
Proof.
  intros Hdt.
  apply (getFromCache_memory_hit key _ {| data := d; timestamp := now w |}).
  - simpl. apply lookup_insert_eq.
  - apply fresh_advance. simpl. lia.
Qed.

(** X2. The persistent tier carries an entry over a page reload: when
    [localStorage] is working and not full and [JSON.parse] reads back what
    [JSON.stringify] wrote for the entry, a session that starts with an empty
    in-memory map less than 24 hours after the write reads the saved value
    and promotes the entry to its in-memory map. *)
Theorem saveToCache_survives_reload (key : string) (d : Payload) (w : World)
  (items : gmap string string) (dt : Z) :
  let entry := {| data := d; timestamp := now w |} in
  localStorage w = Available items false →
  JSON_stringify entry ≠ "" →
  JSON_parse (JSON_stringify entry) = ParsedEntry entry →
  dt < CACHE_TTL →
  let reloaded := advance dt (new_session (saveToCache key d w)) in
  getFromCache key reloaded
  = (Some d, set_memoryCache (insert key entry) reloaded).
Proof.
  intros entry Hls Hne Hparse Hdt reloaded.
  unfold getFromCache, reloaded. simpl. rewrite lookup_empty.
  unfold getFromStorage. simpl. rewrite Hls. simpl. rewrite lookup_insert_eq.
  apply truthy_true in Hne. fold entry. rewrite Hne, Hparse.
  unfold fresh. simpl.
  replace (now w + dt - now w <? CACHE_TTL) with true
    by (symmetry; apply Z.ltb_lt; lia).
  reflexivity.
Qed.

(** X3. [saveToCache] touches one key: under every other key both tiers hold
    what they held, and a read of another key returns what it returned
    before; when [localStorage] is full or unavailable the persistent tier is
    left exactly as it was and the write still succeeds in memory. *)
Theorem saveToCache_frame (key : string) (d : Payload) (w : World) :
  (∀ key', key' ≠ key →
     memoryCache (saveToCache key d w) !! key' = memoryCache w !! key'
     ∧ stored (localStorage (saveToCache key d w)) !! key'
       = stored (localStorage w) !! key'
     ∧ fst (getFromCache key' (saveToCache key d w)) = fst (getFromCache key' w))
  ∧ (localStorage w = Unavailable ∨ (∃ items, localStorage w = Available items true) →
     localStorage (saveToCache key d w) = localStorage w)
  ∧ memoryCache (saveToCache key d w) !! key
    = Some {| data := d; timestamp := now w |}
  ∧ now (saveToCache key d w) = now w
  ∧ log (saveToCache key d w) = log w.
Proof.
  split; [|split; [|split; [|split]]]; try reflexivity.
  - intros key' Hne. split; [|split].
    + unfold saveToCache. simpl. apply lookup_insert_ne. congruence.
    + unfold saveToCache. simpl.
      destruct (localStorage w) as [|items full]; [reflexivity|].
      simpl. destruct full; simpl; [reflexivity|].
      apply lookup_insert_ne. congruence.
    + apply getFromCache_fst_ext.
      * unfold saveToCache. simpl. apply lookup_insert_ne. congruence.
      * apply saveToCache_getItem_other. exact Hne.
      * reflexivity.
  - intros [Hls|[items Hls]]; unfold saveToCache; simpl; rewrite Hls; reflexivity.
  - apply saveToCache_memory.
Qed.

End CacheRoundTrips.

Lemma saveToCache_then_getFromCache_witness :
  fst (getFromCache (H := old_runtime) details_key
         (advance 1000 (saveToCache (H := old_runtime) details_key (data old_entry)
                          (cold Unavailable 0))))
  = Some (data old_entry).
Proof.
  rewrite (saveToCache_then_getFromCache (H := old_runtime) details_key
             (data old_entry) (cold Unavailable 0) 1000).
  - reflexivity.
  - vm_compute. reflexivity.
Defined.

Lemma saveToCache_survives_reload_witness :
  fst (getFromCache (H := old_runtime) details_key
         (advance 1000
            (new_session (saveToCache (H := old_runtime) details_key (data old_entry)
                            (cold (Available ∅ false) 0)))))
  = Some (data old_entry).
Proof.
  rewrite (saveToCache_survives_reload (H := old_runtime) details_key
             (data old_entry) (cold (Available ∅ false) 0) ∅ 1000).
  - reflexivity.
  - reflexivity.
  - vm_compute. discriminate.
  - reflexivity.
  - vm_compute. reflexivity.
Defined.

Lemma saveToCache_frame_witness :
  stored (localStorage (saveToCache (H := old_runtime) "tmdb_cache_other"
                          (data old_entry) stale_world)) !! details_key
  = Some "entry@0"
  ∧ localStorage (saveToCache (H := old_runtime) details_key (data old_entry)
                    (cold (Available {[ "theme" := "dark" ]} true) 0))
    = Available {[ "theme" := "dark" ]} true.
Proof.
  split.
  - destruct (saveToCache_frame (H := old_runtime) "tmdb_cache_other"
                (data old_entry) stale_world) as (Hother & _).
    destruct (Hother details_key) as (_ & Hstored & _).
    + vm_compute. discriminate.
    + rewrite Hstored. vm_compute. reflexivity.
  - apply (saveToCache_frame (H := old_runtime) details_key (data old_entry)
             (cold (Available {[ "theme" := "dark" ]} true) 0)).
    right. eexists. reflexivity.
Defined.

(** ** Cache keys *)

Lemma pretty_N_char_numeric (x : N) : numeric_char (pretty_N_char x) = true.
Proof. unfold pretty_N_char. repeat case_match; reflexivity. Qed.

Lemma pretty_N_go_numeric (x : N) (s : string) :
  all_chars numeric_char s = true →
  all_chars numeric_char (pretty_N_go x s) = true.
Proof.
  revert s. induction (N.lt_wf_0 x) as [x _ IH]; intros s Hs.
  assert (x = 0 ∨ 0 < x)%N as [->|Hpos] by lia.
  - rewrite pretty_N_go_0. exact Hs.
  - rewrite pretty_N_go_step by exact Hpos. apply IH.
    + apply N.div_lt; lia.
    + simpl. rewrite pretty_N_char_numeric. exact Hs.
Qed.

Lemma pretty_N_numeric (x : N) : all_chars numeric_char (pretty x) = true.
Proof.
  unfold pretty, pretty_N. case_decide; [reflexivity|].
  apply pretty_N_go_numeric. reflexivity.
Qed.

(** A printed integer consists of digits and a possible minus sign. *)
Lemma pretty_Z_numeric (z : Z) : all_chars numeric_char (pretty z) = true.
Proof.
  destruct z as [|p|p]; unfold pretty, pretty_Z.
  - reflexivity.
  - apply pretty_N_numeric.
  - simpl. apply pretty_N_numeric.
Qed.

Lemma numeric_not_all (s : string) : all_chars numeric_char s = true → s ≠ "all".
Proof. intros Hs ->. vm_compute in Hs. discriminate. Qed.

(** Two texts that are cut at their first underscore and agree as a whole
    agree part by part. *)
Lemma split_at_first_underscore (a a' b b' : string) :
  all_chars numeric_char a = true → all_chars numeric_char a' = true →
  a +:+ "_" +:+ b = a' +:+ "_" +:+ b' → a = a' ∧ b = b'.
Proof.
  revert a'. induction a as [|c a IH]; intros [|c' a'] Ha Ha' Heq.
  - injection Heq as Heq. auto.
  - injection Heq as Hc _. subst c'. vm_compute in Ha'. discriminate.
  - injection Heq as Hc _. subst c. vm_compute in Ha. discriminate.
  - injection Heq as Hc Heq. subst c'. simpl in Ha, Ha'.
    apply andb_true_iff in Ha as [_ Ha]. apply andb_true_iff in Ha' as [_ Ha'].
    destruct (IH a' Ha Ha' Heq) as [-> ->]. auto.
Qed.

(** The same for texts cut at their last underscore. *)
Lemma split_at_last_underscore (a a' b b' : string) :
  all_chars numeric_char b = true → all_chars numeric_char b' = true →
  a +:+ "_" +:+ b = a' +:+ "_" +:+ b' → a = a' ∧ b = b'.
Proof.
  assert (Hno : ∀ x y : string,
            all_chars numeric_char (x +:+ "_" +:+ y) = true → False).
  { induction x as [|c x IH]; intros y; simpl.
    - intros Hx. vm_compute in Hx. discriminate.
    - intros [_ Hx]%andb_true_iff. exact (IH y Hx). }
  revert a'. induction a as [|c a IH]; intros [|c' a'] Hb Hb' Heq.
  - injection Heq as Heq. auto.
  - injection Heq as _ Heq. change ("" +:+ b) with b in Heq. subst b.
    destruct (Hno _ _ Hb).
  - injection Heq as _ Heq. change ("" +:+ b') with b' in Heq. subst b'.
    destruct (Hno _ _ Hb').
  - injection Heq as Hc Heq. subst c'.
    destruct (IH a' Hb Hb' Heq) as [-> ->]. auto.
Qed.

(** X4. Cache keys identify what is cached. Two movie ids share a details
    key only when they are equal; two discover calls share a page key
    exactly when they send the same request to the provider (an absent genre
    and genre 0 both mean no filter); two searches share a key only for the
    same query and page; and keys of the three namespaces never coincide, so
    a reader never finds a value of another shape under its key. *)
Theorem cache_keys_identify_requests :
  (∀ a b : Z,
     getCacheKey "movie_details" (pretty a) = getCacheKey "movie_details" (pretty b)
     → a = b)
  ∧ (∀ page page' genreId genreId' sortBy,
       discover_key page genreId = discover_key page' genreId'
       ↔ discover_params page genreId sortBy
         = discover_params page' genreId' sortBy)
  ∧ (∀ query query' page page',
       search_key query page = search_key query' page'
       → query = query' ∧ page = page')
  ∧ (∀ (id : Z) page genreId query page',
       getCacheKey "movie_details" (pretty id) ≠ discover_key page genreId
       ∧ getCacheKey "movie_details" (pretty id) ≠ search_key query page'
       ∧ discover_key page genreId ≠ search_key query page').
Proof.
  split; [|split; [|split]].
  - intros a b Heq. unfold getCacheKey in Heq.
    do 3 apply (inj (String.app _)) in Heq. exact (inj pretty _ _ Heq).
  - intros page page' genreId genreId' sortBy.
    assert (Hgenre : ∀ g : option Z,
              all_chars numeric_char (if_number g pretty "all") = true
              ∨ if_number g pretty "all" = "all"
                ∧ if_number g (fun z => [("with_genres", pretty z)]) []
                  = @nil (string * string)).
    { intros [z|]; simpl; [|auto]. destruct (z =? 0); [auto|].
      left. apply pretty_Z_numeric. }
    assert (Hsome : ∀ g : option Z,
              all_chars numeric_char (if_number g pretty "all") = true →
              ∃ z : Z, if_number g pretty "all" = pretty z
                   ∧ if_number g (fun z => [("with_genres", pretty z)]) []
                     = [("with_genres", pretty z)]).
    { intros [z|]; simpl; [|intros Hn; vm_compute in Hn; discriminate].
      destruct (z =? 0); [intros Hn; vm_compute in Hn; discriminate|]. eauto. }
    unfold discover_key, getCacheKey, discover_params. split.
    + intros Heq. do 3 apply (inj (String.app _)) in Heq.
      apply split_at_first_underscore in Heq as [Hpage Hg];
        try apply pretty_Z_numeric.
      apply (inj pretty) in Hpage as ->. f_equal.
      destruct (Hgenre genreId) as [Hn|[Hall Hnil]];
        destruct (Hgenre genreId') as [Hn'|[Hall' Hnil']].
      * destruct (Hsome _ Hn) as (z & Hz & ->).
        destruct (Hsome _ Hn') as (z' & Hz' & ->). congruence.
      * rewrite Hg, Hall' in Hn. vm_compute in Hn. discriminate.
      * rewrite <- Hg, Hall in Hn'. vm_compute in Hn'. discriminate.
      * congruence.
    + intros Heq. injection Heq as Hpage Hg. rewrite Hpage. do 5 f_equal.
      destruct (Hgenre genreId) as [Hn|[Hall Hnil]];
        destruct (Hgenre genreId') as [Hn'|[Hall' Hnil']].
      * destruct (Hsome _ Hn) as (z & Hz & Hp).
        destruct (Hsome _ Hn') as (z' & Hz' & Hp'). congruence.
      * destruct (Hsome _ Hn) as (z & Hz & Hp). congruence.
      * destruct (Hsome _ Hn') as (z' & Hz' & Hp'). congruence.
      * congruence.
  - intros query query' page page' Heq. unfold search_key, getCacheKey in Heq.
    do 3 apply (inj (String.app _)) in Heq.
    apply split_at_last_underscore in Heq as [-> Hpage];
      try apply pretty_Z_numeric.
    split; [reflexivity | exact (inj pretty _ _ Hpage)].
  - intros id page genreId query page'.
    unfold discover_key, search_key, getCacheKey. repeat split; discriminate.
Qed.

Lemma cache_keys_identify_requests_witness :
  discover_key 3 None = discover_key 3 (Some 0)
  ∧ discover_key 1 (Some 28) ≠ discover_key 12 (Some 8).
Proof.
  destruct cache_keys_identify_requests as (_ & Hdiscover & _).
  split.
  - apply (Hdiscover 3 3 None (Some 0) "popularity.desc"). reflexivity.
  - intros Heq. apply (Hdiscover 1 12 (Some 28) (Some 8) "popularity.desc") in Heq.
    vm_compute in Heq. discriminate.
Defined.

(** ** Search *)

Lemma in_eighties_spec (year : JSNumber) :
  in_eighties year = true ↔ ∃ y, year = Num y ∧ 1980 ≤ y ≤ 1989.
Proof.
  destruct year as [|y]; simpl.
  - split; [discriminate | intros (y & Hy & _); discriminate].
  - rewrite andb_true_iff, !Z.leb_le. split.
    + intros Hy. eauto.
    + intros (y' & [= <-] & Hy). exact Hy.
Qed.

Lemma filter_sublist {A} (f : A → bool) (l : list A) :
  List.filter f l `sublist_of` l.
Proof.
  induction l as [|x l IH]; simpl.
  - constructor.
  - destruct (f x); [apply sublist_skip | apply sublist_cons]; exact IH.
Qed.

Section SearchFacts.
Context `{Runtime}.

(** What [searchMovies] resolves to on a successful response. *)
Lemma searchMovies_ok (query : string) (page : Z)
  (reply : Reply TMDBMovieResponse.t) (w : World) (response : TMDBMovieResponse.t) :
  outcome reply = Ok response →
  searchMovies query page reply w
  = (Return {| TMDBMovieResponse.page := TMDBMovieResponse.page response;
               TMDBMovieResponse.results :=
                 List.filter
                   (fun movie =>
                      in_eighties (Date_getFullYear (TMDBMovie.release_date movie)))
                   (TMDBMovieResponse.results response);
               TMDBMovieResponse.total_pages := TMDBMovieResponse.total_pages response;
               TMDBMovieResponse.total_results :=
                 TMDBMovieResponse.total_results response |},
     advance (elapsed reply)
       (emit (EvFetch "/search/movie" (search_params query page)) w)).
Proof.
  intros Hok. unfold searchMovies, bind, fetchTMDB, ret. rewrite Hok. reflexivity.
Qed.

(** X5. [searchMovies] sends one request, outside the queue, and on success
    keeps, in the provider's order, exactly the provider's results for which
    the runtime's [new Date(release_date).getFullYear()] is a number from
    1980 to 1989; a result for which it is [NaN] is dropped. The criterion
    is the year the runtime computes, in its own time zone, and not the year
    written in the date. The totals of the response are passed on as
    received, they are not recounted after the filtering. *)
Theorem searchMovies_filters_eighties (query : string) (page : Z)
  (reply : Reply TMDBMovieResponse.t) (w : World) (response : TMDBMovieResponse.t) :
  outcome reply = Ok response →
  ∃ filtered,
    fst (searchMovies query page reply w) = Return filtered
    ∧ (∀ movie, movie ∈ TMDBMovieResponse.results filtered ↔
         movie ∈ TMDBMovieResponse.results response
         ∧ ∃ y, Date_getFullYear (TMDBMovie.release_date movie) = Num y
                ∧ 1980 ≤ y ≤ 1989)
    ∧ TMDBMovieResponse.results filtered `sublist_of` TMDBMovieResponse.results response
    ∧ (∀ movie, Date_getFullYear (TMDBMovie.release_date movie) = NaN →
         movie ∉ TMDBMovieResponse.results filtered)
    ∧ TMDBMovieResponse.total_pages filtered = TMDBMovieResponse.total_pages response
    ∧ TMDBMovieResponse.total_results filtered
      = TMDBMovieResponse.total_results response
    ∧ log (snd (searchMovies query page reply w))
      = log w ++ [EvFetch "/search/movie" (search_params query page)].
Proof.
  intros Hok. rewrite (searchMovies_ok _ _ _ _ _ Hok). simpl.
  eexists. split; [reflexivity|]. simpl.
  assert (Hmem : ∀ movie,
            movie ∈ List.filter
                      (fun movie =>
                         in_eighties (Date_getFullYear (TMDBMovie.release_date movie)))
                      (TMDBMovieResponse.results response)
            ↔ movie ∈ TMDBMovieResponse.results response
              ∧ ∃ y, Date_getFullYear (TMDBMovie.release_date movie) = Num y
                     ∧ 1980 ≤ y ≤ 1989).
  { intros movie. rewrite !list_elem_of_In, filter_In, in_eighties_spec.
    reflexivity. }
  split; [exact Hmem|]. split; [|split; [|auto]].
  - apply filter_sublist.
  - intros movie Hnan [_ (y & Hy & _)]%Hmem. congruence.
Qed.

(** X6. Every movie of a page that [searchMoviesBasic] fetched from the
    provider has a year from 1980 to 1989 (the runtime's Invalid Date for the
    empty string being what lets the filter of [searchMovies] and the year of
    [transformTMDBMovie] agree), and there are no more movies than the
    provider returned results. *)
Theorem searchMoviesBasic_years (query : string) (page : Z) (genreMap : gmap Z string)
  (reply : Reply TMDBMovieResponse.t) (random : nat → Q) (w : World)
  (response : TMDBMovieResponse.t) (p : Payload) :
  Date_getFullYear "" = NaN →
  outcome reply = Ok response →
  fst (searchMoviesBasic_miss query page genreMap reply random w) = Return p →
  (∀ movie, movie ∈ page_movies p →
     ∃ y, Movie.year movie = Num y ∧ 1980 ≤ y ≤ 1989)
  ∧ (length (page_movies p) ≤ length (TMDBMovieResponse.results response))%nat.
Proof.
  intros Hempty Hok. unfold searchMoviesBasic_miss, bind.
  rewrite (searchMovies_ok _ _ _ _ _ Hok). simpl.
  set (kept := List.filter _ (TMDBMovieResponse.results response)).
  assert (Hkept : ∀ m, m ∈ kept →
            ∃ y, Date_getFullYear (TMDBMovie.release_date m) = Num y
                 ∧ 1980 ≤ y ≤ 1989).
  { intros m [_ Hm]%list_elem_of_In%filter_In. apply in_eighties_spec, Hm. }
  assert (Hlen : (length kept ≤ length (TMDBMovieResponse.results response))%nat).
  { apply filter_length_le. }
  destruct kept as [|m0 kept'] eqn:Hk; cbn [fst].
  - intros [= <-]. simpl. split; [intros movie []%elem_of_nil | lia].
  - intros [= <-]. rewrite <- Hk in *. unfold basic_page, page_movies.
    cbn [Page.movies TMDBMovieResponse.results]. split.
    + intros movie (i & m & -> & Hm)%elem_of_lookup_imap.
      destruct (Hkept m) as (y & Hy & Hrange).
      { apply list_elem_of_lookup. eauto. }
      exists y. split; [|exact Hrange]. simpl.
      destruct (TMDBMovie.release_date m) eqn:Hdate; simpl.
      * congruence.
      * exact Hy.
    + rewrite length_imap. exact Hlen.
Qed.

(** X7. A search page none of whose results is from the 1980s comes back as
    the empty page with zero total pages and zero total results, whatever
    totals the provider reported, and nothing is written to the cache. *)
Theorem searchMoviesBasic_all_filtered (query : string) (page : Z)
  (genreMap : gmap Z string) (reply : Reply TMDBMovieResponse.t) (random : nat → Q)
  (w : World) (response : TMDBMovieResponse.t) :
  outcome reply = Ok response →
  (∀ movie, movie ∈ TMDBMovieResponse.results response →
     in_eighties (Date_getFullYear (TMDBMovie.release_date movie)) = false) →
  let after := searchMoviesBasic_miss query page genreMap reply random w in
  fst after = Return (PPage {| Page.movies := []; Page.totalPages := 0;
                               Page.totalResults := 0 |})
  ∧ memoryCache (snd after) = memoryCache w
  ∧ localStorage (snd after) = localStorage w.
Proof.
  intros Hok Hnone. unfold searchMoviesBasic_miss, bind.
  rewrite (searchMovies_ok _ _ _ _ _ Hok). simpl.
  replace (List.filter _ (TMDBMovieResponse.results response))
    with (@nil TMDBMovie.t); [simpl; auto|].
  symmetry. induction (TMDBMovieResponse.results response) as [|m l IH]; simpl.
  - reflexivity.
  - rewrite (Hnone m) by left. apply IH. intros movie Hin. apply Hnone.
    right. exact Hin.
Qed.

(** X8. When a search is answered by the provider with at least one result
    from the 1980s, a second call with the same query and page made less than
    24 hours later returns the page of the first call from the cache: the two
    calls send one request. *)
Theorem searchMoviesBasic_second_call_cached (query : string) (page : Z)
  (genreMap : gmap Z string) (reply reply' : Reply TMDBMovieResponse.t)
  (random random' : nat → Q) (w : World) (response : TMDBMovieResponse.t)
  (movie : TMDBMovie.t) (dt : Z) :
  cache_hit (fst (getFromCache (search_key query page) w)) = false →
  outcome reply = Ok response →
  movie ∈ TMDBMovieResponse.results response →
  in_eighties (Date_getFullYear (TMDBMovie.release_date movie)) = true →
  dt < CACHE_TTL →
  let first := searchMoviesBasic query page genreMap reply random w in
  let second :=
    searchMoviesBasic query page genreMap reply' random' (advance dt (snd first)) in
  (∃ p, fst first = Return p ∧ fst second = Return p ∧ page_movies p ≠ [])
  ∧ log (snd first) = log w ++ [EvFetch "/search/movie" (search_params query page)]
  ∧ log (snd second) = log (snd first).
Proof.
  intros Hmiss Hok Hin Hyear Hdt first second.
  set (w0 := snd (getFromCache (search_key query page) w)).
  assert (Hfirst0 : first = searchMoviesBasic_miss query page genreMap reply random w0).
  { unfold first, searchMoviesBasic, w0.
    destruct (getFromCache (search_key query page) w) as [[cached|] w1]; simpl in *.
    - rewrite Hmiss. reflexivity.
    - reflexivity. }
  unfold searchMoviesBasic_miss, bind in Hfirst0.
  rewrite (searchMovies_ok _ _ _ _ _ Hok) in Hfirst0. simpl in Hfirst0.
  set (kept := List.filter _ (TMDBMovieResponse.results response)) in Hfirst0.
  assert (Hkept : movie ∈ kept).
  { apply list_elem_of_In, filter_In. split; [apply list_elem_of_In, Hin | exact Hyear]. }
  destruct kept as [|m0 kept'] eqn:Hk; [apply elem_of_nil in Hkept; contradiction|].
  match type of Hfirst0 with
  | first = (Return ?p, saveToCache ?k ?p ?w') =>
      set (result := p) in *; set (w1 := w') in *
  end.
  assert (Hsecond : second = (Return result, advance dt (snd first))).
  { unfold second, searchMoviesBasic.
    rewrite (getFromCache_memory_hit _ _ {| data := result; timestamp := now w1 |}).
    - reflexivity.
    - rewrite Hfirst0. simpl. apply lookup_insert_eq.
    - apply fresh_advance. rewrite Hfirst0. simpl. lia. }
  split; [|split].
  - exists result. rewrite Hfirst0, Hsecond. repeat split. discriminate.
  - rewrite Hfirst0. simpl. unfold w0.
    rewrite (proj2 (getFromCache_clock_log (search_key query page) w)). reflexivity.
  - rewrite Hsecond. reflexivity.
Qed.

End SearchFacts.

Lemma searchMovies_filters_eighties_witness :
  ∃ filtered,
    fst (searchMovies (H := reference_runtime []) "alien" 1 mixed_search
           (cold Unavailable 0)) = Return filtered
    ∧ aliens_1986 ∈ TMDBMovieResponse.results filtered
    ∧ (undated ∉ TMDBMovieResponse.results filtered)
    ∧ TMDBMovieResponse.total_results filtered = 55.
Proof.
  destruct (searchMovies_filters_eighties (H := reference_runtime []) "alien" 1
              mixed_search (cold Unavailable 0)
              (sample_response [alien_1979; aliens_1986; undated]))
    as (filtered & Hret & Hmem & _ & Hnan & _ & Htotal & _).
  { reflexivity. }
  exists filtered. split; [exact Hret|]. split; [|split].
  - apply Hmem. split.
    + right. left.
    + exists 1986. split; [reflexivity | lia].
  - apply Hnan. reflexivity.
  - rewrite Htotal. reflexivity.
Defined.

Lemma searchMoviesBasic_years_witness :
  Forall (fun movie => ∃ y, Movie.year movie = Num y ∧ 1980 ≤ y ≤ 1989)
    (page_movies
       (basic_page (H := reference_runtime []) sample_genres (fun _ => 1 # 2)
          (sample_response [aliens_1986]))).
Proof.
  apply Forall_forall.
  apply (searchMoviesBasic_years (H := reference_runtime []) "alien" 1 sample_genres
           mixed_search (fun _ => 1 # 2) (cold Unavailable 0)
           (sample_response [alien_1979; aliens_1986; undated])).
  - reflexivity.
  - reflexivity.
  - vm_compute. reflexivity.
Defined.

Lemma searchMoviesBasic_all_filtered_witness :
  fst (searchMoviesBasic_miss (H := reference_runtime []) "alien" 1 sample_genres
         seventies_search (fun _ => 1 # 2) (cold (Available ∅ false) 0))
  = Return (PPage {| Page.movies := []; Page.totalPages := 0;
                     Page.totalResults := 0 |}).
Proof.
  apply (searchMoviesBasic_all_filtered (H := reference_runtime []) "alien" 1
           sample_genres seventies_search (fun _ => 1 # 2)
           (cold (Available ∅ false) 0) (sample_response [alien_1979])).
  - reflexivity.
  - intros movie Hin. apply elem_of_cons in Hin as [->|Hin].
    + reflexivity.
    + apply elem_of_nil in Hin. contradiction.
Defined.

Lemma searchMoviesBasic_second_call_cached_witness :
  let first :=
    searchMoviesBasic (H := reference_runtime []) "alien" 1 sample_genres mixed_search
      (fun _ => 1 # 2) (cold (Available ∅ false) 0) in
  let second :=
    searchMoviesBasic (H := reference_runtime []) "alien" 1 sample_genres mixed_search
      (fun _ => 1 # 20) (advance 5000 (snd first)) in
  log (snd second) = [EvFetch "/search/movie" (search_params "alien" 1)].
Proof.
  intros first second.
  destruct (searchMoviesBasic_second_call_cached (H := reference_runtime [])
              "alien" 1 sample_genres mixed_search mixed_search
              (fun _ => 1 # 2) (fun _ => 1 # 20) (cold (Available ∅ false) 0)
              (sample_response [alien_1979; aliens_1986; undated]) aliens_1986 5000)
    as (_ & Hlog1 & Hlog2).
  - vm_compute. reflexivity.
  - reflexivity.
  - right. left.
  - reflexivity.
  - vm_compute. reflexivity.
  - fold first in Hlog1, Hlog2. fold second in Hlog2.
    rewrite Hlog2, Hlog1. reflexivity.
Defined.

(** ** Failures *)

Section FailureFacts.
Context `{Runtime}.

(** X9. A page fetch that the provider does not answer with a 2xx response
    rejects with the error of the request (for a status, the message "TMDB
    API error: <status> <statusText>"), after one request and without
    writing to the cache, so that the next call asks the provider again. *)
Theorem fetchMoviesBasic_failure (page : Z) (genreId : option Z)
  (genreMap : gmap Z string) (reply : Reply TMDBMovieResponse.t) (random : nat → Q)
  (w : World) :
  cache_hit (fst (getFromCache (discover_key page genreId) w)) = false →
  request_failed reply = true →
  let after := fetchMoviesBasic page genreId genreMap reply random w in
  (∃ e, fst after = Throw e
        ∧ ∀ status statusText, outcome reply = HttpError status statusText →
            e = "TMDB API error: " +:+ pretty status +:+ " " +:+ statusText)
  ∧ same_caches (snd after) (snd (getFromCache (discover_key page genreId) w))
  ∧ log (snd after)
    = log w ++ [EvFetch "/discover/movie"
                  (discover_params page genreId "popularity.desc")].
Proof.
  intros Hmiss Hfail after. unfold after.
  rewrite fetchMoviesBasic_on_miss by exact Hmiss.
  split; [|split].
  - unfold fetchMoviesBasic_miss, bind, discoverMovies, fetchTMDB.
    unfold request_failed in Hfail.
    destruct (outcome reply) as [response|status statusText|]; [discriminate|..].
    + eexists. split; [reflexivity|]. intros ? ? [= <- <-]. reflexivity.
    + eexists. split; [reflexivity|]. discriminate.
  - unfold fetchMoviesBasic_miss, bind, discoverMovies, fetchTMDB, same_caches.
    unfold request_failed in Hfail.
    destruct (outcome reply); [discriminate|..]; simpl; auto.
  - rewrite fetchMoviesBasic_miss_log.
    rewrite (proj2 (getFromCache_clock_log _ w)). reflexivity.
Qed.

(** A failing details fetch rejects and writes nothing. *)
Lemma getMovieDetails_miss_fails (movieId : Z)
  (reply : Reply TMDBMovieDetailsWithReleaseDates.t) (w : World) :
  details_fetch_fails reply = true →
  (∃ e, fst (getMovieDetailsWithCertification_miss movieId reply w) = Throw e)
  ∧ same_caches (snd (getMovieDetailsWithCertification_miss movieId reply w)) w.
Proof.
  unfold details_fetch_fails, getMovieDetailsWithCertification_miss, bind,
    fetchTMDBQueued, fetchTMDB, same_caches.
  destruct (outcome reply) as [response| |]; simpl.
  - destruct (extractUSCertification _); [discriminate|]. simpl. eauto.
  - eauto.
  - eauto.
Qed.

(** A details fetch that does not fail returns the record built from the
    response and caches it. *)
Lemma getMovieDetails_miss_succeeds (movieId : Z)
  (reply : Reply TMDBMovieDetailsWithReleaseDates.t) (w : World) :
  details_fetch_fails reply = false →
  ∃ response certification,
    outcome reply = Ok response
    ∧ extractUSCertification (TMDBMovieDetailsWithReleaseDates.release_dates response)
      = Return certification
    ∧ getMovieDetailsWithCertification_miss movieId reply w
      = (Return (PDetails (details_of response certification)),
         saveToCache (getCacheKey "movie_details" (pretty movieId))
           (PDetails (details_of response certification))
           (advance (elapsed reply)
              (emit (EvFetch ("/movie/" +:+ pretty movieId)
                       [("append_to_response", "release_dates");
                        ("language", "en-US")])
                 (emit EvQueue w)))).
Proof.
  unfold details_fetch_fails, getMovieDetailsWithCertification_miss, bind,
    fetchTMDBQueued, fetchTMDB.
  destruct (outcome reply) as [response| |]; try discriminate.
  destruct (extractUSCertification _) as [certification|] eqn:Hcert;
    [|discriminate].
  intros _. exists response, certification. auto.
Qed.

Lemma getMovieDetails_on_miss (movieId : Z)
  (reply : Reply TMDBMovieDetailsWithReleaseDates.t) (w : World) :
  cache_hit (fst (getFromCache (getCacheKey "movie_details" (pretty movieId)) w))
  = false →
  getMovieDetailsWithCertification movieId reply w
  = getMovieDetailsWithCertification_miss movieId reply
      (snd (getFromCache (getCacheKey "movie_details" (pretty movieId)) w)).
Proof.
  unfold getMovieDetailsWithCertification.
  destruct (getFromCache _ w) as [[cached|] w0]; simpl.
  - intros ->. reflexivity.
  - reflexivity.
Qed.

(** X10. Enrichment failure is invisible: when the details are not cached
    and their fetch fails, by a non-success status, by a network failure or
    by release dates from which the certification cannot be extracted,
    [enrichMovieWithDetails] returns the movie it was given and writes
    nothing to the cache. *)
Theorem enrichMovieWithDetails_failure (movie : Movie.t) (genreMap : gmap Z string)
  (reply : Reply TMDBMovieDetailsWithReleaseDates.t) (w : World) :
  cache_hit (fst (getFromCache
                    (getCacheKey "movie_details" (pretty (Movie.id movie))) w))
  = false →
  details_fetch_fails reply = true →
  fst (enrichMovieWithDetails movie genreMap reply w) = movie
  ∧ same_caches (snd (enrichMovieWithDetails movie genreMap reply w))
      (snd (getFromCache
              (getCacheKey "movie_details" (pretty (Movie.id movie))) w)).
Proof.
  intros Hmiss Hfail. unfold enrichMovieWithDetails.
  rewrite getMovieDetails_on_miss by exact Hmiss.
  destruct (getMovieDetails_miss_fails (Movie.id movie) reply
              (snd (getFromCache
                      (getCacheKey "movie_details" (pretty (Movie.id movie))) w))
              Hfail) as [[e He] Hsame].
  destruct (getMovieDetailsWithCertification_miss _ _ _) as [r w'].
  simpl in He, Hsame. subst r. auto.
Qed.

(** X11. [getMovieCertification] never rejects. When the details are not
    cached it returns "NR" if their fetch fails for any reason, malformed
    release dates included, and otherwise the certification extracted from
    the response, which it leaves in the cache. *)
Theorem getMovieCertification_total (movieId : Z)
  (reply : Reply TMDBMovieDetailsWithReleaseDates.t) (w : World) :
  cache_hit (fst (getFromCache (getCacheKey "movie_details" (pretty movieId)) w))
  = false →
  (details_fetch_fails reply = true →
     fst (getMovieCertification movieId reply w) = Some "NR")
  ∧ (∀ response certification,
       outcome reply = Ok response →
       extractUSCertification (TMDBMovieDetailsWithReleaseDates.release_dates response)
       = Return certification →
       fst (getMovieCertification movieId reply w) = Some certification
       ∧ memoryCache (snd (getMovieCertification movieId reply w))
           !! getCacheKey "movie_details" (pretty movieId)
         = Some {| data := PDetails (details_of response certification);
                   timestamp := now w + elapsed reply |}).
Proof.
  intros Hmiss. unfold getMovieCertification.
  rewrite getMovieDetails_on_miss by exact Hmiss.
  set (w0 := snd (getFromCache (getCacheKey "movie_details" (pretty movieId)) w)).
  split.
  - intros Hfail.
    destruct (getMovieDetails_miss_fails movieId reply w0 Hfail) as [[e He] _].
    destruct (getMovieDetailsWithCertification_miss _ _ _) as [r w'].
    simpl in He. subst r. reflexivity.
  - intros response certification Hok Hcert.
    assert (Hnofail : details_fetch_fails reply = false).
    { unfold details_fetch_fails. rewrite Hok, Hcert. reflexivity. }
    destruct (getMovieDetails_miss_succeeds movieId reply w0 Hnofail)
      as (response' & certification' & Hok' & Hcert' & ->).
    assert (response' = response) as -> by congruence.
    assert (certification' = certification) as -> by congruence.
    simpl. split; [reflexivity|].
    rewrite lookup_insert_eq. unfold w0.
    rewrite (proj1 (getFromCache_clock_log _ w)). reflexivity.
Qed.

End FailureFacts.

Lemma fetchMoviesBasic_failure_witness :
  fst (fetchMoviesBasic (H := reference_runtime []) 1 None sample_genres server_error
         (fun _ => 1 # 2) (cold (Available ∅ false) 0))
  = Throw "TMDB API error: 500 Internal Server Error".
Proof.
  destruct (fetchMoviesBasic_failure (H := reference_runtime []) 1 None sample_genres
              server_error (fun _ => 1 # 2) (cold (Available ∅ false) 0))
    as ((e & He & Hmsg) & _).
  - vm_compute. reflexivity.
  - reflexivity.
  - rewrite He. f_equal. apply (Hmsg 500 "Internal Server Error"). reflexivity.
Defined.

Lemma enrichMovieWithDetails_failure_witness :
  fst (enrichMovieWithDetails (H := reference_runtime []) (sample_view "" "NR" "") ∅
         malformed_reply (cold (Available ∅ false) 0))
  = sample_view "" "NR" "".
Proof.
  apply (enrichMovieWithDetails_failure (H := reference_runtime [])
           (sample_view "" "NR" "") ∅ malformed_reply (cold (Available ∅ false) 0)).
  - vm_compute. reflexivity.
  - reflexivity.
Defined.

Lemma getMovieCertification_total_witness :
  fst (getMovieCertification (H := reference_runtime []) 1 malformed_reply
         (cold Unavailable 0)) = Some "NR"
  ∧ fst (getMovieCertification (H := reference_runtime []) 1
           (aliens_reply (release_dates_of [("US", [""; "R"])])) (cold Unavailable 0))
    = Some "R".
Proof.
  split.
  - apply (getMovieCertification_total (H := reference_runtime []) 1 malformed_reply
             (cold Unavailable 0)).
    + vm_compute. reflexivity.
    + reflexivity.
  - eapply (getMovieCertification_total (H := reference_runtime []) 1
              (aliens_reply (release_dates_of [("US", [""; "R"])]))
              (cold Unavailable 0)).
    + vm_compute. reflexivity.
    + reflexivity.
    + reflexivity.
Defined.

(** ** Prefetching *)

Section PrefetchFacts.
Context `{Runtime}.

(** A read that missed misses again when it is repeated at once. *)
Lemma getFromCache_miss_again (key : string) (w : World) :
  cache_hit (fst (getFromCache key w)) = false →
  getFromCache key (snd (getFromCache key w))
  = (fst (getFromCache key w), snd (getFromCache key w))
  ∨ fst (getFromCache key (snd (getFromCache key w))) = None.
Proof.
  intros Hmiss. unfold getFromCache in *.
  destruct (memoryCache w !! key) as [memCached|] eqn:Hmem.
  - destruct (fresh w memCached) eqn:Hfresh.
    + left. simpl. rewrite Hmem, Hfresh. reflexivity.
    + unfold getFromStorage in *.
      destruct (localStorage w) as [|items full] eqn:Hls; simpl in *.
      * right. rewrite Hmem, Hfresh, Hls. reflexivity.
      * destruct (items !! key) as [cached|] eqn:Hitem; simpl in *.
        -- destruct (truthy cached) eqn:Htruthy; simpl in *.
           ++ destruct (JSON_parse cached) as [|entry|] eqn:Hparse; simpl in *.
              ** right. rewrite Hmem, Hfresh, Hls. simpl.
                 rewrite Hitem, Htruthy, Hparse. reflexivity.
              ** destruct (fresh w entry) eqn:Hfresh'; simpl in *.
                 --- left. rewrite lookup_insert_eq.
                     change (fresh (set_memoryCache (insert key entry) w) entry)
                       with (fresh w entry).
                     rewrite Hfresh'. reflexivity.
                 --- right. rewrite Hmem.
                     change (fresh (set_localStorage _ w) memCached)
                       with (fresh w memCached).
                     rewrite Hfresh. simpl. rewrite lookup_delete_eq. reflexivity.
              ** right. rewrite Hmem.
                 change (fresh (set_localStorage _ w) memCached)
                   with (fresh w memCached).
                 rewrite Hfresh. simpl. rewrite lookup_delete_eq. reflexivity.
           ++ right. rewrite Hmem, Hfresh, Hls. simpl. rewrite Hitem, Htruthy.
              reflexivity.
        -- right. rewrite Hmem, Hfresh, Hls. simpl. rewrite Hitem. reflexivity.
  - unfold getFromStorage in *.
    destruct (localStorage w) as [|items full] eqn:Hls; simpl in *.
    + right. rewrite Hmem, Hls. reflexivity.
    + destruct (items !! key) as [cached|] eqn:Hitem; simpl in *.
      * destruct (truthy cached) eqn:Htruthy; simpl in *.
        -- destruct (JSON_parse cached) as [|entry|] eqn:Hparse; simpl in *.
           ++ right. rewrite Hmem, Hls. simpl. rewrite Hitem, Htruthy, Hparse.
              reflexivity.
           ++ destruct (fresh w entry) eqn:Hfresh'; simpl in *.
              ** left. rewrite lookup_insert_eq.
                 change (fresh (set_memoryCache (insert key entry) w) entry)
                   with (fresh w entry).
                 rewrite Hfresh'. reflexivity.
              ** right. rewrite Hmem. simpl. rewrite lookup_delete_eq. reflexivity.
           ++ right. rewrite Hmem. simpl. rewrite lookup_delete_eq. reflexivity.
        -- right. rewrite Hmem, Hls. simpl. rewrite Hitem, Htruthy. reflexivity.
      * right. rewrite Hmem, Hls. simpl. rewrite Hitem. reflexivity.
Qed.

Lemma getFromCache_still_misses (key : string) (w : World) :
  cache_hit (fst (getFromCache key w)) = false →
  cache_hit (fst (getFromCache key (snd (getFromCache key w)))) = false.
Proof.
  intros Hmiss. destruct (getFromCache_miss_again key w Hmiss) as [Heq|Heq].
  - rewrite Heq. exact Hmiss.
  - rewrite Heq. reflexivity.
Qed.

(** An awaited call is its part up to the [await] followed, once the time of
    the exchange has passed, by its part from the answer on. *)
Lemma getMovieDetailsWithCertification_split (movieId : Z)
  (reply : Reply TMDBMovieDetailsWithReleaseDates.t) (w : World) :
  getMovieDetailsWithCertification movieId reply w
  = match getMovieDetailsWithCertification_start movieId w with
    | (Done c, w1) => (c, w1)
    | (Waiting, w1) =>
        getMovieDetailsWithCertification_resume movieId reply
          (advance (elapsed reply) w1)
    end.
Proof.
  unfold getMovieDetailsWithCertification, getMovieDetailsWithCertification_start.
  destruct (getFromCache _ w) as [[cached|] w1];
    [destruct (payload_truthy cached)|]; try reflexivity;
    unfold getMovieDetailsWithCertification_miss,
      getMovieDetailsWithCertification_resume, bind, fetchTMDBQueued, fetchTMDB,
      answered;
    destruct (outcome reply); reflexivity.
Qed.

Lemma fetchMoviesBasic_split (page : Z) (genreId : option Z)
  (genreMap : gmap Z string) (reply : Reply TMDBMovieResponse.t) (random : nat → Q)
  (w : World) :
  fetchMoviesBasic page genreId genreMap reply random w
  = match fetchMoviesBasic_start page genreId w with
    | (Done c, w1) => (c, w1)
    | (Waiting, w1) =>
        fetchMoviesBasic_resume page genreId genreMap reply random
          (advance (elapsed reply) w1)
    end.
Proof.
  unfold fetchMoviesBasic, fetchMoviesBasic_start.
  destruct (getFromCache _ w) as [[cached|] w1];
    [destruct (payload_truthy cached)|]; try reflexivity;
    unfold fetchMoviesBasic_miss, fetchMoviesBasic_resume, discoverMovies, bind,
      fetchTMDB, answered;
    destruct (outcome reply); reflexivity.
Qed.

Lemma searchMoviesBasic_split (query : string) (page : Z)
  (genreMap : gmap Z string) (reply : Reply TMDBMovieResponse.t) (random : nat → Q)
  (w : World) :
  searchMoviesBasic query page genreMap reply random w
  = match searchMoviesBasic_start query page w with
    | (Done c, w1) => (c, w1)
    | (Waiting, w1) =>
        searchMoviesBasic_resume query page genreMap reply random
          (advance (elapsed reply) w1)
    end.
Proof.
  unfold searchMoviesBasic, searchMoviesBasic_start.
  destruct (getFromCache _ w) as [[cached|] w1];
    [destruct (payload_truthy cached)|]; try reflexivity;
    unfold searchMoviesBasic_miss, searchMoviesBasic_resume, searchMovies, bind,
      fetchTMDB, answered, ret;
    destruct (outcome reply); reflexivity.
Qed.

(** Events do not change what a read of the cache returns. *)
Lemma getFromCache_emit (key : string) (e : Event) (w : World) :
  fst (getFromCache key (emit e w)) = fst (getFromCache key w).
Proof. apply getFromCache_fst_ext; reflexivity. Qed.

(** [prefetchMovieDetails] at its return when the details are not cached:
    two cache checks, the unit queued and its request sent. *)
Lemma prefetchMovieDetails_on_miss (movieId : Z) (w : World) :
  cache_hit (fst (getFromCache (getCacheKey "movie_details" (pretty movieId)) w))
  = false →
  prefetchMovieDetails movieId w
  = (true,
     emit (EvFetch ("/movie/" +:+ pretty movieId)
             [("append_to_response", "release_dates"); ("language", "en-US")])
       (emit EvQueue
          (snd (getFromCache (getCacheKey "movie_details" (pretty movieId))
                  (snd (getFromCache
                          (getCacheKey "movie_details" (pretty movieId)) w)))))).
Proof.
  intros Hmiss. unfold prefetchMovieDetails, getMovieDetailsWithCertification_start.
  pose proof (getFromCache_still_misses _ w Hmiss) as Hagain.
  destruct (getFromCache _ w) as [cached w0]. simpl in *. rewrite Hmiss.
  destruct (getFromCache _ w0) as [[again|] w2]; simpl in *;
    [rewrite Hagain|]; reflexivity.
Qed.






(** The request of a prefetch answered by a failure, or by release dates
    from which no certification can be extracted: nothing happens. *)
Lemma prefetchMovieDetails_answered_fails (movieId : Z)
  (reply : Reply TMDBMovieDetailsWithReleaseDates.t) (w : World) :
  details_fetch_fails reply = true →
  prefetchMovieDetails_answered movieId reply w = w.
Proof.
  unfold details_fetch_fails, prefetchMovieDetails_answered,
    getMovieDetailsWithCertification_resume, bind, answered.
  destruct (outcome reply) as [response| |]; try reflexivity.
  destruct (extractUSCertification _); [discriminate | reflexivity].
Qed.

(** X13. [prefetchMovieDetails] is silent when the details are cached
    (nothing is sent or queued, no request is left in flight, the caches are
    as the cache check left them). On a miss it returns with the caches as
    its two cache checks left them, and a request answered by a failure
    changes nothing at the moment it is answered, so that a prefetch whose
    fetch fails leaves the caches as the cache checks left them. *)
Theorem prefetchMovieDetails_quiet (movieId : Z)
  (reply : Reply TMDBMovieDetailsWithReleaseDates.t) (w : World) :
  (cache_hit (fst (getFromCache (getCacheKey "movie_details" (pretty movieId)) w))
   = true →
   prefetchMovieDetails movieId w
   = (false, snd (getFromCache (getCacheKey "movie_details" (pretty movieId)) w))
   ∧ log (snd (prefetchMovieDetails movieId w)) = log w)
  ∧ (cache_hit (fst (getFromCache (getCacheKey "movie_details" (pretty movieId)) w))
     = false →
     same_caches (snd (prefetchMovieDetails movieId w))
       (snd (getFromCache (getCacheKey "movie_details" (pretty movieId))
               (snd (getFromCache
                       (getCacheKey "movie_details" (pretty movieId)) w)))))
  ∧ (details_fetch_fails reply = true →
     ∀ w', prefetchMovieDetails_answered movieId reply w' = w')
  ∧ (cache_hit (fst (getFromCache (getCacheKey "movie_details" (pretty movieId)) w))
     = false →
     details_fetch_fails reply = true →
     same_caches
       (prefetchMovieDetails_answered movieId reply
          (advance (elapsed reply) (snd (prefetchMovieDetails movieId w))))
       (snd (getFromCache (getCacheKey "movie_details" (pretty movieId))
               (snd (getFromCache
                       (getCacheKey "movie_details" (pretty movieId)) w))))).
Proof.
  split; [|split; [|split]].
  - intros Hhit. unfold prefetchMovieDetails.
    pose proof (proj2 (getFromCache_clock_log
                         (getCacheKey "movie_details" (pretty movieId)) w)) as Hlog.
    destruct (getFromCache _ w) as [cached w0]. simpl in *.
    rewrite Hhit. auto.
  - intros Hmiss. rewrite prefetchMovieDetails_on_miss by exact Hmiss.
    split; reflexivity.
  - intros Hfail w'. apply prefetchMovieDetails_answered_fails, Hfail.
  - intros Hmiss Hfail. rewrite prefetchMovieDetails_answered_fails by exact Hfail.
    rewrite prefetchMovieDetails_on_miss by exact Hmiss. split; reflexivity.
Qed.

End PrefetchFacts.


Lemma prefetchMovieDetails_quiet_witness :
  log (snd (prefetchMovieDetails (H := old_runtime) 1 (advance (-2000) stale_world)))
  = []
  ∧ memoryCache (prefetchMovieDetails_answered (H := old_runtime) 1 malformed_reply
                   (advance 40 (snd (prefetchMovieDetails (H := old_runtime) 1
                                       (cold Unavailable 0))))) = ∅.
Proof.
  split.
  - apply (prefetchMovieDetails_quiet (H := old_runtime) 1 malformed_reply
             (advance (-2000) stale_world)).
    vm_compute. reflexivity.
  - destruct (prefetchMovieDetails_quiet (H := old_runtime) 1 malformed_reply
                (cold Unavailable 0)) as (_ & _ & _ & Hfail).
    destruct Hfail as [Hmem _].
    + vm_compute. reflexivity.
    + reflexivity.
    + change (elapsed malformed_reply) with 40 in Hmem.
      rewrite Hmem. vm_compute. reflexivity.
Defined.

Section NextPageFacts.
Context `{Runtime}.

(** [prefetchNextPage] at its return when the next page is to be fetched
    by a discover request and is not cached. *)
Lemma prefetchNextPage_discover (currentPage totalPages : Z) (genreId : option Z)
  (searchQuery : option string) (genreMap : gmap Z string) (w : World) :
  currentPage < totalPages →
  searchQuery = None ∨ searchQuery = Some "" →
  cache_hit (fst (getFromCache (discover_key (currentPage + 1) genreId) w)) = false →
  prefetchNextPage currentPage totalPages genreId searchQuery genreMap w
  = (Some (PendingDiscover (currentPage + 1) genreId genreMap),
     emit (EvFetch "/discover/movie"
             (discover_params (currentPage + 1) genreId "popularity.desc"))
       (snd (getFromCache (discover_key (currentPage + 1) genreId) w))).
Proof.
  intros Hmore Hquery Hmiss. unfold prefetchNextPage, fetchMoviesBasic_start.
  rewrite (proj2 (Z.leb_gt _ _) Hmore).
  destruct (getFromCache (discover_key (currentPage + 1) genreId) w)
    as [[cached|] w1]; simpl in Hmiss; rewrite ?Hmiss;
    destruct Hquery as [-> | ->]; reflexivity.
Qed.

(** X14. [prefetchNextPage] does nothing at all on the last page. Before
    the last page it sends the request for the page after the current one, a
    search request when a non-empty search query is given and a discover
    request otherwise, and returns with that request in flight and nothing
    cached yet: a call of [fetchMoviesBasic] for the next page made before
    the answer has arrived sends a second request. Once the discover request
    is answered with a non-empty page, at whatever moment, a call of
    [fetchMoviesBasic] for the next page within 24 hours returns that page
    from the cache without a request. *)
Theorem prefetchNextPage_warms (currentPage totalPages : Z) (genreId : option Z)
  (genreMap : gmap Z string) (reply reply' : Reply TMDBMovieResponse.t)
  (random random' : nat → Q) (w : World) :
  (∀ searchQuery,
     totalPages ≤ currentPage →
     prefetchNextPage currentPage totalPages genreId searchQuery genreMap w
     = (None, w))
  ∧ (∀ query,
       currentPage < totalPages → query ≠ "" →
       cache_hit (fst (getFromCache (search_key query (currentPage + 1)) w)) = false →
       fst (prefetchNextPage currentPage totalPages genreId (Some query) genreMap w)
       = Some (PendingSearch query (currentPage + 1) genreMap)
       ∧ log (snd (prefetchNextPage currentPage totalPages genreId (Some query)
                     genreMap w))
         = log w ++ [EvFetch "/search/movie" (search_params query (currentPage + 1))])
  ∧ (∀ searchQuery,
       currentPage < totalPages →
       searchQuery = None ∨ searchQuery = Some "" →
       cache_hit (fst (getFromCache (discover_key (currentPage + 1) genreId) w))
       = false →
       let request :=
         [EvFetch "/discover/movie"
            (discover_params (currentPage + 1) genreId "popularity.desc")] in
       let sent :=
         snd (prefetchNextPage currentPage totalPages genreId searchQuery genreMap
                w) in
       fst (prefetchNextPage currentPage totalPages genreId searchQuery genreMap w)
       = Some (PendingDiscover (currentPage + 1) genreId genreMap)
       ∧ log sent = log w ++ request
       ∧ same_caches sent
           (snd (getFromCache (discover_key (currentPage + 1) genreId) w))
       ∧ log (snd (fetchMoviesBasic (currentPage + 1) genreId genreMap reply'
                     random' sent))
         = log w ++ request ++ request)
  ∧ (∀ response (w' : World) (dt : Z),
       outcome reply = Ok response →
       TMDBMovieResponse.results response ≠ [] →
       dt < CACHE_TTL →
       let warmed :=
         prefetchNextPage_answered
           (PendingDiscover (currentPage + 1) genreId genreMap) reply random w' in
       log warmed = log w'
       ∧ fetchMoviesBasic (currentPage + 1) genreId genreMap reply' random'
           (advance dt warmed)
         = (Return (basic_page genreMap random response), advance dt warmed)).
Proof.
  split; [|split; [|split]].
  - intros searchQuery Hlast. unfold prefetchNextPage.
    rewrite (proj2 (Z.leb_le _ _) Hlast). reflexivity.
  - intros query Hmore Hquery Hmiss. unfold prefetchNextPage, searchMoviesBasic_start.
    rewrite (proj2 (Z.leb_gt _ _) Hmore).
    apply truthy_true in Hquery. rewrite Hquery.
    pose proof (proj2 (getFromCache_clock_log
                         (search_key query (currentPage + 1)) w)) as Hlog.
    destruct (getFromCache (search_key query (currentPage + 1)) w)
      as [[cached|] w1]; simpl in *; rewrite ?Hmiss; simpl; rewrite Hlog; auto.
  - intros searchQuery Hmore Hquery Hmiss request sent.
    assert (Hsent : sent
      = emit (EvFetch "/discover/movie"
                (discover_params (currentPage + 1) genreId "popularity.desc"))
          (snd (getFromCache (discover_key (currentPage + 1) genreId) w))).
    { unfold sent. rewrite prefetchNextPage_discover by assumption. reflexivity. }
    assert (Hlog : log sent = log w ++ request).
    { rewrite Hsent. simpl. rewrite (proj2 (getFromCache_clock_log _ w)).
      reflexivity. }
    split; [rewrite prefetchNextPage_discover by assumption; reflexivity|].
    split; [exact Hlog|]. split; [rewrite Hsent; split; reflexivity|].
    assert (Hnot : cache_hit (fst (getFromCache
                                     (discover_key (currentPage + 1) genreId) sent))
                   = false).
    { rewrite Hsent, getFromCache_emit.
      apply getFromCache_still_misses, Hmiss. }
    rewrite fetchMoviesBasic_on_miss by exact Hnot.
    rewrite fetchMoviesBasic_miss_log.
    rewrite (proj2 (getFromCache_clock_log _ sent)), Hlog.
    rewrite <- app_assoc. reflexivity.
  - intros response w' dt Hok Hne Hdt warmed.
    assert (Hwarmed : warmed
      = saveToCache (discover_key (currentPage + 1) genreId)
          (basic_page genreMap random response) w').
    { unfold warmed, prefetchNextPage_answered, fetchMoviesBasic_resume, bind,
        answered.
      rewrite Hok. destruct (TMDBMovieResponse.results response) eqn:Hres;
        [contradiction | reflexivity]. }
    split.
    + rewrite Hwarmed. apply saveToCache_clock_log.
    + unfold fetchMoviesBasic.
      rewrite (getFromCache_memory_hit _ _
                 {| data := basic_page genreMap random response;
                    timestamp := now warmed |}).
      * reflexivity.
      * rewrite Hwarmed. simpl. apply lookup_insert_eq.
      * apply fresh_advance. simpl. lia.
Qed.

End NextPageFacts.

Lemma prefetchNextPage_warms_witness :
  prefetchNextPage (H := reference_runtime []) 3 3 None None sample_genres
    (cold (Available ∅ false) 0)
  = (None, cold (Available ∅ false) 0)
  ∧ log (snd (prefetchNextPage (H := reference_runtime []) 1 3 None (Some "alien")
                sample_genres (cold (Available ∅ false) 0)))
    = [EvFetch "/search/movie" (search_params "alien" 2)]
  ∧ length (log (snd (fetchMoviesBasic (H := reference_runtime []) 2 None
                        sample_genres server_error (fun _ => 1 # 2)
                        (snd (prefetchNextPage (H := reference_runtime []) 1 3 None
                                None sample_genres (cold (Available ∅ false) 0))))))
    = 2%nat
  ∧ log (snd (fetchMoviesBasic (H := reference_runtime []) 2 None sample_genres
                server_error (fun _ => 1 # 2)
                (advance 1000
                   (prefetchNextPage_answered (H := reference_runtime [])
                      (PendingDiscover 2 None sample_genres) one_movie_page
                      (fun _ => 1 # 2) (cold (Available ∅ false) 40)))))
    = [].
Proof.
  destruct (prefetchNextPage_warms (H := reference_runtime []) 3 3 None sample_genres
              one_movie_page server_error (fun _ => 1 # 2) (fun _ => 1 # 2)
              (cold (Available ∅ false) 0)) as (Hlast & _).
  destruct (prefetchNextPage_warms (H := reference_runtime []) 1 3 None sample_genres
              one_movie_page server_error (fun _ => 1 # 2) (fun _ => 1 # 2)
              (cold (Available ∅ false) 0)) as (_ & Hsearch & Hdiscover & Hanswered).
  split; [|split; [|split]].
  - apply Hlast. lia.
  - apply Hsearch.
    + lia.
    + discriminate.
    + vm_compute. reflexivity.
  - destruct (Hdiscover None) as (_ & _ & _ & Hsecond).
    + lia.
    + left. reflexivity.
    + vm_compute. reflexivity.
    + change (1 + 1) with 2 in Hsecond. rewrite Hsecond. reflexivity.
  - destruct (Hanswered (sample_response [sample_movie 1 "Aliens" "1986-07-18"])
                (cold (Available ∅ false) 40) 1000) as (_ & Hhit).
    + reflexivity.
    + discriminate.
    + vm_compute. reflexivity.
    + change (1 + 1) with 2 in Hhit. rewrite Hhit. vm_compute. reflexivity.
Defined.

(** ** More on the request queue *)

Section QueueConservation.
Context {V : Type}.

Lemma started_service (l : list (QueuedUnit V)) :
  started (flat_map service l) = map ticket l.
Proof. induction l as [|u l IH]; simpl; [reflexivity|]. f_equal. exact IH. Qed.

Lemma settlements_length_service (l : list (QueuedUnit V)) :
  length (settlements (flat_map service l)) = length l.
Proof. induction l as [|u l IH]; simpl; [reflexivity|]. f_equal. exact IH. Qed.

(** X15. At every moment of every interleaving of enqueueing and worker
    resumptions, the units enqueued so far are, in their order, the units
    already started followed by the units still in the queue: none is lost,
    duplicated or overtaken. At most one unit is between its start and its
    settlement, and the worker is never at rest while a unit waits in the
    queue. *)
Theorem queue_conservation (inputs : list (Input V)) :
  let s := run inputs idle in
  map ticket (enqueued inputs) = started (trace s) ++ map ticket (REQUEST_QUEUE s)
  ∧ length (started (trace s)) = (length (settlements (trace s)) + in_flight s)%nat
  ∧ (in_flight s ≤ 1)%nat
  ∧ (worker s = NoWorker → REQUEST_QUEUE s = []).
Proof.
  intros s.
  destruct (consistent_run inputs [] [] idle consistent_idle) as (served & Hs).
  simpl in Hs. fold s in Hs. unfold consistent, in_flight in *.
  destruct (worker s) as [|u|].
  - destruct Hs as (-> & -> & _ & ->).
    rewrite started_service, settlements_length_service, length_map, app_nil_r.
    repeat split; lia.
  - destruct Hs as (-> & _ & ->). unfold started, settlements.
    rewrite !omap_app. fold (started (flat_map service served)).
    fold (settlements (flat_map service served)).
    rewrite started_service. simpl. rewrite app_nil_r.
    rewrite settlements_length_service, length_app, length_map, map_app,
      <- app_assoc. simpl.
    repeat split; (lia || discriminate).
  - destruct Hs as (_ & -> & _ & ->).
    rewrite started_service, settlements_length_service, length_map, map_app.
    repeat split; (lia || discriminate).
Qed.

End QueueConservation.

Lemma queue_conservation_witness :
  let s := run three_units idle in
  started (trace s) ++ map ticket (REQUEST_QUEUE s) = [1; 2; 3]%nat
  ∧ (worker s = NoWorker → REQUEST_QUEUE s = []).
Proof.
  intros s.
  destruct (queue_conservation three_units) as (Hall & _ & _ & Hrest).
  fold s in Hall, Hrest. split; [|exact Hrest].
  rewrite <- Hall. reflexivity.
Defined.

(** ** More on the batch helper *)

Section BatchCounting.
Context {TItem TResult : Type} `{Countable TItem}.

Lemma well_grouped_count (batchSize : nat) (groups : list (list TItem)) :
  (0 < batchSize)%nat → well_grouped batchSize groups →
  length groups = ((length (concat groups) + batchSize - 1) / batchSize)%nat.
Proof.
  intros Hpos. induction groups as [|g [|g' rest] IH]; intros Hwg.
  - simpl. symmetry. apply Nat.div_small. lia.
  - simpl in *. rewrite app_nil_r.
    apply (Nat.div_unique _ _ 1 (length g - 1)); lia.
  - destruct Hwg as [Hg Hwg]. specialize (IH Hwg).
    change (concat (g :: g' :: rest)) with (g ++ concat (g' :: rest)).
    rewrite length_app, Hg.
    change (length (g :: g' :: rest)) with (S (length (g' :: rest))).
    rewrite IH.
    replace (batchSize + length (concat (g' :: rest)) + batchSize - 1)%nat
      with (1 * batchSize + (length (concat (g' :: rest)) + batchSize - 1))%nat
      by lia.
    rewrite Nat.div_add_l by lia. reflexivity.
Qed.

Lemma delays_delay_between (groups : list (list TItem)) :
  delays (delay_between groups) = replicate (length groups - 1) BATCH_DELAY.
Proof.
  induction groups as [|g [|g' rest] IH]; try reflexivity.
  change (delays (delay_between (g :: g' :: rest)))
    with (BATCH_DELAY :: delays (delay_between (g' :: rest))).
  rewrite IH. simpl. rewrite Nat.sub_0_r. reflexivity.
Qed.

(** X16. For a positive batch size the number of batches is the number of
    items divided by the batch size, rounded up, and the number of
    inter-batch timeouts, each of [BATCH_DELAY] milliseconds, is one less
    (none for an empty input). *)
Theorem batchFetch_batch_count (fetchFn : TItem → Completion TResult)
  (items : list TItem) (batchSize : nat) :
  (0 < batchSize)%nat →
  ∃ results events,
    batchFetch items fetchFn batchSize = Some (results, events)
    ∧ length (batches events) = ((length items + batchSize - 1) / batchSize)%nat
    ∧ delays events = replicate (length (batches events) - 1) BATCH_DELAY.
Proof.
  intros Hpos.
  destruct (batchFetch_loop_spec fetchFn items batchSize Hpos
              (S (length items)) 0%nat ∅ []) as (groups & Hrun & Hconcat & Hwg); [lia|].
  rewrite drop_0 in Hrun, Hconcat. simpl in Hrun.
  eexists _, _. split; [exact Hrun|].
  rewrite batches_delay_between, delays_delay_between.
  split; [|reflexivity].
  rewrite (well_grouped_count batchSize groups Hpos Hwg), Hconcat. reflexivity.
Qed.

(** X17. With a batch size of zero and a non-empty input the loop of
    [batchFetch] never ends: whatever bound is put on the number of its
    iterations, the bound is reached. An empty input returns the empty map at
    once, for every batch size, without calling the fetch function or
    waiting. *)
Theorem batchFetch_edge_cases (fetchFn : TItem → Completion TResult) :
  (∀ items fuel i results events,
     (i < length items)%nat →
     batchFetch_loop fuel items fetchFn 0 i results events = None)
  ∧ (∀ batchSize, batchFetch [] fetchFn batchSize = Some (∅, [])).
Proof.
  split.
  - intros items fuel. induction fuel as [|fuel IH]; intros i results events Hi.
    + reflexivity.
    + simpl. rewrite (bool_decide_eq_true_2 _ Hi). rewrite Nat.add_0_r.
      apply IH. exact Hi.
  - intros batchSize. reflexivity.
Qed.

End BatchCounting.

Lemma batchFetch_batch_count_witness :
  ∃ results events,
    batchFetch twelve seventh_fails 5 = Some (results, events)
    ∧ length (batches events) = 3%nat
    ∧ delays events = [300; 300].
Proof.
  destruct (batchFetch_batch_count seventh_fails twelve 5)
    as (results & events & Hrun & Hcount & Hdelays); [lia|].
  exists results, events. split; [exact Hrun|].
  split; [exact Hcount|]. rewrite Hdelays, Hcount. reflexivity.
Defined.

Lemma batchFetch_edge_cases_witness :
  batchFetch twelve seventh_fails 0 = None.
Proof.
  apply (proj1 (batchFetch_edge_cases seventh_fails)). simpl. lia.
Defined.

(** ** Genre tables *)

Lemma Object_entries_elem (m : gmap Z string) (id : Z) (name : string) :
  (id, name) ∈ Object_entries m ↔ m !! id = Some name.
Proof.
  unfold Object_entries.
  rewrite (merge_sort_Permutation key_le (H := key_le_dec) (map_to_list m)).
  apply elem_of_map_to_list.
Qed.

Lemma Object_entries_names (m : gmap Z string) :
  snd <$> Object_entries m ≡ₚ snd <$> map_to_list m.
Proof.
  unfold Object_entries.
  rewrite (merge_sort_Permutation key_le (H := key_le_dec) (map_to_list m)).
  reflexivity.
Qed.

Lemma swapped_keys (l : list (Z * string)) :
  fst <$> map (fun e => (snd e, fst e)) l = snd <$> l.
Proof. induction l as [|e l IH]; simpl; [reflexivity|]. f_equal. exact IH. Qed.

Lemma swapped_elem (l : list (Z * string)) (id : Z) (name : string) :
  (name, id) ∈ map (fun e => (snd e, fst e)) l ↔ (id, name) ∈ l.
Proof.
  induction l as [|[id' name'] l IH]; simpl.
  - rewrite !elem_of_nil. reflexivity.
  - rewrite !elem_of_cons, IH. split; intros [[= -> ->]|Hin]; auto.
Qed.

(** A key of [Object.fromEntries(entries)] maps to the value of one of the
    entries with that key. *)
Lemma Object_fromEntries_sound (entries : list (string * Z)) (acc : gmap string Z)
  (k : string) (v : Z) :
  foldl (fun m e => <[fst e:=snd e]> m) acc entries !! k = Some v →
  (k, v) ∈ entries ∨ acc !! k = Some v.
Proof.
  revert acc. induction entries as [|[k' v'] entries IH]; intros acc; simpl.
  - auto.
  - intros [Hin|Hacc]%IH.
    + left. right. exact Hin.
    + destruct (decide (k' = k)) as [->|Hne].
      * rewrite lookup_insert_eq in Hacc. injection Hacc as ->. left. left.
      * rewrite lookup_insert_ne in Hacc by exact Hne. auto.
Qed.

Lemma Object_fromEntries_other (entries : list (string * Z)) (acc : gmap string Z)
  (k : string) :
  k ∉ fst <$> entries →
  foldl (fun m e => <[fst e:=snd e]> m) acc entries !! k = acc !! k.
Proof.
  revert acc. induction entries as [|[k' v'] entries IH]; intros acc Hk; simpl.
  - reflexivity.
  - rewrite IH.
    + apply lookup_insert_ne. intros ->. apply Hk. left.
    + intros Hin. apply Hk. right. exact Hin.
Qed.

(** With pairwise distinct keys every entry is found under its key. *)
Lemma Object_fromEntries_complete (entries : list (string * Z)) (acc : gmap string Z)
  (k : string) (v : Z) :
  NoDup (fst <$> entries) → (k, v) ∈ entries →
  foldl (fun m e => <[fst e:=snd e]> m) acc entries !! k = Some v.
Proof.
  revert acc. induction entries as [|[k' v'] entries IH]; intros acc Hnd Hin.
  - apply elem_of_nil in Hin. contradiction.
  - simpl in *. apply NoDup_cons in Hnd as [Hfresh Hnd].
    apply elem_of_cons in Hin as [[= <- <-]|Hin].
    + rewrite Object_fromEntries_other by exact Hfresh. apply lookup_insert_eq.
    + apply IH; assumption.
Qed.

(** X18. [GENRE_TO_TMDB_ID] is built so that it inverts the genre table:
    whatever the table, a name that the reverse map knows maps to an id
    that carries this name, and when no two ids of the table carry the same
    name (as in [TMDB_GENRE_MAP]) every id is found under its name. *)
Theorem reverse_genre_map_inverts (m : gmap Z string) :
  (∀ name id, reverse_genre_map m !! name = Some id → m !! id = Some name)
  ∧ (NoDup (snd <$> map_to_list m) →
     ∀ id name, m !! id = Some name → reverse_genre_map m !! name = Some id).
Proof.
  unfold reverse_genre_map, Object_fromEntries. split.
  - intros name id [Hin|Hempty]%Object_fromEntries_sound.
    + apply swapped_elem, Object_entries_elem in Hin. exact Hin.
    + rewrite lookup_empty in Hempty. discriminate.
  - intros Hnd id name Hlook. apply Object_fromEntries_complete.
    + rewrite swapped_keys, Object_entries_names. exact Hnd.
    + apply swapped_elem, Object_entries_elem. exact Hlook.
Qed.

Lemma mapGenreIds_elem (genreIds : list Z) (genreMap : gmap Z string) (name : string) :
  name ∈ mapGenreIds genreIds genreMap
  ↔ ∃ id, id ∈ genreIds ∧ genreMap !! id = Some name.
Proof. unfold mapGenreIds. apply list_elem_of_omap. Qed.

Lemma genre_names_distinct (m : gmap Z string) (i j : Z) (name : string) :
  NoDup (snd <$> map_to_list m) →
  m !! i = Some name → m !! j = Some name → i = j.
Proof.
  intros Hnd Hi Hj.
  apply elem_of_map_to_list in Hi. apply elem_of_map_to_list in Hj.
  apply list_elem_of_lookup in Hi as [a Ha]. apply list_elem_of_lookup in Hj as [b Hb].
  assert (a = b).
  { apply (NoDup_lookup _ a b name Hnd); rewrite list_lookup_fmap.
    - rewrite Ha. reflexivity.
    - rewrite Hb. reflexivity. }
  subst b. congruence.
Qed.

(** X19. Filtering by genre on the client agrees with filtering by genre at
    the provider: for a genre table without repeated names and a genre name
    with the id the reverse map gives it, the name is among the genre names
    [mapGenreIds] resolves for a movie exactly when the id is among the
    movie's genre ids. Every genre offered for filtering other than "All" has
    such an id in [GENRE_TO_TMDB_ID]. *)
Theorem genre_filter_agrees (m : gmap Z string) (name : string) (id : Z)
  (genreIds : list Z) :
  NoDup (snd <$> map_to_list m) →
  reverse_genre_map m !! name = Some id →
  (name ∈ mapGenreIds genreIds m ↔ id ∈ genreIds)
  ∧ (∀ genre, genre ∈ MovieData.genres → genre ≠ "All" →
       is_Some (GENRE_TO_TMDB_ID !! genre)).
Proof.
  intros Hnd Hrev. split.
  - assert (Hname : m !! id = Some name).
    { unfold reverse_genre_map, Object_fromEntries in Hrev.
      apply Object_fromEntries_sound in Hrev as [Hin|Hempty].
      - apply swapped_elem, Object_entries_elem in Hin. exact Hin.
      - rewrite lookup_empty in Hempty. discriminate. }
    rewrite mapGenreIds_elem. split.
    + intros (id' & Hin & Hlook).
      rewrite (genre_names_distinct m id id' name Hnd Hname Hlook). exact Hin.
    + intros Hin. eauto.
  - intros genre Hin Hne. unfold MovieData.genres in Hin.
    repeat (apply elem_of_cons in Hin as [->|Hin];
            [first [congruence | vm_compute; eauto]|]).
    apply elem_of_nil in Hin. contradiction.
Qed.

Lemma reverse_genre_map_inverts_witness :
  GENRE_TO_TMDB_ID !! "Sci-Fi" = Some 878.
Proof.
  apply (reverse_genre_map_inverts TMDB_GENRE_MAP).
  - apply (bool_decide_unpack _). vm_compute. exact I.
  - reflexivity.
Defined.

Lemma genre_filter_agrees_witness :
  "Sci-Fi" ∈ mapGenreIds [28; 878] TMDB_GENRE_MAP.
Proof.
  apply (genre_filter_agrees TMDB_GENRE_MAP "Sci-Fi" 878 [28; 878]).
  - apply (bool_decide_unpack _). vm_compute. exact I.
  - vm_compute. reflexivity.
  - right. left.
Defined.

(** ** Image URLs *)

Section ImageFacts.
Context `{Runtime}.

(** X20. The two poster helpers agree on the movies the service produces:
    with the image base of [src/data/movies.ts], the URL computed from a
    transformed movie and a size token is the URL the service computes from
    the raw poster path and the size of that token. Both are empty exactly
    when the raw record has no poster path (null or empty), which is the
    signal for the fallback cover; the srcset is empty in the same cases. *)
Theorem poster_urls_agree (tmdbMovie : TMDBMovie.t) (genreMap : gmap Z string)
  (certification : string) (details : option TMDBMovieDetails.t) (random : Q)
  (size : ImageSize) :
  let movie := transformTMDBMovie tmdbMovie genreMap certification details random in
  MovieData.getPosterUrl movie (IMAGE_SIZES.poster size)
  = getPosterUrl MovieData.TMDB_IMAGE_BASE (TMDBMovie.poster_path tmdbMovie) size
  ∧ (MovieData.getPosterUrl movie (IMAGE_SIZES.poster size) = ""
     ↔ TMDBMovie.poster_path tmdbMovie = None
       ∨ TMDBMovie.poster_path tmdbMovie = Some "")
  ∧ (MovieData.getPosterSrcSet movie = ""
     ↔ MovieData.getPosterUrl movie (IMAGE_SIZES.poster size) = "").
Proof.
  unfold MovieData.getPosterUrl, MovieData.getPosterSrcSet, getPosterUrl. simpl.
  destruct (TMDBMovie.poster_path tmdbMovie) as [[|c path]|]; simpl.
  - split; [reflexivity|]. split; split; auto.
  - split; [reflexivity|]. split; split.
    + discriminate.
    + intros [Hp|Hp]; discriminate.
    + discriminate.
    + discriminate.
  - split; [reflexivity|]. split; split; auto.
Qed.

(** X21. The service never fills in the backdrop of a movie: for every
    movie [transformTMDBMovie] builds, and for every enrichment of it, the
    backdrop URL and the backdrop srcset are empty, whatever backdrop path
    the provider sent. *)
Theorem backdrop_never_set (tmdbMovie : TMDBMovie.t) (genreMap : gmap Z string)
  (certification : string) (details : option TMDBMovieDetails.t) (random : Q)
  (d : CachedMovieDetails.t) (size : string) :
  let movie := transformTMDBMovie tmdbMovie genreMap certification details random in
  MovieData.getBackdropUrl movie size = ""
  ∧ MovieData.getBackdropSrcSet movie = ""
  ∧ MovieData.getBackdropUrl (enriched movie d) size = ""
  ∧ MovieData.getBackdropSrcSet (enriched movie d) = ""
  ∧ (∀ w reply,
       Movie.backdrop (fst (enrichMovieWithDetails movie genreMap reply w)) = None).
Proof.
  repeat split.
  intros w reply. unfold enrichMovieWithDetails.
  destruct (getMovieDetailsWithCertification _ reply w) as [[[d'| |]|] w']; reflexivity.
Qed.

End ImageFacts.

(** ** The movies composable *)

Section ComposableFacts.
Variable trim : string → string.

Lemma fetchMovies_keeps_filters (page : Z) (append : bool)
  (outcome : Completion Page.t) (s : UseMovies.State) :
  let s' := fst (UseMovies.fetchMovies trim page append outcome s) in
  UseMovies.searchQuery s' = UseMovies.searchQuery s
  ∧ UseMovies.currentGenre s' = UseMovies.currentGenre s
  ∧ UseMovies.loadingMore s' = false
  ∧ UseMovies.loading s' = false.
Proof.
  unfold UseMovies.fetchMovies. destruct outcome, append; simpl; auto.
Qed.

Lemma service_call_after_fetch (page page' : Z) (append : bool)
  (outcome : Completion Page.t) (s : UseMovies.State) :
  UseMovies.service_call trim page'
    (fst (UseMovies.fetchMovies trim page append outcome s))
  = UseMovies.service_call trim page' s.
Proof.
  unfold UseMovies.service_call, UseMovies.isSearch, UseMovies.getCurrentGenreId.
  destruct (fetchMovies_keeps_filters page append outcome s) as (-> & -> & _).
  reflexivity.
Qed.

Lemma loadMore_proceeds (outcome : Completion Page.t) (s : UseMovies.State) :
  UseMovies.loadingMore s = false →
  UseMovies.currentPage s < UseMovies.totalPages s →
  UseMovies.loadMore trim outcome s
  = (Some (UseMovies.service_call trim (UseMovies.currentPage s + 1) s),
     fst (UseMovies.fetchMovies trim (UseMovies.currentPage s + 1) true outcome s),
     snd (UseMovies.fetchMovies trim (UseMovies.currentPage s + 1) true outcome s)).
Proof.
  intros Hflag Hmore. unfold UseMovies.loadMore, UseMovies.hasMore.
  rewrite Hflag, (proj2 (Z.ltb_lt _ _) Hmore). simpl.
  destruct (UseMovies.fetchMovies trim _ true outcome s). reflexivity.
Qed.

(** X22. Pagination of the composable. After a page has been fetched
    successfully, [loadMore] does nothing and calls no service when that
    page was the last one reported; otherwise it asks the service for the
    following page, with the current query and genre, and appends the movies
    it gets. When that call fails the list and the page counter stay as they
    were, the message is recorded, the loading flags are reset, and the next
    [loadMore] asks for the same page again. *)
Theorem useMovies_pagination (page : Z) (append : bool) (result : Page.t)
  (s : UseMovies.State) :
  let s1 := fst (UseMovies.fetchMovies trim page append (Return result) s) in
  (Page.totalPages result ≤ page →
   ∀ outcome, UseMovies.loadMore trim outcome s1 = (None, s1, None))
  ∧ (page < Page.totalPages result →
     (∀ next,
        let after := UseMovies.loadMore trim (Return next) s1 in
        fst (fst after) = Some (UseMovies.service_call trim (page + 1) s)
        ∧ UseMovies.movies (snd (fst after))
          = UseMovies.movies s1 ++ Page.movies next
        ∧ UseMovies.currentPage (snd (fst after)) = page + 1)
     ∧ (∀ message,
          let after := UseMovies.loadMore trim (Throw message) s1 in
          fst (fst after) = Some (UseMovies.service_call trim (page + 1) s)
          ∧ UseMovies.movies (snd (fst after)) = UseMovies.movies s1
          ∧ UseMovies.currentPage (snd (fst after)) = page
          ∧ UseMovies.error (snd (fst after)) = Some message
          ∧ UseMovies.loadingMore (snd (fst after)) = false
          ∧ ∀ outcome,
              fst (fst (UseMovies.loadMore trim outcome (snd (fst after))))
              = Some (UseMovies.service_call trim (page + 1) s))).
Proof.
  intros s1.
  assert (Hpage : UseMovies.currentPage s1 = page) by reflexivity.
  assert (Htotal : UseMovies.totalPages s1 = Page.totalPages result) by reflexivity.
  assert (Hflag : UseMovies.loadingMore s1 = false) by reflexivity.
  assert (Hcall : ∀ p, UseMovies.service_call trim p s1
                       = UseMovies.service_call trim p s).
  { intros p. apply service_call_after_fetch. }
  split.
  - intros Hlast outcome. unfold UseMovies.loadMore, UseMovies.hasMore.
    rewrite Hflag, Hpage, Htotal. rewrite (proj2 (Z.ltb_ge _ _) Hlast). reflexivity.
  - intros Hmore.
    assert (Hgo : ∀ outcome,
              UseMovies.loadMore trim outcome s1
              = (Some (UseMovies.service_call trim (page + 1) s),
                 fst (UseMovies.fetchMovies trim (page + 1) true outcome s1),
                 snd (UseMovies.fetchMovies trim (page + 1) true outcome s1))).
    { intros outcome. rewrite loadMore_proceeds, Hpage, Hcall; [reflexivity|exact Hflag|].
      rewrite Hpage, Htotal. exact Hmore. }
    split.
    + intros next after. unfold after. rewrite Hgo. simpl. auto.
    + intros message after. unfold after. rewrite Hgo.
      cbn [fst snd]. set (s2 := fst (UseMovies.fetchMovies trim (page + 1) true
                                       (Throw message) s1)).
      assert (Hpage2 : UseMovies.currentPage s2 = page) by reflexivity.
      assert (Htotal2 : UseMovies.totalPages s2 = Page.totalPages result)
        by reflexivity.
      repeat split.
      intros outcome. rewrite loadMore_proceeds; [|reflexivity|].
      * cbn [fst]. rewrite Hpage2. unfold s2.
        rewrite service_call_after_fetch, Hcall. reflexivity.
      * rewrite Hpage2, Htotal2. exact Hmore.
Qed.

End ComposableFacts.

Section ComposablePrefetch.
Context `{Runtime}.
Variable trim : string → string.

(** X23. The page the composable prefetches is the page its next
    [loadMore] asks for: when a fetched page is not the last one, [fetchMovies]
    calls [prefetchNextPage] with arguments for which it does to the world
    exactly what the service call of the next [loadMore] does (a search for a
    search, a discover call with the same genre otherwise), the empty text
    being trimmed to the empty text. This holds of the two parts of the
    call: up to the return of the prefetch, where the world is as at the
    [await] of the service call and a request is in flight exactly when the
    service call waits for one, and from the answer on, at whatever moment
    it arrives; and so of the run in which the answer arrives before
    anything else happens. *)
Theorem useMovies_prefetch_matches_loadMore (page : Z) (append : bool)
  (result : Page.t) (s : UseMovies.State) :
  trim "" = "" →
  page < Page.totalPages result →
  let s1 := fst (UseMovies.fetchMovies trim page append (Return result) s) in
  let next := UseMovies.service_call trim (page + 1) s1 in
  ∃ call,
    snd (UseMovies.fetchMovies trim page append (Return result) s) = Some call
    ∧ (∀ outcome, fst (fst (UseMovies.loadMore trim outcome s1)) = Some next)
    ∧ ∀ w,
        snd (perform_prefetch call w) = snd (perform_start next w)
        ∧ (fst (perform_prefetch call w) = None ↔
           fst (perform_start next w) ≠ Waiting)
        ∧ (∀ pending reply random w',
             fst (perform_prefetch call w) = Some pending →
             prefetchNextPage_answered pending reply random w'
             = snd (perform_resume next reply random w'))
        ∧ (∀ reply random,
             match perform_prefetch call w with
             | (Some pending, w1) =>
                 prefetchNextPage_answered pending reply random
                   (advance (elapsed reply) w1)
             | (None, w1) => w1
             end
             = snd (perform next reply random w)).
Proof.
  intros Htrim Hmore s1 next.
  unfold UseMovies.fetchMovies at 1. simpl.
  rewrite (proj2 (Z.ltb_lt _ _) Hmore). eexists. split; [reflexivity|]. split.
  - intros outcome. rewrite loadMore_proceeds; [reflexivity|reflexivity|exact Hmore].
  - intros w. unfold next, s1. rewrite service_call_after_fetch.
    unfold perform_prefetch, prefetchNextPage, UseMovies.service_call. simpl.
    rewrite (proj2 (Z.leb_gt _ _) Hmore).
    destruct (UseMovies.isSearch trim s) eqn:Hsearch; simpl.
    + assert (Hq : truthy (UseMovies.searchQuery s) = true).
      { apply truthy_true. intros Hq. unfold UseMovies.isSearch in Hsearch.
        rewrite Hq, Htrim in Hsearch. discriminate. }
      rewrite Hq.
      split; [|split; [|split]].
      * destruct (searchMoviesBasic_start _ _ w) as [[c|] w1]; reflexivity.
      * destruct (searchMoviesBasic_start _ _ w) as [[c|] w1]; simpl;
          split; congruence.
      * intros pending reply random w'.
        destruct (searchMoviesBasic_start _ _ w) as [[c|] w1]; simpl;
          [discriminate|]. intros [= <-]. reflexivity.
      * intros reply random. rewrite searchMoviesBasic_split.
        destruct (searchMoviesBasic_start _ _ w) as [[c|] w1]; reflexivity.
    + split; [|split; [|split]].
      * destruct (fetchMoviesBasic_start _ _ w) as [[c|] w1]; reflexivity.
      * destruct (fetchMoviesBasic_start _ _ w) as [[c|] w1]; simpl;
          split; congruence.
      * intros pending reply random w'.
        destruct (fetchMoviesBasic_start _ _ w) as [[c|] w1]; simpl;
          [discriminate|]. intros [= <-]. reflexivity.
      * intros reply random. rewrite fetchMoviesBasic_split.
        destruct (fetchMoviesBasic_start _ _ w) as [[c|] w1]; reflexivity.
Qed.

Lemma enrichMovieWithDetails_id (movie : Movie.t) (genreMap : gmap Z string)
  (reply : Reply TMDBMovieDetailsWithReleaseDates.t) (w : World) :
  Movie.id (fst (enrichMovieWithDetails movie genreMap reply w)) = Movie.id movie.
Proof.
  unfold enrichMovieWithDetails.
  destruct (getMovieDetailsWithCertification _ reply w) as [[[d| |]|] w'];
    reflexivity.
Qed.

Lemma replace_first_ids (movieId : Z) (m' : Movie.t) (l : list Movie.t) :
  Movie.id m' = movieId →
  map Movie.id (UseMovies.replace_first movieId m' l) = map Movie.id l.
Proof.
  intros Hid. induction l as [|m l IH]; simpl; [reflexivity|].
  destruct (Movie.id m =? movieId) eqn:Hm; simpl.
  - apply Z.eqb_eq in Hm. congruence.
  - f_equal. exact IH.
Qed.

Lemma replace_first_others (movieId : Z) (m' : Movie.t) (l : list Movie.t)
  (i : nat) (m : Movie.t) :
  l !! i = Some m → Movie.id m ≠ movieId →
  UseMovies.replace_first movieId m' l !! i = Some m.
Proof.
  revert i. induction l as [|x l IH]; intros i Hi Hne; [discriminate|].
  simpl. destruct (Movie.id x =? movieId) eqn:Hx.
  - destruct i as [|i]; simpl in *; [|exact Hi].
    injection Hi as ->. apply Z.eqb_eq in Hx. contradiction.
  - destruct i as [|i]; simpl in *; [exact Hi | apply IH; assumption].
Qed.

Lemma replace_first_found (movieId : Z) (m' movie : Movie.t) (l : list Movie.t) :
  List.find (fun m => Movie.id m =? movieId) l = Some movie →
  m' ∈ UseMovies.replace_first movieId m' l.
Proof.
  induction l as [|x l IH]; simpl; [discriminate|].
  destruct (Movie.id x =? movieId).
  - intros _. left.
  - intros Hfind. right. apply IH, Hfind.
Qed.

(** X24. [getMovieWithDetails] returns null exactly when the list has no
    movie with the id. Otherwise it returns a movie with that id which is in
    the list afterwards; the list keeps its length, its ids and every movie
    with another id at its place; and a movie that already has a runtime is
    returned as it is without touching the service or the state. *)
Theorem useMovies_getMovieWithDetails (movieId : Z)
  (reply : Reply TMDBMovieDetailsWithReleaseDates.t) (s : UseMovies.State)
  (w : World) :
  let r := UseMovies.getMovieWithDetails movieId reply s w in
  let s' := snd (fst r) in
  (fst (fst r) = None ↔ ∀ m, m ∈ UseMovies.movies s → Movie.id m ≠ movieId)
  ∧ (∀ m', fst (fst r) = Some m' →
       Movie.id m' = movieId ∧ m' ∈ UseMovies.movies s')
  ∧ map Movie.id (UseMovies.movies s') = map Movie.id (UseMovies.movies s)
  ∧ (∀ i m, UseMovies.movies s !! i = Some m → Movie.id m ≠ movieId →
       UseMovies.movies s' !! i = Some m)
  ∧ (∀ movie,
       List.find (fun m => Movie.id m =? movieId) (UseMovies.movies s) = Some movie →
       Movie.runtime movie ≠ "" →
       r = (Some movie, s, w)).
Proof.
  intros r s'. unfold s', r, UseMovies.getMovieWithDetails.
  destruct (List.find _ (UseMovies.movies s)) as [movie|] eqn:Hfind.
  - pose proof (find_some _ _ Hfind) as [Hin Hid]. apply Z.eqb_eq in Hid.
    apply list_elem_of_In in Hin.
    assert (Hnot : ¬ ∀ m, m ∈ UseMovies.movies s → Movie.id m ≠ movieId).
    { intros Hall. exact (Hall movie Hin Hid). }
    destruct (truthy (Movie.runtime movie)) eqn:Hrt.
    + simpl. split; [split; [discriminate | contradiction]|].
      split; [intros m' [= <-]; auto|]. split; [reflexivity|].
      split; [auto|]. intros movie' [= <-] _. reflexivity.
    + pose proof (enrichMovieWithDetails_id movie ∅ reply w) as Heid.
      destruct (enrichMovieWithDetails movie ∅ reply w) as [enrichedMovie w'].
      simpl in *. split; [split; [discriminate | contradiction]|].
      split.
      { intros m' [= <-]. split; [congruence|].
        apply (replace_first_found _ _ movie). exact Hfind. }
      split; [apply replace_first_ids; congruence|].
      split; [intros i m; apply replace_first_others|].
      intros movie' [= <-] Hne. apply truthy_true in Hne. congruence.
  - simpl. split.
    + split; [|reflexivity]. intros _ m Hin Hid.
      pose proof (find_none _ _ Hfind m (proj1 (list_elem_of_In _ _) Hin)) as Hne.
      simpl in Hne. apply Z.eqb_neq in Hne. contradiction.
    + split; [discriminate|]. split; [reflexivity|]. split; [auto | discriminate].
Qed.

End ComposablePrefetch.

Lemma useMovies_pagination_witness :
  let s1 := fst (UseMovies.fetchMovies space_trim 1 false (Return next_page) searching) in
  let failed := snd (fst (UseMovies.loadMore space_trim (Throw "offline") s1)) in
  UseMovies.movies failed = UseMovies.movies s1
  ∧ fst (fst (UseMovies.loadMore space_trim (Return next_page) failed))
    = Some (UseMovies.CallSearchMoviesBasic "alien" 2)
  ∧ UseMovies.loadMore space_trim (Return next_page)
      (fst (UseMovies.fetchMovies space_trim 3 true (Return next_page) searching))
    = (None, fst (UseMovies.fetchMovies space_trim 3 true (Return next_page) searching),
       None).
Proof.
  intros s1 failed.
  destruct (useMovies_pagination space_trim 1 false next_page searching)
    as (_ & Hmore).
  destruct Hmore as (_ & Hfail); [reflexivity|].
  destruct (Hfail "offline") as (_ & Hmovies & _ & _ & _ & Hretry).
  split; [exact Hmovies|]. split; [exact (Hretry (Return next_page))|].
  apply (useMovies_pagination space_trim 3 true next_page searching).
  discriminate.
Defined.

Lemma useMovies_prefetch_matches_loadMore_witness :
  ∃ call,
    snd (UseMovies.fetchMovies space_trim 1 false (Return next_page) searching)
    = Some call
    ∧ log (snd (perform_prefetch (H := reference_runtime []) call
                  (cold Unavailable 0)))
      = [EvFetch "/search/movie" (search_params "alien" 2)].
Proof.
  destruct (useMovies_prefetch_matches_loadMore (H := reference_runtime []) space_trim
              1 false next_page searching) as (call & Hcall & _ & Hsame).
  - reflexivity.
  - reflexivity.
  - exists call. split; [exact Hcall|].
    destruct (Hsame (cold Unavailable 0)) as (-> & _). vm_compute. reflexivity.
Defined.

Lemma useMovies_getMovieWithDetails_witness :
  fst (fst (UseMovies.getMovieWithDetails (H := reference_runtime []) 7 malformed_reply
              searching (cold Unavailable 0))) = None
  ∧ UseMovies.getMovieWithDetails (H := reference_runtime []) 1 malformed_reply
      (fst (UseMovies.fetchMovies space_trim 1 false
              (Return {| Page.movies := [sample_view "" "R" "137 min"];
                         Page.totalPages := 1; Page.totalResults := 1 |}) searching))
      (cold Unavailable 0)
    = (Some (sample_view "" "R" "137 min"),
       fst (UseMovies.fetchMovies space_trim 1 false
              (Return {| Page.movies := [sample_view "" "R" "137 min"];
                         Page.totalPages := 1; Page.totalResults := 1 |}) searching),
       cold Unavailable 0).
Proof.
  split.
  - apply (useMovies_getMovieWithDetails (H := reference_runtime []) 7 malformed_reply
             searching (cold Unavailable 0)).
    intros m Hin. apply list_elem_of_singleton in Hin as ->. discriminate.
  - apply (useMovies_getMovieWithDetails (H := reference_runtime []) 1 malformed_reply).
    + reflexivity.
    + discriminate.
Defined.

(** ** The cart *)

Lemma isInCart_ids (movieId : Z) (items : UseCart.Items) :
  UseCart.isInCart movieId items = true ↔ movieId ∈ UseCart.ids items.
Proof.
  unfold UseCart.isInCart, UseCart.ids, UseCart.movies.
  induction items as [|item items IH]; simpl.
  - split; [discriminate | intros Hin; inversion Hin].
  - rewrite orb_true_iff, IH, elem_of_cons. unfold UseCart.has_id.
    rewrite Z.eqb_eq. intuition congruence.
Qed.

Lemma find_has_id (movieId : Z) (items : UseCart.Items) :
  match List.find (UseCart.has_id movieId) items with
  | Some item => Movie.id (CartItem.movie item) = movieId ∧ item ∈ items
  | None => UseCart.isInCart movieId items = false
  end.
Proof.
  unfold UseCart.isInCart. induction items as [|item items IH]; simpl; [reflexivity|].
  destruct (UseCart.has_id movieId item) eqn:Hid; simpl.
  - split; [apply Z.eqb_eq, Hid | left].
  - destruct (List.find _ items); [|exact IH].
    destruct IH as [Hm Hin]. split; [exact Hm | right; exact Hin].
Qed.

Lemma find_app_miss (movieId : Z) (items rest : UseCart.Items) :
  UseCart.isInCart movieId items = false →
  List.find (UseCart.has_id movieId) (items ++ rest)
  = List.find (UseCart.has_id movieId) rest.
Proof.
  unfold UseCart.isInCart. induction items as [|item items IH]; simpl; [reflexivity|].
  intros Hmiss. apply orb_false_iff in Hmiss as [-> Hmiss]. apply IH, Hmiss.
Qed.

Lemma ids_remove (movieId : Z) (items : UseCart.Items) :
  UseCart.ids (UseCart.remove movieId items)
  = List.filter (fun id => negb (id =? movieId)) (UseCart.ids items).
Proof.
  unfold UseCart.ids, UseCart.movies, UseCart.remove, UseCart.has_id.
  induction items as [|item items IH]; simpl; [reflexivity|].
  destruct (Movie.id (CartItem.movie item) =? movieId); simpl; congruence.
Qed.

Lemma ids_updateReview (movieId : Z) (review : CartReview.t)
  (items : UseCart.Items) :
  UseCart.movies (UseCart.updateReview movieId review items)
  = UseCart.movies items.
Proof.
  unfold UseCart.movies. induction items as [|item items IH]; simpl; [reflexivity|].
  destruct (UseCart.has_id movieId item); simpl; congruence.
Qed.

Lemma NoDup_filter_Z (p : Z → bool) (l : list Z) :
  NoDup l → NoDup (List.filter p l).
Proof.
  induction 1 as [|x l Hx Hl IH]; simpl; [constructor|].
  destruct (p x); [|exact IH]. constructor; [|exact IH].
  intros Hin. apply Hx. apply list_elem_of_In in Hin.
  apply filter_In in Hin as [Hin _]. apply list_elem_of_In, Hin.
Qed.

Lemma call_distinct (items : UseCart.Items) (c : UseCart.Call) :
  NoDup (UseCart.ids items) → NoDup (UseCart.ids (UseCart.call items c)).
Proof.
  intros Hnd. destruct c as [movie review|movieId|movieId review|]; simpl.
  - unfold UseCart.add. pose proof (find_has_id (Movie.id movie) items) as Hfind.
    destruct (List.find _ items); simpl; [exact Hnd|].
    unfold UseCart.ids, UseCart.movies. rewrite !map_app. simpl.
    apply NoDup_app. split; [exact Hnd|]. split; [|apply NoDup_singleton].
    intros id Hin Hid. apply list_elem_of_singleton in Hid as ->.
    apply isInCart_ids in Hin. congruence.
  - rewrite ids_remove. apply NoDup_filter_Z, Hnd.
  - unfold UseCart.ids. rewrite ids_updateReview. exact Hnd.
  - constructor.
Qed.

(** X25. The cart never holds two items with the same movie id: every
    sequence of [add], [remove], [updateReview] and [clear] calls keeps the
    ids of a cart distinct, so a cart that started empty has distinct ids
    whatever was called on it. *)
Theorem cart_ids_distinct (cs : list UseCart.Call) (items : UseCart.Items) :
  NoDup (UseCart.ids items) →
  NoDup (UseCart.ids (UseCart.calls cs items)).
Proof.
  unfold UseCart.calls. revert items.
  induction cs as [|c cs IH]; intros items Hnd; simpl; [exact Hnd|].
  apply IH, call_distinct, Hnd.
Qed.

(** X26. [add] returns true exactly when the movie's id was not in the
    cart. Then the item is appended with the review passed: the count grows
    by one, the movie is in the cart and [getReview] gives that review.
    Otherwise the cart is left as it was, the review passed being dropped. *)
Theorem cart_add (movie : Movie.t) (review : option CartReview.t)
  (items : UseCart.Items) :
  let r := UseCart.add movie review items in
  fst r = negb (UseCart.isInCart (Movie.id movie) items)
  ∧ (fst r = true →
     UseCart.movies (snd r) = UseCart.movies items ++ [movie]
     ∧ UseCart.count (snd r) = S (UseCart.count items)
     ∧ UseCart.isInCart (Movie.id movie) (snd r) = true
     ∧ UseCart.getReview (Movie.id movie) (snd r) = review)
  ∧ (fst r = false → snd r = items).
Proof.
  unfold UseCart.add. pose proof (find_has_id (Movie.id movie) items) as Hfind.
  destruct (List.find _ items) as [item|] eqn:Hf; simpl.
  - destruct Hfind as [Hid Hin]. split; [|split; [discriminate | reflexivity]].
    symmetry. apply negb_false_iff, isInCart_ids.
    rewrite <- Hid. unfold UseCart.ids, UseCart.movies.
    apply list_elem_of_In, in_map, in_map, list_elem_of_In, Hin.
  - rewrite Hfind. split; [reflexivity|]. split; [|discriminate]. intros _.
    split; [unfold UseCart.movies; rewrite map_app; reflexivity|].
    split; [unfold UseCart.count; rewrite length_app; simpl; lia|].
    split.
    + apply isInCart_ids. unfold UseCart.ids, UseCart.movies.
      rewrite !map_app. simpl. apply elem_of_app. right. left.
    + unfold UseCart.getReview. rewrite find_app_miss by exact Hfind. simpl.
      unfold UseCart.has_id. simpl. rewrite Z.eqb_refl. reflexivity.
Qed.

Lemma find_remove_other (movieId other : Z) (items : UseCart.Items) :
  other ≠ movieId →
  List.find (UseCart.has_id other) (UseCart.remove movieId items)
  = List.find (UseCart.has_id other) items.
Proof.
  intros Hne. unfold UseCart.remove.
  induction items as [|item items IH]; simpl; [reflexivity|].
  destruct (UseCart.has_id movieId item) eqn:Hm; simpl.
  - assert (Ho : UseCart.has_id other item = false).
    { unfold UseCart.has_id in *. apply Z.eqb_eq in Hm. apply Z.eqb_neq. congruence. }
    rewrite Ho. exact IH.
  - destruct (UseCart.has_id other item); [reflexivity | exact IH].
Qed.

Lemma filter_absent_length (movieId : Z) (l : list Z) :
  NoDup l → movieId ∈ l →
  S (length (List.filter (fun id => negb (id =? movieId)) l)) = length l.
Proof.
  induction 1 as [|x l Hx Hl IH]; intros Hin; [inversion Hin|].
  simpl. destruct (x =? movieId) eqn:Hxm; simpl.
  - apply Z.eqb_eq in Hxm. subst x. f_equal.
    clear IH Hin Hl. induction l as [|y l IH]; simpl; [reflexivity|].
    apply not_elem_of_cons in Hx as [Hne Hx].
    assert (Hy : (y =? movieId) = false) by (apply Z.eqb_neq; congruence).
    rewrite Hy. simpl. f_equal. apply IH, Hx.
  - f_equal. apply IH. apply elem_of_cons in Hin as [->|Hin]; [|exact Hin].
    rewrite Z.eqb_refl in Hxm. discriminate.
Qed.

(** X27. After [remove] the movie is not in the cart, and for every other
    id membership and the review are as before. In a cart with distinct ids
    that held the movie the count drops by exactly one; a cart that did not
    hold it is unchanged. *)
Theorem cart_remove (movieId : Z) (items : UseCart.Items) :
  UseCart.isInCart movieId (UseCart.remove movieId items) = false
  ∧ (∀ other, other ≠ movieId →
       UseCart.isInCart other (UseCart.remove movieId items)
       = UseCart.isInCart other items
       ∧ UseCart.getReview other (UseCart.remove movieId items)
         = UseCart.getReview other items)
  ∧ (NoDup (UseCart.ids items) → UseCart.isInCart movieId items = true →
     S (UseCart.count (UseCart.remove movieId items)) = UseCart.count items)
  ∧ (UseCart.isInCart movieId items = false →
     UseCart.remove movieId items = items).
Proof.
  split; [|split; [|split]].
  - destruct (UseCart.isInCart movieId (UseCart.remove movieId items)) eqn:Hin;
      [|reflexivity].
    apply isInCart_ids in Hin. rewrite ids_remove in Hin.
    apply list_elem_of_In, filter_In in Hin as [_ Hin].
    rewrite Z.eqb_refl in Hin. discriminate.
  - intros other Hne. split.
    + apply eq_true_iff_eq. rewrite !isInCart_ids, ids_remove.
      rewrite !list_elem_of_In, filter_In.
      assert (Ho : (other =? movieId) = false) by (apply Z.eqb_neq, Hne).
      rewrite Ho. simpl. intuition.
    + unfold UseCart.getReview. rewrite find_remove_other by exact Hne. reflexivity.
  - intros Hnd Hin. apply isInCart_ids in Hin.
    pose proof (filter_absent_length movieId _ Hnd Hin) as Hlen.
    rewrite <- ids_remove in Hlen. unfold UseCart.ids, UseCart.movies in Hlen.
    rewrite !length_map in Hlen. exact Hlen.
  - unfold UseCart.isInCart, UseCart.remove.
    induction items as [|item items IH]; simpl; [reflexivity|].
    intros Hmiss. apply orb_false_iff in Hmiss as [-> Hmiss]. simpl.
    f_equal. apply IH, Hmiss.
Qed.

Lemma find_updateReview_other (movieId other : Z) (review : CartReview.t)
  (items : UseCart.Items) :
  other ≠ movieId →
  option_map CartItem.review
    (List.find (UseCart.has_id other) (UseCart.updateReview movieId review items))
  = option_map CartItem.review (List.find (UseCart.has_id other) items).
Proof.
  intros Hne. induction items as [|item items IH]; simpl; [reflexivity|].
  destruct (UseCart.has_id movieId item) eqn:Hm; simpl.
  - unfold UseCart.has_id in *. simpl. apply Z.eqb_eq in Hm.
    assert (Ho : (Movie.id (CartItem.movie item) =? other) = false)
      by (apply Z.eqb_neq; congruence).
    rewrite Ho. reflexivity.
  - destruct (UseCart.has_id other item); [reflexivity | exact IH].
Qed.

(** X28. [updateReview] followed by [getReview] gives the new review when
    the movie is in the cart, and changes nothing at all when it is not. In
    both cases the movies of the cart, their order and the reviews of the
    other ids stay as they were. *)
Theorem cart_updateReview (movieId : Z) (review : CartReview.t)
  (items : UseCart.Items) :
  let items' := UseCart.updateReview movieId review items in
  UseCart.movies items' = UseCart.movies items
  ∧ (∀ other, other ≠ movieId →
       UseCart.getReview other items' = UseCart.getReview other items)
  ∧ (UseCart.isInCart movieId items = true →
     UseCart.getReview movieId items' = Some review)
  ∧ (UseCart.isInCart movieId items = false → items' = items).
Proof.
  intros items'. unfold items'. split; [apply ids_updateReview|]. split; [|split].
  - intros other Hne. unfold UseCart.getReview.
    pose proof (find_updateReview_other movieId other review items Hne) as Hfind.
    destruct (List.find _ (UseCart.updateReview _ _ _)),
             (List.find (UseCart.has_id other) items);
      simpl in Hfind; congruence.
  - unfold UseCart.isInCart, UseCart.getReview.
    induction items as [|item items IH]; simpl; [discriminate|].
    destruct (UseCart.has_id movieId item) eqn:Hm; simpl.
    + intros _. unfold UseCart.has_id in *. simpl. rewrite Hm. reflexivity.
    + rewrite Hm. exact IH.
  - unfold UseCart.isInCart.
    induction items as [|item items IH]; simpl; [reflexivity|].
    intros Hmiss. apply orb_false_iff in Hmiss as [-> Hmiss].
    f_equal. apply IH, Hmiss.
Qed.

(** X29. The two ways the cart counts reviews agree. [reviewCount] never
    exceeds [count]; a movie for which [hasReview] holds is in the cart; and
    in a cart with distinct ids [reviewCount] is the number of items whose
    id [hasReview] accepts. *)
Theorem cart_reviewCount (items : UseCart.Items) :
  (UseCart.reviewCount items ≤ UseCart.count items)%nat
  ∧ (∀ movieId, UseCart.hasReview movieId items = true →
       UseCart.isInCart movieId items = true)
  ∧ (NoDup (UseCart.ids items) →
     UseCart.reviewCount items
     = length (List.filter
                 (fun item =>
                    UseCart.hasReview (Movie.id (CartItem.movie item)) items)
                 items)).
Proof.
  split; [|split].
  - unfold UseCart.reviewCount, UseCart.count.
    induction items as [|item items IH]; simpl; [lia|].
    destruct (UseCart.rated _); simpl; lia.
  - intros movieId. unfold UseCart.hasReview, UseCart.getReview.
    pose proof (find_has_id movieId items) as Hf.
    destruct (List.find _ items) as [item|]; [|discriminate].
    destruct Hf as [Hid Hin]. intros _. apply isInCart_ids. rewrite <- Hid.
    unfold UseCart.ids, UseCart.movies.
    apply list_elem_of_In, in_map, in_map, list_elem_of_In, Hin.
  - intros Hnd. unfold UseCart.reviewCount. f_equal.
    assert (Hsame : ∀ item, item ∈ items →
              UseCart.rated (CartItem.review item)
              = UseCart.hasReview (Movie.id (CartItem.movie item)) items).
    { clear -Hnd. induction items as [|x items IH]; intros item Hin;
        [inversion Hin|].
      unfold UseCart.ids, UseCart.movies in Hnd. simpl in Hnd.
      apply NoDup_cons in Hnd as [Hx Hnd].
      unfold UseCart.hasReview, UseCart.getReview. simpl.
      apply elem_of_cons in Hin as [->|Hin].
      - unfold UseCart.has_id at 1. rewrite Z.eqb_refl. reflexivity.
      - destruct (UseCart.has_id (Movie.id (CartItem.movie item)) x) eqn:Hid.
        + exfalso. apply Hx. apply Z.eqb_eq in Hid. rewrite Hid.
          apply list_elem_of_In, in_map, in_map, list_elem_of_In, Hin.
        + apply (IH Hnd item Hin). }
    apply filter_ext_in. intros item Hin. apply Hsame, list_elem_of_In, Hin.
Qed.

Lemma cart_ids_distinct_witness :
  UseCart.ids (UseCart.calls evening []) = [2]
  ∧ NoDup (UseCart.ids (UseCart.calls evening [])).
Proof.
  split; [reflexivity|].
  apply (cart_ids_distinct evening []). constructor.
Defined.

Lemma cart_add_witness :
  UseCart.getReview 3 (snd (UseCart.add (tape 3 "Blade Runner") (Some five_stars)
                              (UseCart.calls evening [])))
  = Some five_stars
  ∧ snd (UseCart.add (tape 2 "Alien") None (UseCart.calls evening []))
    = UseCart.calls evening [].
Proof.
  split.
  - apply (cart_add (tape 3 "Blade Runner") (Some five_stars)
             (UseCart.calls evening [])). reflexivity.
  - apply (cart_add (tape 2 "Alien") None (UseCart.calls evening [])). reflexivity.
Defined.

Lemma cart_remove_witness :
  UseCart.getReview 2 (UseCart.remove 1 (UseCart.calls (firstn 4 evening) []))
  = Some five_stars
  ∧ UseCart.count (UseCart.remove 1 (UseCart.calls (firstn 4 evening) [])) = 1%nat
  ∧ UseCart.remove 7 (UseCart.calls evening []) = UseCart.calls evening [].
Proof.
  destruct (cart_remove 1 (UseCart.calls (firstn 4 evening) []))
    as (_ & Hother & Hcount & _).
  split; [|split].
  - destruct (Hother 2) as [_ ->]; [discriminate | reflexivity].
  - apply Nat.succ_inj. etransitivity; [apply Hcount | reflexivity].
    + apply (bool_decide_unpack _). vm_compute. reflexivity.
    + reflexivity.
  - apply (cart_remove 7 (UseCart.calls evening [])). reflexivity.
Defined.

Lemma cart_updateReview_witness :
  UseCart.getReview 2 (UseCart.updateReview 2 unrated (UseCart.calls evening []))
  = Some unrated
  ∧ UseCart.updateReview 9 unrated (UseCart.calls evening [])
    = UseCart.calls evening [].
Proof.
  split.
  - apply (cart_updateReview 2 unrated (UseCart.calls evening [])). reflexivity.
  - apply (cart_updateReview 9 unrated (UseCart.calls evening [])). reflexivity.
Defined.

Lemma cart_reviewCount_witness :
  UseCart.isInCart 2 (UseCart.calls evening []) = true
  ∧ UseCart.reviewCount (UseCart.calls (firstn 4 evening) []) = 1%nat.
Proof.
  split.
  - apply (cart_reviewCount (UseCart.calls evening [])). reflexivity.
  - destruct (cart_reviewCount (UseCart.calls (firstn 4 evening) []))
      as (_ & _ & Hcount).
    rewrite Hcount; [reflexivity|].
    apply (bool_decide_unpack _). vm_compute. reflexivity.
Defined.
